(** * sfepy: nodal H1 fields and refinement with hanging nodes

    A shallow embedding of
    - [sfepy/discrete/fem/fields_nodal.py]  (the DOF setup functions of
      [H1NodalMixin], [H1NodalMixin.set_dofs], [H1NodalMixin.evaluate_at],
      [H1DiscontinuousField._setup_global_base]) and
    - [sfepy/discrete/fem/refine_hanging.py] ([find_level_interface],
      [refine_region], [find_facet_substitutions], [refine],
      [eval_basis_transform]).

    NumPy arrays are lists (nested lists for 2D/3D arrays), indexing is
    stdpp's list lookup turned into a Python exception when it is out of
    range, and a Python exception is a value of the [result] type. *)

From Stdlib Require Import ZArith List Lia Bool Sorted.
From Stdlib Require Import Floats.SpecFloat.
From stdpp Require Import base list strings.

Open Scope Z_scope.

(** ** Python exceptions and fallible computations *)

Inductive exn : Type :=
| ValueError          (* a failed [assert_], arrays whose shapes do not fit *)
| IndexError          (* index out of bounds *)
| TypeError           (* wrong number of arguments, indexing [None] *)
| AttributeError      (* attribute of [None] *)
| UnboundLocalError.  (* local variable referenced before assignment *)

Inductive result (A : Type) : Type :=
| Ok (a : A)
| Raise (e : exn).

Arguments Ok {A} a.
Arguments Raise {A} e.

#[global] Instance result_ret : MRet result := fun A a => Ok a.

#[global] Instance result_bind : MBind result := fun A B k m =>
  match m with
  | Ok a => k a
  | Raise e => Raise e
  end.

(** Modelled from the spec: [assert_] of sfepy.base.base is not among the
    sources.  A violated invariant is "a fatal consistency error", "reported
    immediately, never silently recovered": the call raises on a false
    condition ([ValueError] is what sfepy raises) and carries on
    otherwise. *)
Definition assert_ (cond : bool) : result unit :=
  if cond then Ok tt else Raise ValueError.

(** [a[i]] for a non-negative index [i]. *)
Definition getitem {A : Type} (a : list A) (i : nat) : result A :=
  match a !! i with
  | Some x => Ok x
  | None => Raise IndexError
  end.

(** [a[idx]] for an index array [idx] (fancy indexing). *)
Fixpoint take_ {A : Type} (a : list A) (idx : list nat) : result (list A) :=
  match idx with
  | [] => Ok []
  | i :: idx' =>
      x ← getitem a i;
      xs ← take_ a idx';
      Ok (x :: xs)
  end.

(** [a[i] = x] for a non-negative index [i]. *)
Definition setitem {A : Type} (a : list A) (i : nat) (x : A) : result (list A) :=
  if decide (i < length a)%nat then Ok (<[i:=x]> a) else Raise IndexError.

(** [nm.nonzero(flag)[0]]: the ascending positions of the true entries. *)
Fixpoint nonzero_from (i : nat) (flag : list bool) : list nat :=
  match flag with
  | [] => []
  | b :: flag' =>
      if b then i :: nonzero_from (S i) flag' else nonzero_from (S i) flag'
  end.

Definition nonzero (flag : list bool) : list nat := nonzero_from 0 flag.

(** [nm.searchsorted(a, v)] (side ['left']): the number of leading entries
    of the ascending array [a] that are smaller than [v]. *)
Fixpoint searchsorted (a : list nat) (v : nat) : nat :=
  match a with
  | [] => O
  | x :: a' => if (x <? v)%nat then S (searchsorted a' v) else O
  end.

(** [a[i]] for a signed index [i]: a negative index counts from the end. *)
Definition getitemZ {A : Type} (a : list A) (i : Z) : result A :=
  if 0 <=? i then getitem a (Z.to_nat i)
  else if 0 <=? Z.of_nat (length a) + i
       then getitem a (Z.to_nat (Z.of_nat (length a) + i))
       else Raise IndexError.

(** Arithmetic of dtype [int32] wraps around (two's complement). *)
Definition int32 (z : Z) : Z := (z + 2 ^ 31) mod 2 ^ 32 - 2 ^ 31.

Definition fits_int32 (z : Z) : bool := (- 2 ^ 31 <=? z) && (z <? 2 ^ 31).

(** [x + a] for an integer [x] and an entry [a] of an [int32] array: the
    result keeps the dtype of the array, and wraps around, when the value of
    [x] fits in [int32]; the array is promoted to [int64] otherwise. *)
Definition add_int32 (x a : Z) : Z :=
  if fits_int32 x then int32 (x + a) else x + a.

(** [nm.arange(start, start + n, dtype=nm.int32)] *)
Definition arange_int32 (start : Z) (n : nat) : list Z :=
  map (fun i => int32 (start + Z.of_nat i)) (seq 0 n).

(** Array entries of dtype [float64] are IEEE 754 doubles; [nm.nan] is
    [S754_nan]. *)
Definition float64 : Type := spec_float.
Definition nan : float64 := S754_nan.

(** Double precision arithmetic and the literals [0.0], [1.0], [0.5] and
    [1e-15] (that is [0x1.203af9ee75616p-50]). *)
Definition f_add (x y : float64) : float64 := SFadd 53 1024 x y.
Definition f_sub (x y : float64) : float64 := SFsub 53 1024 x y.
Definition f_zero : float64 := S754_zero false.
Definition f_one : float64 := S754_finite false 4503599627370496 (-52).
Definition f_half : float64 := S754_finite false 4503599627370496 (-53).
Definition f_1e_15 : float64 := S754_finite false 5070602400912918 (-102).

(** * [fields_nodal.py] *)

Module FieldsNodal.

(** ** [H1NodalMixin.evaluate_at] *)

(** The arrays of this function hold doubles ([evaluate_in_rc] is compiled
    for [float64] arrays only). *)

(** The array [vals]: shape [(n_coor, n_components)] in mode ['val'] (after
    [vals.shape = ...]), shape [(n_coor, n_components, dim)] in mode
    ['grad']. *)
Inductive ndarray : Type :=
| Arr2 (a : list (list float64))
| Arr3 (a : list (list (list float64))).

(** What [get_ref_coors] (sfepy.discrete.fem.global_interp) returns. *)
Record ref_coors_out : Type := {
  ref_coors : list (list float64);
  cells : list Z;
  status : list Z
}.

(** [nm.where(status > 1)[0]] *)
Definition where_gt1 (status : list Z) : list nat :=
  nonzero (map (fun s => 1 <? s) status).

(** One row of [vals] set to a scalar: [vals[i] = x] broadcasts [x] over
    the whole sub-array. *)
Definition fill_row2 (x : float64) (row : list float64) : list float64 :=
  map (fun _ => x) row.

Definition fill_row3 (x : float64) (row : list (list float64))
  : list (list float64) :=
  map (fill_row2 x) row.

(** [vals[ii] = x] for an index array [ii]: every index is checked, then
    the rows are overwritten. *)
Fixpoint set_rows {A : Type} (f : A -> A) (a : list A) (ii : list nat)
  : result (list A) :=
  match ii with
  | [] => Ok a
  | i :: ii' =>
      row ← getitem a i;
      a' ← setitem a i (f row);
      set_rows f a' ii'
  end.

Definition set_nan (vals : ndarray) (ii : list nat) : result ndarray :=
  match vals with
  | Arr2 a => a' ← set_rows (fill_row2 nan) a ii; Ok (Arr2 a')
  | Arr3 a => a' ← set_rows (fill_row3 nan) a ii; Ok (Arr3 a')
  end.

(** The tuple handed back to the caller. *)
Inductive evaluate_at_ret : Type :=
| RetValsRefCellsStatus (vals : ndarray) (rc : list (list float64))
                        (cells : list Z) (status : list Z)
| RetValsCellsStatus (vals : ndarray) (cells : list Z) (status : list Z)
| RetValsCells (vals : ndarray) (cells : list Z)
| RetVals (vals : ndarray).

Definition ret_vals (r : evaluate_at_ret) : ndarray :=
  match r with
  | RetValsRefCellsStatus v _ _ _ => v
  | RetValsCellsStatus v _ _ => v
  | RetValsCells v _ => v
  | RetVals v => v
  end.

(** [evaluate_at].  The two external collaborators are arguments:
    - [located] is the triple returned by [get_ref_coors];
    - [evaluate_in_rc cmode] is the content of the 3D array [vals] once the
      compiled interpolation routine has filled it ([cmode] 0 for values,
      1 for gradients).
    In mode ['val'] the last axis has length one and is dropped by the
    reshape, which [concat] does row by row. *)
Definition evaluate_at
    (located : ref_coors_out)
    (evaluate_in_rc : Z -> list (list (list float64)))
    (mode : string)
    (ret_cells ret_status ret_ref_coors : bool)
  : result evaluate_at_ret :=
  cmode ← (if String.eqb mode "val" then Ok 0
            else if String.eqb mode "grad" then Ok 1
            else Raise UnboundLocalError);
  let vals3 := evaluate_in_rc cmode in
  let vals := if String.eqb mode "val" then Arr2 (map (@concat float64) vals3)
              else Arr3 vals3 in
  vals ← (if negb ret_status
           then set_nan vals (where_gt1 (status located))
           else Ok vals);
  if ret_ref_coors then
    Ok (RetValsRefCellsStatus vals (ref_coors located) (cells located)
                              (status located))
  else if ret_status then
    Ok (RetValsCellsStatus vals (cells located) (status located))
  else if ret_cells then
    Ok (RetValsCells vals (cells located))
  else
    Ok (RetVals vals).

(** ** [H1NodalMixin._setup_facet_dofs] *)

(** [a[i, j] = x] on a 2D array. *)
Definition setitem2 {A : Type} (a : list (list A)) (i j : nat) (x : A)
  : result (list (list A)) :=
  row ← getitem a i;
  row' ← setitem row j x;
  setitem a i row'.

(** [a[idx]] for a 2D index array [idx]. *)
Fixpoint take2 {A : Type} (a : list A) (idx : list (list nat))
  : result (list (list A)) :=
  match idx with
  | [] => Ok []
  | r :: idx' =>
      x ← take_ a r;
      xs ← take2 a idx';
      Ok (x :: xs)
  end.

(** Modelled from the spec: [expand_nodes_to_dofs] of
    sfepy.discrete.common.dof_info is not among the sources.  Each node owns
    one contiguous block of [n_dof_per_node] DOF ids ("one DOF block per"
    entity): row [i] is [n_dof_per_node * nods[i] + (0, 1, ...)].  The node
    arrays it is called with here are [int32] arrays, and so is its
    result. *)
Definition expand_nodes_to_dofs (nods : list Z) (n_dof_per_node : nat)
  : list (list Z) :=
  map (fun nd => map (fun k => int32 (Z.of_nat n_dof_per_node * nd
                                      + Z.of_nat k))
                     (seq 0 n_dof_per_node)) nods.

(** [remap[indices] = nm.arange(len(indices))], entry by entry. *)
Fixpoint remap_fill (remap : list Z) (i : nat) (indices : list nat)
  : result (list Z) :=
  match indices with
  | [] => Ok remap
  | g :: indices' =>
      remap' ← setitem remap g (Z.of_nat i);
      remap_fill remap' (S i) indices'
  end.

(** Modelled from the spec: [prepare_remap] of sfepy.discrete.fem.utils is
    not among the sources.  It is the "remap from the full mesh-facet
    numbering restricted to the region": an array over all [n_full] mesh
    entities holding the region-local number of each listed entity and -1
    elsewhere. *)
Definition prepare_remap (indices : list nat) (n_full : nat)
  : result (list Z) :=
  remap_fill (replicate n_full (-1)) 0 indices.

(** [gdofs[iaux[:, None], perms]]: row [r] of [gdofs] read at the positions
    [perms[r]]. *)
Fixpoint take_rows (gdofs : list (list Z)) (perms : list (list nat))
  : result (list (list Z)) :=
  match gdofs, perms with
  | [], [] => Ok []
  | row :: gdofs', p :: perms' =>
      x ← take_ row p;
      xs ← take_rows gdofs' perms';
      Ok (x :: xs)
  | _, _ => Raise IndexError
  end.

(** [econn[c, cols] = vals] for one row of the index arrays. *)
Fixpoint assign_row (econn : list (list Z)) (c : nat) (cols : list nat)
    (vals : list Z) : result (list (list Z)) :=
  match cols, vals with
  | [], [] => Ok econn
  | j :: cols', v :: vals' =>
      econn' ← setitem2 econn c j v;
      assign_row econn' c cols' vals'
  | _, _ => Raise ValueError
  end.

(** [econn[iel[:, None], iep] = rhs]: the writes happen in index order, a
    later write to the same slot wins. *)
Fixpoint assign_rows (econn : list (list Z)) (iel : list nat)
    (iep : list (list nat)) (rhs : list (list Z)) : result (list (list Z)) :=
  match iel, iep, rhs with
  | [], [], [] => Ok econn
  | c :: iel', cols :: iep', vals :: rhs' =>
      econn' ← assign_row econn c cols vals;
      assign_rows econn' iel' iep' rhs'
  | _, _, _ => Raise ValueError
  end.

(** The data of the field, its region and the mesh topology that
    [_setup_facet_dofs] reads, for the facet dimension [dim] of the call. *)
Record facet_env : Type := {
  region_entities : list nat;  (* self.region.entities[dim] *)
  cmesh_num : nat;             (* cmesh.num[dim] *)
  cconn_offsets : list nat;    (* cmesh.get_conn(tdim, dim).offsets *)
  cconn_indices : list nat;    (* cmesh.get_conn(tdim, dim).indices *)
  cmesh_oris : list nat;       (* cmesh.get_orientations(dim) *)
  gel_n_edges : nat;           (* self.gel.edges.shape[0] *)
  gel_n_faces : nat;           (* self.gel.faces.shape[0] *)
  region_cells : list nat      (* self.region.get_cells() *)
}.

(** [offset + a] for an [int32] array [a]. *)
Definition add_offset (offset : Z) (a : list (list Z)) : list (list Z) :=
  map (map (add_int32 offset)) a.

(** [_setup_facet_dofs(dim, facet_desc, facet_perms, offset)].  The element
    connectivity [self.ap.econn] is threaded through: the function returns
    the updated array next to [(n_dof, all_dofs, remap)]. *)
Definition _setup_facet_dofs (env : facet_env) (econn : list (list Z))
    (dim : nat) (facet_desc : list (list nat))
    (facet_perms : list (list nat)) (offset : Z)
  : result (list (list Z) * (nat * list (list Z) * list Z)) :=
  (* n_dof_per_facet = facet_desc.shape[1] *)
  n_dof_per_facet ← (match facet_desc with
                     | [] => Raise IndexError
                     | d :: _ => Ok (length d)
                     end);
  let facets := region_entities env in
  let ii := map Z.of_nat (seq 0 (length facets)) in
  let all_dofs := add_offset offset (expand_nodes_to_dofs ii n_dof_per_facet) in
  remap ← prepare_remap facets (cmesh_num env);
  let n_f := if (dim =? 1)%nat then gel_n_edges env else gel_n_faces env in
  let gcells := region_cells env in
  let n_el := length gcells in
  let iel := flat_map (fun c => replicate n_f c) (seq 0 n_el) in
  let ies := flat_map (fun _ => seq 0 n_f) (seq 0 n_el) in
  offs_g ← take_ (cconn_offsets env) gcells;
  let aux := map (fun o => map (fun f => (o + f)%nat) (seq 0 n_f)) offs_g in
  indices ← take2 (cconn_indices env) aux;
  facets_of_cells ← take_ remap (concat indices);
  ori ← take_ (cmesh_oris env) (concat aux);
  perms ← take_ facet_perms ori;
  let gdofs :=
    add_offset offset (expand_nodes_to_dofs facets_of_cells n_dof_per_facet) in
  iep ← take_ facet_desc ies;
  rhs ← take_rows gdofs perms;
  econn' ← assign_rows econn iel iep rhs;
  let n_dof := (n_dof_per_facet * length facets)%nat in
  _ ← assert_ (n_dof =? length all_dofs * n_dof_per_facet)%nat;
  Ok (econn', (n_dof, all_dofs, remap)).

(** ** [_setup_edge_dofs], [_setup_face_dofs], [_setup_bubble_dofs] *)

(** The node descriptor of the field: the columns of the connectivity that
    hold the nodes of each edge and of each face, and the columns of the
    bubble nodes; [None] where the approximation has no such nodes. *)
Record node_desc_t : Type := {
  nd_edge : option (list (list nat));
  nd_face : option (list (list nat));
  nd_bubble : option (list nat)
}.

(** The attributes of the field the DOF setup reads. *)
Record field : Type := {
  node_desc : node_desc_t;
  edge_dof_perms : list (list nat);
  face_dof_perms : list (list nat);
  n_vertex_dof : nat;
  n_edge_dof : nat;
  n_face_dof : nat;
  shape_tdim : nat;                (* self.domain.shape.tdim *)
  facet_envs : nat -> facet_env;   (* region and topology, by facet dimension *)
  region_get_cells : list nat;     (* self.region.get_cells() *)
  cmesh_n_el : nat;                (* self.domain.cmesh.n_el *)
  ap_econn : list (list Z);        (* self.ap.econn *)
  econn_n_ep : nat                 (* self.ap.econn.shape[1] *)
}.

(** What the setup functions hand back, [(n_dof, all_dofs, remap)], next to
    the connectivity after the call. *)
Definition dofs_out : Type :=
  (list (list Z) * (nat * option (list (list Z)) * option (list Z)))%type.

Definition some_out
    (r : list (list Z) * (nat * list (list Z) * list Z)) : dofs_out :=
  let '(econn, (n_dof, all_dofs, remap)) := r in
  (econn, (n_dof, Some all_dofs, Some remap)).

(** Setup edge DOF connectivity. *)
Definition _setup_edge_dofs (fld : field) : result dofs_out :=
  match nd_edge (node_desc fld) with
  | None => Ok (ap_econn fld, (O, None, None))
  | Some edge =>
      r ← _setup_facet_dofs (facet_envs fld 1) (ap_econn fld) 1 edge
            (edge_dof_perms fld) (Z.of_nat (n_vertex_dof fld));
      Ok (some_out r)
  end.

(** Setup face DOF connectivity. *)
Definition _setup_face_dofs (fld : field) : result dofs_out :=
  match nd_face (node_desc fld) with
  | None => Ok (ap_econn fld, (O, None, None))
  | Some face =>
      let dim := (shape_tdim fld - 1)%nat in
      r ← _setup_facet_dofs (facet_envs fld dim) (ap_econn fld) dim face
            (face_dof_perms fld)
            (Z.of_nat (n_vertex_dof fld) + Z.of_nat (n_edge_dof fld));
      Ok (some_out r)
  end.

(** [a.shape = (n_rows, n_cols)] on a flat array of [n_rows * n_cols]
    entries. *)
Fixpoint reshape {A : Type} (n_rows n_cols : nat) (a : list A)
  : list (list A) :=
  match n_rows with
  | O => []
  | S n_rows' => take n_cols a :: reshape n_rows' n_cols (drop n_cols a)
  end.

(** NumPy broadcasting along one axis: an axis of the right length is
    taken as it is, an axis of length one is repeated. *)
Definition broadcast_to {A : Type} (n : nat) (a : list A) : result (list A) :=
  if (length a =? n)%nat then Ok a
  else match a with
       | [x] => Ok (replicate n x)
       | _ => Raise ValueError
       end.

(** [row[iep:] = vals] on one row. *)
Definition assign_tail (iep : nat) (row vals : list Z) : result (list Z) :=
  vals' ← broadcast_to (length row - iep) vals;
  Ok (take iep row ++ vals').

Fixpoint assign_tails (iep : nat) (econn vals : list (list Z))
  : result (list (list Z)) :=
  match econn, vals with
  | [], [] => Ok []
  | row :: econn', v :: vals' =>
      row' ← assign_tail iep row v;
      rest ← assign_tails iep econn' vals';
      Ok (row' :: rest)
  | _, _ => Raise ValueError
  end.

(** An axis of length [src] fits an axis of length [tgt]. *)
Definition broadcastable (src tgt : nat) : bool :=
  (src =? tgt)%nat || (src =? 1)%nat.

(** [econn[:, iep:] = all_dofs], where [econn] has [n_ep] columns and
    [all_dofs] has the shape [(n_cell, n_dof_per_cell)]: the shapes are
    checked, then every row gets its values. *)
Definition assign_columns_from (n_ep iep : nat) (econn : list (list Z))
    (n_cell n_dof_per_cell : nat) (all_dofs : list (list Z))
  : result (list (list Z)) :=
  _ ← (if broadcastable n_cell (length econn)
          && broadcastable n_dof_per_cell (n_ep - iep)
       then Ok tt else Raise ValueError);
  rows ← broadcast_to (length econn) all_dofs;
  assign_tails iep econn rows.

(** Setup bubble DOF connectivity. *)
Definition _setup_bubble_dofs (fld : field) : result dofs_out :=
  match nd_bubble (node_desc fld) with
  | None => Ok (ap_econn fld, (O, None, None))
  | Some bubble =>
      let offset := (n_vertex_dof fld + n_edge_dof fld + n_face_dof fld)%nat in
      let n_dof_per_cell := length bubble in
      let ii := region_get_cells fld in
      remap ← prepare_remap ii (cmesh_n_el fld);
      let n_cell := length ii in
      let n_dof := (n_dof_per_cell * n_cell)%nat in
      let all_dofs :=
        reshape n_cell n_dof_per_cell
                (arange_int32 (Z.of_nat offset) n_dof) in
      iep ← getitem bubble 0;
      econn' ← assign_columns_from (econn_n_ep fld) iep (ap_econn fld)
                 n_cell n_dof_per_cell all_dofs;
      Ok (econn', (n_dof, Some all_dofs, Some remap))
  end.

(** ** [set_dofs] *)

(** The argument [fun]: a callable (which returns the values or raises), a
    scalar, an [ndarray] of any number of dimensions (its shape, and its
    entries in row-major order), or a value of any other type. *)
Inductive dofs_value : Type :=
| ValCallable (f : list (list float64) -> result (list float64))
| ValScalar (x : float64)
| ValArray (shape : list nat) (data : list float64)
| ValOther.

(** [len(a)] of an array of the given shape: the length of its first axis;
    an array without axes (0-d) has no length. *)
Definition len (shape : list nat) : result nat :=
  match shape with
  | [] => Raise TypeError
  | n :: _ => Ok n
  end.

(** [nm.repeat(a, n)] (no axis given): every entry of the flattened array
    [n] times, in order. *)
Definition repeat_each {A : Type} (a : list A) (n : nat) : list A :=
  flat_map (replicate n) a.

(** Sorted array without repetitions of the entries of [l], as [nm.unique]
    gives it. *)
Definition unique (l : list nat) : list nat :=
  List.filter (fun x => bool_decide (x ∈ l)) (seq 0 (S (list_max l))).

(** [nm.hstack(aux)] of one-dimensional arrays: their concatenation; an
    empty sequence of arrays is refused with a [ValueError]. *)
Definition hstack {A : Type} (aux : list (list A)) : result (list A) :=
  match aux with
  | [] => Raise ValueError
  | _ => Ok (concat aux)
  end.

(** Set the values of DOFs in a given region using a function of space
    coordinates or value [fun].  [get_dofs_in_region] and [get_coor] are
    methods of the base class that are handed in. *)
Definition set_dofs {R : Type} (self_region : R) (n_components : nat)
    (get_dofs_in_region : R -> list (list nat))
    (get_coor : list nat -> list (list float64))
    (fun_ : dofs_value) (region : option R) (dpn : option nat)
  : result (list nat * list float64) :=
  let region := default self_region region in
  let dpn := default n_components dpn in
  let aux := get_dofs_in_region region in
  stacked ← hstack aux;
  let nods := unique stacked in
  vals ← match fun_ with
         | ValCallable f => f (get_coor nods)
         | ValScalar x => Ok (repeat_each [x] (length nods * dpn))
         | ValArray shape data =>
             n ← len shape;
             _ ← assert_ (n =? dpn)%nat;
             Ok (repeat_each data (length nods))
         | ValOther => Raise ValueError
         end;
  Ok (nods, vals).

(** ** [H1DiscontinuousField._setup_global_base] *)

(** The attributes [_setup_global_base] assigns. *)
Record global_base : Type := {
  gb_econn : list (list Z);
  gb_n_nod : nat;
  gb_n_vertex_dof : nat;
  gb_n_edge_dof : nat;
  gb_n_face_dof : nat;
  gb_n_bubble_dof : nat;
  gb_bubble_dofs : list (list Z)
}.

(** Setup global DOF/base function indices and connectivity of the field.
    [econn] is the array [_init_econn] has allocated, [n_ep] its second
    dimension. *)
Definition _setup_global_base (econn : list (list Z)) (n_ep : nat)
  : global_base :=
  let n_dof := (length econn * n_ep)%nat in
  let all_dofs := reshape (length econn) n_ep (arange_int32 0 n_dof) in
  {| gb_econn := all_dofs;
     gb_n_nod := n_dof;
     gb_n_vertex_dof := O;
     gb_n_edge_dof := O;
     gb_n_face_dof := O;
     gb_n_bubble_dof := n_dof;
     gb_bubble_dofs := all_dofs |}.

End FieldsNodal.

(** * [refine_hanging.py] *)

Module RefineHanging.

(** Rows = facets of the reference cell, columns = [(sub_cell_i, local
    facet_i)]. *)
Definition refine_edges_2_4 : list (list (nat * nat)) :=
  [ [(0, 0); (1, 3)];
    [(1, 0); (2, 3)];
    [(2, 0); (3, 3)];
    [(3, 0); (0, 3)] ]%nat.

Definition refine_faces_3_8 : list (list (nat * nat)) :=
  [ [(0, 0); (1, 0); (2, 0); (3, 0)];
    [(0, 1); (3, 2); (4, 2); (7, 1)];
    [(0, 2); (1, 1); (4, 1); (5, 2)];
    [(4, 0); (5, 0); (6, 0); (7, 0)];
    [(1, 2); (2, 1); (5, 1); (6, 2)];
    [(2, 2); (3, 1); (6, 1); (7, 2)] ]%nat.

Definition refine_edges_3_8 : list (list (nat * nat)) :=
  [ [(0, 0); (1, 3)];
    [(1, 0); (2, 3)];
    [(2, 0); (3, 3)];
    [(3, 0); (0, 3)];
    [(4, 3); (5, 0)];
    [(5, 3); (6, 0)];
    [(6, 3); (7, 0)];
    [(7, 3); (4, 0)] ]%nat.

(** ** Meshes, domains, regions *)

(** A mesh with one cell group: [_get_io_data()] without the vertex
    groups. *)
Record mesh : Type := {
  coors : list (list float64);
  conn : list (list nat);        (* get_conn(descs[0]) *)
  mat_ids : list Z;
  desc : string                  (* descs[0] *)
}.

(** A domain: the mesh and the cell-to-facet connectivity of its [cmesh]
    (the facets of each cell, by local facet number). *)
Record domain : Type := {
  dmesh : mesh;
  cell_facets : list (list nat)
}.

(** [domain.shape.n_el] *)
Definition n_el (d : domain) : nat := length (conn (dmesh d)).

Record region : Type := {
  rcells : list nat;
  rfacets : list nat
}.

(** Sorted array without repetitions of the entries of [l], as [nm.unique]
    gives it. *)
Definition unique (l : list nat) : list nat :=
  List.filter (fun x => bool_decide (x ∈ l)) (seq 0 (S (list_max l))).

(** [nm.intersect1d(a, b)] *)
Definition intersect1d (a b : list nat) : list nat :=
  List.filter (fun x => bool_decide (x ∈ b)) (unique a).

(** Modelled from the spec: [create_region] with a ['cells by function']
    selector is not among the sources.  A region is "an ordered set of cell
    or facet indices produced by a predicate"; its cells are the cells the
    selector function returns and its facets are the facets of those
    cells. *)
Definition create_region (d : domain) (cells : list nat) : result region :=
  fs ← take_ (cell_facets d) cells;
  Ok {| rcells := cells; rfacets := unique (concat fs) |}.

(** Modelled from the spec: [cmesh.get_incident] is compiled code that is
    not among the sources.  For each facet in turn, the cells incident to
    it ("its two incident cells") in ascending order, concatenated, with the
    offsets of the groups. *)
Definition incident_cells (d : domain) (f : nat) : list nat :=
  List.filter (fun c => match cell_facets d !! c with
                   | Some fs => bool_decide (f ∈ fs)
                   | None => false
                   end) (seq 0 (length (cell_facets d))).

Fixpoint offsets_from (o : nat) (groups : list (list nat)) : list nat :=
  match groups with
  | [] => [o]
  | g :: groups' => o :: offsets_from (o + length g) groups'
  end.

Definition get_incident (d : domain) (facets : list nat)
  : list nat * list nat :=
  let groups := map (incident_cells d) facets in
  (concat groups, offsets_from 0 groups).

(** First position of [x] in [l]. *)
Fixpoint index_of (x : nat) (l : list nat) : result nat :=
  match l with
  | [] => Raise ValueError
  | y :: l' => if (x =? y)%nat then Ok O
               else (i ← index_of x l'; Ok (S i))
  end.

(** [a[lo:hi]] *)
Definition slice {A : Type} (a : list A) (lo hi : nat) : list A :=
  take (hi - lo) (drop lo a).

(** Modelled from the spec: [cmesh.get_local_ids] is compiled code that is
    not among the sources.  For each facet [facets[i]] and each of its
    incident cells [cells[offs[i]:offs[i+1]]], the "local facet index" of
    the facet in that cell. *)
Fixpoint get_local_ids (d : domain) (facets : list nat) (cells : list nat)
    (offs : list nat) : result (list nat) :=
  match facets, offs with
  | [], _ => Ok []
  | f :: facets', lo :: ((hi :: _) as offs') =>
      ids ← mapM (M := result) (fun c => fs ← getitem (cell_facets d) c; index_of f fs)
                 (slice cells lo hi);
      rest ← get_local_ids d facets' cells offs';
      Ok (ids ++ rest)
  | _ :: _, _ => Raise IndexError
  end.

(** [nm.diff(offs)] *)
Fixpoint diff (offs : list nat) : list Z :=
  match offs with
  | a :: ((b :: _) as offs') => (Z.of_nat b - Z.of_nat a) :: diff offs'
  | _ => []
  end.

(** [a.reshape((-1, 2))] *)
Fixpoint reshape2 (a : list nat) : result (list (nat * nat)) :=
  match a with
  | [] => Ok []
  | x :: y :: a' => r ← reshape2 a'; Ok ((x, y) :: r)
  | [_] => Raise ValueError
  end.

(** [nm.where(refine_flag[cells], x[:, :1], x[:, 1:])] on two-column arrays:
    the condition is read at both cells of a row, the values are the first
    and the second column of [x], broadcast over the row. *)
Fixpoint where_flag (refine_flag : list bool) (cells x : list (nat * nat))
  : result (list (nat * nat)) :=
  match cells, x with
  | [], [] => Ok []
  | (c0, c1) :: cells', (x0, x1) :: x' =>
      f0 ← getitem refine_flag c0;
      f1 ← getitem refine_flag c1;
      r ← where_flag refine_flag cells' x';
      Ok ((if f0 : bool then x0 else x1, if f1 : bool then x0 else x1) :: r)
  | _, _ => Raise ValueError
  end.

(** [nm.c_[a, b]] with a 1D left operand and two columns on the right, and
    with two columns on the left and a 1D right operand. *)
Fixpoint c_left (a : list nat) (b : list (nat * nat))
  : result (list (nat * nat * nat)) :=
  match a, b with
  | [], [] => Ok []
  | x :: a', (y, z) :: b' => r ← c_left a' b'; Ok ((x, y, z) :: r)
  | _, _ => Raise ValueError
  end.

Fixpoint c_right (a : list (nat * nat)) (b : list nat)
  : result (list (nat * nat * nat)) :=
  match a, b with
  | [], [] => Ok []
  | (x, y) :: a', z :: b' => r ← c_right a' b'; Ok ((x, y, z) :: r)
  | _, _ => Raise ValueError
  end.

(** ** [find_level_interface]

    Returns [(facets, cells, region0, region1)]:
    - a row of [facets] is (global facet, local facet w.r.t. [cells[:, 0]],
      local facet w.r.t. [cells[:, 1]]);
    - a row of [cells] is (cell to refine, its facet sharing neighbour, the
      neighbour w.r.t. the locally refined mesh). *)
Definition find_level_interface (d : domain) (refine_flag : list bool)
  : result (list (nat * nat * nat) * list (nat * nat * nat)
            * option region * option region) :=
  if negb (existsb id refine_flag) then Ok ([], [], None, None)
  else
    region0 ← create_region d (nonzero (map negb refine_flag));
    region1 ← create_region d (nonzero refine_flag);
    let facets := intersect1d (rfacets region0) (rfacets region1) in
    let '(cells, offs) := get_incident d facets in
    _ ← assert_ (forallb (Z.eqb 2) (diff offs));
    ii ← get_local_ids d facets cells offs;
    ii ← reshape2 ii;
    cells ← reshape2 cells;
    ii ← where_flag refine_flag cells ii;
    cells ← where_flag refine_flag cells cells;
    facets ← c_left facets ii;
    (* Indices of non-refined cells in the level-1 mesh. *)
    let ii := map (fun c => searchsorted (rcells region0) c.2) cells in
    cells ← c_right cells ii;
    Ok (facets, cells, Some region0, Some region1).

(** ** [refine_region] *)

(** The collaborators of [refine_region] and [refine] that are not among
    the sources, as the caller supplies them. *)
Record externals : Type := {
  (* the mesh of [FEDomain('d', Mesh.from_region(region1, mesh0)).refine()] *)
  refine_submesh : region -> mesh -> mesh;
  (* the cell-to-facet connectivity the cmesh of a new domain derives *)
  cmesh_facets : mesh -> list (list nat)
}.

(** Modelled from the spec: the class [FEDomain] is not among the sources.
    [FEDomain('d', mesh)] is the domain of "a new mesh": it holds the mesh it
    is built from, next to the facet numbering its cmesh derives. *)
Definition FEDomain (ext : externals) (m : mesh) : domain :=
  {| dmesh := m; cell_facets := cmesh_facets ext m |}.

(** Arithmetic of dtype [uint32] wraps around. *)
Definition wrap32 (z : Z) : Z := z mod 2 ^ 32.

(** Row [i] of [region0.shape.n_cell + aux], where
    [aux = nm.arange(4 * n, dtype=nm.uint32).reshape((-1, 4))]. *)
Definition sub_cells_row (n_cell0 i : nat) : list Z :=
  map (fun k => wrap32 (Z.of_nat n_cell0 + wrap32 (Z.of_nat (4 * i + k))))
      (seq 0 4).

(** Coarse cell [sub_cells[ii, 0]] in mesh0 is split into
    [sub_cells[ii, 1:]] in mesh1: a row of [sub_cells] is the pair of the
    first column and of the remaining four. *)
Definition refine_region (ext : externals) (domain0 : domain)
    (region0 region1 : option region)
  : result (domain * option (list (nat * list Z))) :=
  match region1 with
  | None => Ok (domain0, None)
  | Some region1 =>
      let mesh0 := dmesh domain0 in
      let mesh1r := refine_submesh ext region1 mesh0 in
      (* [region0] is a region whenever [region1] is one *)
      region0 ← (match region0 with
                 | Some r => Ok r
                 | None => Raise AttributeError
                 end);
      let n_cell0 := length (rcells region0) in
      let sub_cells :=
        imap (fun i c => (c, sub_cells_row n_cell0 i)) (rcells region1) in
      conn0c ← take_ (conn mesh0) (rcells region0);
      mat0c ← take_ (mat_ids mesh0) (rcells region0);
      let mesh := {| coors := coors mesh1r;
                     conn := conn0c ++ conn mesh1r;
                     mat_ids := mat0c ++ mat_ids mesh1r;
                     desc := desc mesh1r |} in
      Ok (FEDomain ext mesh, Some sub_cells)
  end.

(** ** [find_facet_substitutions]

    sub = [coarse cell, coarse facet, fine1 cell, fine1 facet, fine2 cell,
           fine2 facet] *)
Fixpoint find_facet_substitutions_loop (ii : nat)
    (facets : list (nat * nat * nat)) (cells : list (nat * nat * nat))
    (sub_cells : option (list (nat * list Z)))
    (refine_facets : list (list (nat * nat))) : result (list (list Z)) :=
  match facets with
  | [] => Ok []
  | fac :: facets' =>
      row ← getitem cells ii;
      let fine := row.1.1 in
      let coarse := row.2 in
      sub_cells' ← (match sub_cells with
                    | Some s => Ok s
                    | None => Raise TypeError
                    end);
      let isub := searchsorted (map fst sub_cells') fine in
      srow ← getitem sub_cells' isub;
      let refined := srow.2 in
      rf ← getitem refine_facets fac.1.2;
      used ← take_ refined (map fst rf);
      let fused := map snd rf in
      let master := [Z.of_nat coarse; Z.of_nat fac.2] in
      let slave := zip_with (fun u f => [u; Z.of_nat f]) used fused in
      let sub := master ++ concat slave in
      subs ← find_facet_substitutions_loop (S ii) facets' cells sub_cells
                                           refine_facets;
      Ok (sub :: subs)
  end.

Definition find_facet_substitutions (facets cells : list (nat * nat * nat))
    (sub_cells : option (list (nat * list Z)))
    (refine_facets : list (list (nat * nat))) : result (list (list Z)) :=
  find_facet_substitutions_loop 0 facets cells sub_cells refine_facets.

(** A Python call with positional arguments: the values passed, in order. *)
Inductive pyarg : Type :=
| ArgRows (a : list (nat * nat * nat))
| ArgSubCells (s : option (list (nat * list Z)))
| ArgTable (t : list (list (nat * nat))).

(** Calling [find_facet_substitutions]: the function has four positional
    parameters and no defaults, any other number of arguments is a
    [TypeError]. *)
Definition call_find_facet_substitutions (args : list pyarg)
  : result (list (list Z)) :=
  match args with
  | [ArgRows facets; ArgRows cells; ArgSubCells sub_cells;
     ArgTable refine_facets] =>
      find_facet_substitutions facets cells sub_cells refine_facets
  | _ => Raise TypeError
  end.

(** ** [refine] *)

(** [nm.cumsum(a)] *)
Fixpoint cumsum_from (acc : Z) (a : list Z) : list Z :=
  match a with
  | [] => []
  | x :: a' => (acc + x) :: cumsum_from (acc + x) a'
  end.

Definition cumsum (a : list Z) : list Z := cumsum_from 0 a.

(** [mods[refine > 0] = -1]: a boolean mask selects the positions of its
    true entries (the mask is shorter than [mods] here, which the NumPy the
    module was written for accepts). *)
Fixpoint set_at (mods : list Z) (idx : list nat) (v : Z) : result (list Z) :=
  match idx with
  | [] => Ok mods
  | i :: idx' => mods' ← setitem mods i v; set_at mods' idx' v
  end.

(** One row of [gsubs[:, [0, 2, 4]] += mods[gsubs[:, [0, 2, 4]]]]. *)
Definition shift_row (mods : list Z) (row : list Z) : result (list Z) :=
  x0 ← getitem row 0;
  x2 ← getitem row 2;
  x4 ← getitem row 4;
  m0 ← getitemZ mods x0;
  m2 ← getitemZ mods x2;
  m4 ← getitemZ mods x4;
  Ok (<[4%nat := x4 + m4]> (<[2%nat := x2 + m2]> (<[0%nat := x0 + m0]> row))).

(** [nm.r_[a, b]] on 2D arrays: the rows of [b] after the rows of [a]; the
    row lengths have to agree. *)
Definition r_ (a b : list (list Z)) : result (list (list Z)) :=
  match a, b with
  | ra :: _, rb :: _ =>
      if (length ra =? length rb)%nat then Ok (a ++ b) else Raise ValueError
  | _, _ => Ok (a ++ b)
  end.

(** The end of [refine]: merging the substitutions [gsubs1] of this pass
    into the accumulated [gsubs]. *)
Definition refine_accumulate (n_el1 : nat) (refine_flag : list bool)
    (gsubs : option (list (list Z))) (gsubs1 : list (list Z))
  : result (option (list (list Z))) :=
  match gsubs with
  | None => Ok (if (0 <? length gsubs1)%nat then Some gsubs1 else None)
  | Some gsubs0 =>
      if (0 <? length gsubs1)%nat then
        let mods := replicate (n_el1 + 1) 0 in
        mods ← set_at mods (nonzero refine_flag) (-1);
        let mods := cumsum mods in
        gsubs0 ← mapM (M := result) (shift_row mods) gsubs0;
        gsubs' ← r_ gsubs0 gsubs1;
        Ok (Some gsubs')
      else Ok (Some gsubs0)
  end.

(** [a == b] on 2D arrays followed by [.all()]. *)
Definition all_eq (a b : list (list nat)) : bool := bool_decide (a = b).

(** The block under [if facets.shape[0] > 0:]: the arrays that are printed
    are evaluated, then the connectivity of the coarse neighbours is
    asserted to be the same in both meshes. *)
Definition check_conn (domain0 domain1 : domain)
    (cells : list (nat * nat * nat))
    (sub_cells : option (list (nat * list Z))) : result unit :=
  let conn0 := conn (dmesh domain0) in
  let conn1 := conn (dmesh domain1) in
  sc ← (match sub_cells with
        | Some s => Ok s
        | None => Raise TypeError
        end);
  (* print conn1[sub_cells[:, 1:]] *)
  _ ← mapM (M := result)
        (fun r => mapM (M := result) (getitemZ conn1) r.2) sc;
  (* print conn0[sub_cells[:, 0]] *)
  _ ← take_ conn0 (map fst sc);
  (* print conn0[cells[:, 1]]; print conn1[cells[:, 2]] *)
  c0 ← take_ conn0 (map (fun r => r.1.2) cells);
  c1 ← take_ conn1 (map (fun r => r.2) cells);
  assert_ (all_eq c0 c1).

Definition refine (ext : externals) (domain0 : domain)
    (refine_flag : list bool) (gsubs : option (list (list Z)))
  : result (domain * option (list (list Z))) :=
  '(facets, cells, region0, region1) ← find_level_interface domain0 refine_flag;
  '(domain1, sub_cells) ← refine_region ext domain0 region0 region1;
  _ ← (if (0 <? length facets)%nat
       then check_conn domain0 domain1 cells sub_cells
       else Ok tt);
  let desc0 := desc (dmesh domain0) in
  _ ← (if String.eqb desc0 "2_4" then
         call_find_facet_substitutions
           [ArgRows facets; ArgRows cells; ArgSubCells sub_cells;
            ArgTable refine_edges_2_4]
       else Ok []);
  gsubs1 ← call_find_facet_substitutions
             [ArgRows facets; ArgRows cells; ArgSubCells sub_cells];
  gsubs' ← refine_accumulate (n_el domain1) refine_flag gsubs gsubs1;
  Ok (domain1, gsubs').

(** ** [eval_basis_transform] *)


(** [nm.eye(n)] *)
Definition eye (n : nat) : list (list float64) :=
  map (fun i => map (fun j => if (i =? j)%nat then f_one else f_zero)
                    (seq 0 n)) (seq 0 n).

(** [a[i] = x] for a signed index [i]. *)
Definition setitemZ {A : Type} (a : list A) (i : Z) (x : A) : result (list A) :=
  if 0 <=? i then setitem a (Z.to_nat i) x
  else if 0 <=? Z.of_nat (length a) + i
       then setitem a (Z.to_nat (Z.of_nat (length a) + i)) x
       else Raise IndexError.

(** What the field and the two auxiliary reference-cell fields contribute:
    none of [Field], [FEDomain.refine] and [get_base] is among the
    sources. *)
Record basis_env : Type := {
  econn_shape : nat * nat;               (* field.econn.shape *)
  efaces : list (list nat);              (* rffield.efaces *)
  (* [rcfield.get_base('v', False, integral)], shape (2 n_fdof, 1, n_ep) *)
  get_base : list (list (list float64))
}.

(** [bf[rows, 0, cols]] *)
Definition base_block (bf : list (list (list float64))) (cols : list nat)
  : result (list (list float64)) :=
  mapM (M := result) (fun row => r0 ← getitem row 0; take_ r0 cols) bf.

(** One row [p] of [mtx[ix, iy] = b] with [ix, iy = nm.meshgrid(a, a)]:
    [ix[p, q] = a[q]] and [iy[p, q] = a[p]], so [mtx[a[q], a[p]] = b[p, q]]. *)
Fixpoint assign_grid_row (mtx : list (list float64)) (ap : nat)
    (a : list nat) (brow : list float64) : result (list (list float64)) :=
  match a, brow with
  | [], [] => Ok mtx
  | aq :: a', v :: brow' =>
      row ← getitem mtx aq;
      row' ← setitem row ap v;
      mtx' ← setitem mtx aq row';
      assign_grid_row mtx' ap a' brow'
  | _, _ => Raise ValueError
  end.

Fixpoint assign_grid_rows (mtx : list (list float64)) (a_outer a : list nat)
    (b : list (list float64)) : result (list (list float64)) :=
  match a_outer, b with
  | [], [] => Ok mtx
  | ap :: a_outer', brow :: b' =>
      mtx' ← assign_grid_row mtx ap a brow;
      assign_grid_rows mtx' a_outer' a b'
  | _, _ => Raise ValueError
  end.

(** [mtx[ix, iy] = b] where [ix, iy = nm.meshgrid(a, a)]. *)
Definition assign_grid (mtx : list (list float64)) (a : list nat)
    (b : list (list float64)) : result (list (list float64)) :=
  assign_grid_rows mtx a a b.

(** [mtx = transform[sub[c]]; ix, iy = nm.meshgrid(ef[sub[f]], ef[sub[f]]);
     mtx[ix, iy] = b]: [mtx] is a view, the write lands in [transform]. *)
Definition substitute (ef : list (list nat)) (b : list (list float64))
    (sub : list Z) (c f : nat) (transform : list (list (list float64)))
  : result (list (list (list float64))) :=
  sc ← getitem sub c;
  mtx ← getitemZ transform sc;
  sf ← getitem sub f;
  a ← getitemZ ef sf;
  mtx' ← assign_grid mtx a b;
  setitemZ transform sc mtx'.

Fixpoint substitute_all (ef : list (list nat)) (b0 b1 : list (list float64))
    (gsubs : list (list Z)) (transform : list (list (list float64)))
  : result (list (list (list float64))) :=
  match gsubs with
  | [] => Ok transform
  | sub :: gsubs' =>
      transform ← substitute ef b0 sub 2 3 transform;
      transform ← substitute ef b1 sub 4 5 transform;
      substitute_all ef b0 b1 gsubs' transform
  end.

(** [mtx.sum(0)] of one matrix, which is what [transform.sum(1)] computes
    for each cell: the rows are added up entry by entry. *)
Definition sum_axis (n_col : nat) (mtx : list (list float64)) : list float64 :=
  match mtx with
  | [] => replicate n_col f_zero
  | r :: rs => foldl (zip_with f_add) r rs
  end.

(** [nm.abs(s - 1.0) < 1e-15] *)
Definition close_to_one (s : float64) : bool :=
  SFltb (SFabs (f_sub s f_one)) f_1e_15.

(** [(nm.abs(transform.sum(1) - 1.0) < 1e-15).all()] *)
Definition sums_ok (n_col : nat) (transform : list (list (list float64)))
  : bool :=
  forallb (fun mtx => forallb close_to_one (sum_axis n_col mtx)) transform.

Definition eval_basis_transform (env : basis_env)
    (gsubs : option (list (list Z))) : result (list (list (list float64))) :=
  let ef := efaces env in
  (* subs = [0, 0, 0, 0, 1, 3] *)
  ef0 ← getitem ef 0;
  _ ← getitem ef 3;
  (* n_fdof = c0.shape[0], c0 = fcoors[rffield.econn[subs[2], ef[subs[3]]]] *)
  let n_fdof := length ef0 in
  let bf := get_base env in
  b0 ← base_block (take n_fdof bf) ef0;
  b1 ← base_block (drop n_fdof bf) ef0;
  let '(n_cell, n_ep) := econn_shape env in
  let transform := replicate n_cell (eye n_ep) in
  match gsubs with
  | None => Ok transform
  | Some gsubs =>
      transform ← substitute_all ef b0 b1 gsubs transform;
      _ ← assert_ (sums_ok n_ep transform);
      Ok transform
  end.

End RefineHanging.

(** * Vocabulary of the statements and sample data

    The definitions below are not part of the sources: they name what the
    properties talk about, and give the concrete inputs the properties are
    exercised on. *)

Module FieldsNodalSpec.
Import FieldsNodal.

(** ** Rows of the evaluated values *)

(** Rows of [vals], whatever the mode. *)
Inductive row : Type :=
| Row2 (r : list float64)
| Row3 (r : list (list float64)).

Definition nd_row (a : ndarray) (i : nat) : option row :=
  match a with
  | Arr2 a => Row2 <$> a !! i
  | Arr3 a => Row3 <$> a !! i
  end.

Definition row_entries (r : row) : list float64 :=
  match r with
  | Row2 r => r
  | Row3 r => concat r
  end.

(** The row of the same shape whose entries are all NaN: what a row is
    after it has been overwritten with the undefined marker. *)
Definition nan_row (r : row) : row :=
  match r with
  | Row2 r => Row2 (map (fun _ => nan) r)
  | Row3 r => Row3 (map (map (fun _ => nan)) r)
  end.

Definition nd_length (a : ndarray) : nat :=
  match a with
  | Arr2 a => length a
  | Arr3 a => length a
  end.

(** The values the interpolation routine produced, before any masking. *)
Definition interpolated (evaluate_in_rc : Z -> list (list (list float64)))
    (mode : string) : ndarray :=
  if String.eqb mode "val" then Arr2 (map (@concat float64) (evaluate_in_rc 0))
  else Arr3 (evaluate_in_rc 1).

(** The optional members of the returned tuple. *)
Definition ret_ref_coors_of (r : evaluate_at_ret)
  : option (list (list float64)) :=
  match r with
  | RetValsRefCellsStatus _ rc _ _ => Some rc
  | _ => None
  end.

Definition ret_cells_of (r : evaluate_at_ret) : option (list Z) :=
  match r with
  | RetValsRefCellsStatus _ _ c _ | RetValsCellsStatus _ c _
  | RetValsCells _ c => Some c
  | RetVals _ => None
  end.

Definition ret_status_of (r : evaluate_at_ret) : option (list Z) :=
  match r with
  | RetValsRefCellsStatus _ _ _ s | RetValsCellsStatus _ _ s => Some s
  | _ => None
  end.

Definition located_sample : ref_coors_out :=
  {| ref_coors := [[f_zero]; [f_one]; [f_half]];
     cells := [0; 0; 0];
     status := [0; 2; 1] |}.

Definition interp_sample (cmode : Z) : list (list (list float64)) :=
  [[[f_half]]; [[f_one]]; [[f_one]]].

(** Three points, two components, in the plane: the values have the shape
    (3, 2, 1) and the gradients the shape (3, 2, 2). *)
Definition interp_sample2 (cmode : Z) : list (list (list float64)) :=
  if cmode =? 0
  then [[[f_half]; [f_one]]; [[f_one]; [f_zero]]; [[f_one]; [f_half]]]
  else [[[f_half; f_zero]; [f_one; f_one]];
        [[f_one; f_half]; [f_zero; f_one]];
        [[f_one; f_one]; [f_half; f_half]]].

(** ** DOF ids *)

(** The consecutive integers [start, start + 1, ..., start + n - 1]. *)
Definition arange (start : Z) (n : nat) : list Z :=
  map (fun i => start + Z.of_nat i) (seq 0 n).

(** ** Slots of the element connectivity *)

(** [econn[c, col]], when both indices are in range. *)
Definition lookup2 (econn : list (list Z)) (c col : nat) : option Z :=
  econn !! c ≫= (fun row => row !! col).

(** The number of facets of dimension [dim] of the reference cell. *)
Definition n_facets (env : facet_env) (dim : nat) : nat :=
  if (dim =? 1)%nat then gel_n_edges env else gel_n_faces env.

(** Slot [j] of local facet [f] of the region cell [c] stands for node [k]
    (in the facet's own numbering, which the permutation selected by the
    orientation of the facet in this cell gives) of the mesh facet [g], and
    sits in column [col] of the connectivity. *)
Definition facet_slot (env : facet_env) (facet_desc facet_perms : list (list nat))
    (c f j : nat) : option (nat * nat * nat) :=
  gc ← region_cells env !! c;
  o ← cconn_offsets env !! gc;
  g ← cconn_indices env !! (o + f)%nat;
  ori ← cmesh_oris env !! (o + f)%nat;
  p ← facet_perms !! ori;
  k ← p !! j;
  d ← facet_desc !! f;
  col ← d !! j;
  Some (g, k, col).

(** Two quadrilaterals side by side: cell 0 has the edges 0, 1, 2, 3, cell 1
    the edges 4, 5, 6, 1; the shared edge 1 is seen reversed from cell 1.
    Two DOFs per edge (order 3), after the four vertex columns. *)
Definition two_quads : facet_env :=
  {| region_entities := [0; 1; 2; 3; 4; 5; 6]%nat;
     cmesh_num := 7%nat;
     cconn_offsets := [0; 4; 8]%nat;
     cconn_indices := [0; 1; 2; 3; 4; 5; 6; 1]%nat;
     cmesh_oris := [0; 0; 0; 0; 0; 0; 0; 1]%nat;
     gel_n_edges := 4%nat;
     gel_n_faces := 0%nat;
     region_cells := [0; 1]%nat |}.

Definition two_quads_desc : list (list nat) :=
  [[4; 5]; [6; 7]; [8; 9]; [10; 11]]%nat.

Definition two_quads_perms : list (list nat) := [[0; 1]; [1; 0]]%nat.

Definition two_quads_econn : list (list Z) :=
  [[0; 1; 4; 3; 6; 7; 8; 9; 10; 11; 12; 13];
   [1; 2; 5; 4; 14; 15; 16; 17; 18; 19; 9; 8]].

(** ** DOF tiers *)

(** The DOF ids of a tier in the order of [all_dofs], none for a tier that
    is absent. *)
Definition flat_dofs (all_dofs : option (list (list Z))) : list Z :=
  match all_dofs with
  | Some a => concat a
  | None => []
  end.

(** The field of order 3 on the two quadrilaterals: four vertex, eight edge
    and four bubble columns, six vertex DOFs; the connectivity and the
    counts of the edge and face DOFs are those of the stage of the setup. *)
Definition two_quads_field (econn : list (list Z)) (n_edge n_face : nat)
  : field :=
  {| node_desc := {| nd_edge := Some two_quads_desc;
                     nd_face := None;
                     nd_bubble := Some [12; 13; 14; 15]%nat |};
     edge_dof_perms := two_quads_perms;
     face_dof_perms := [];
     n_vertex_dof := 6;
     n_edge_dof := n_edge;
     n_face_dof := n_face;
     shape_tdim := 2;
     facet_envs := fun _ => two_quads;
     region_get_cells := [0; 1]%nat;
     cmesh_n_el := 2;
     ap_econn := econn;
     econn_n_ep := 16 |}.

Definition two_quads_econn0 : list (list Z) :=
  [[0; 1; 4; 3; 0; 0; 0; 0; 0; 0; 0; 0; 0; 0; 0; 0];
   [1; 2; 5; 4; 0; 0; 0; 0; 0; 0; 0; 0; 0; 0; 0; 0]].

Definition two_quads_econn1 : list (list Z) :=
  [[0; 1; 4; 3; 6; 7; 8; 9; 10; 11; 12; 13; 0; 0; 0; 0];
   [1; 2; 5; 4; 14; 15; 16; 17; 18; 19; 9; 8; 0; 0; 0; 0]].

Definition two_quads_econn2 : list (list Z) :=
  [[0; 1; 4; 3; 6; 7; 8; 9; 10; 11; 12; 13; 20; 21; 22; 23];
   [1; 2; 5; 4; 14; 15; 16; 17; 18; 19; 9; 8; 24; 25; 26; 27]].

End FieldsNodalSpec.

Module RefineHangingSpec.
Import RefineHanging.

(** ** Rows of the level interface *)

(** The two entries of an array of length two. *)
Definition pair_of (l : list nat) : nat * nat :=
  match l with
  | [a; b] => (a, b)
  | _ => (O, O)
  end.

(** The local number of the facet [f] in the cell [c]. *)
Definition local_id (d : domain) (f c : nat) : nat :=
  match fs ← getitem (cell_facets d) c; index_of f fs with
  | Ok i => i
  | Raise _ => O
  end.

Definition flagged (refine_flag : list bool) (c : nat) : bool :=
  default false (refine_flag !! c).

Definition in_range (refine_flag : list bool) (c : nat * nat) : bool :=
  (c.1 <? length refine_flag)%nat && (c.2 <? length refine_flag)%nat.

(** [nm.where(refine_flag[c], x[0], x[1])] on one row. *)
Definition oriented (refine_flag : list bool) (c x : nat * nat) : nat * nat :=
  (if flagged refine_flag c.1 then x.1 else x.2,
   if flagged refine_flag c.2 then x.1 else x.2).

Definition local_ids (d : domain) (f : nat) : nat * nat :=
  let c := pair_of (incident_cells d f) in
  (local_id d f c.1, local_id d f c.2).

Definition facets_row (d : domain) (refine_flag : list bool) (f : nat)
  : nat * nat * nat :=
  let o := oriented refine_flag (pair_of (incident_cells d f)) (local_ids d f) in
  (f, o.1, o.2).

Definition cells_row (d : domain) (refine_flag : list bool)
    (coarse : list nat) (f : nat) : nat * nat * nat :=
  let c := pair_of (incident_cells d f) in
  let o := oriented refine_flag c c in
  (o.1, o.2, searchsorted coarse o.2).

(** A facet of the level interface: a facet of a cell that stays coarse and
    of a cell that is refined. *)
Definition is_interface (d : domain) (refine_flag : list bool) (f : nat) : Prop :=
  (exists c fs, refine_flag !! c = Some false /\
                cell_facets d !! c = Some fs /\ f ∈ fs) /\
  (exists c fs, refine_flag !! c = Some true /\
                cell_facets d !! c = Some fs /\ f ∈ fs).

(** ** Meshes *)

(** Four quadrilaterals in a 2 x 2 block over a 3 x 3 grid of vertices;
    twelve edges, the four inner ones shared by two cells each. *)
Definition quads4_mesh : mesh :=
  {| coors := [[f_zero; f_zero]; [f_half; f_zero]; [f_one; f_zero];
               [f_zero; f_half]; [f_half; f_half]; [f_one; f_half];
               [f_zero; f_one]; [f_half; f_one]; [f_one; f_one]];
     conn := [[0; 1; 4; 3]; [1; 2; 5; 4]; [3; 4; 7; 6]; [4; 5; 8; 7]]%nat;
     mat_ids := [0; 0; 0; 0];
     desc := "2_4" |}.

Definition quads4 : domain :=
  {| dmesh := quads4_mesh;
     cell_facets := [[0; 1; 2; 3]; [4; 5; 6; 1]; [2; 7; 8; 9];
                     [6; 10; 11; 7]]%nat |}.

(** Three cells around one common facet 0: not a manifold. *)
Definition fan3 : domain :=
  {| dmesh := {| coors := []; conn := [[0; 1; 2; 3]; [0; 1; 4; 5]; [0; 1; 6; 7]]%nat;
                 mat_ids := [0; 0; 0]; desc := "2_4" |};
     cell_facets := [[0; 1; 2; 3]; [0; 4; 5; 6]; [0; 7; 8; 9]]%nat |}.

(** Case analysis on the membership in an explicit list. *)
Ltac split_elems :=
  repeat match goal with
         | H : _ ∈ _ :: _ |- _ =>
             let Heq := fresh "Heq" in
             apply elem_of_cons in H as [Heq | H];
             [try discriminate Heq; try subst |]
         | H : _ ∈ [] |- _ => inversion H
         end.

(** The number of children the spec lists for a cell kind: "4 for 2D
    quad/tri refinement, 8 for 3D hex". *)
Definition template_children (desc : string) : nat :=
  if String.eqb desc "3_8" then 8%nat else 4%nat.

(** A stand-in for the uniform refinement of the sub-mesh: the vertices of
    the parent mesh are kept in place, and every cell of the region gives
    [n] cells. *)
Definition sample_ext (n : nat) : externals :=
  {| refine_submesh := fun r m =>
       {| coors := coors m ++ [[f_half; f_half]];
          conn := flat_map (fun c => replicate n (default [] (conn m !! c)))
                           (rcells r);
          mat_ids := flat_map (fun _ => replicate n 0) (rcells r);
          desc := desc m |};
     cmesh_facets := fun _ => [] |}.

Definition quads4_coarse : region :=
  {| rcells := [0; 3]%nat; rfacets := [0; 1; 2; 3; 6; 7; 10; 11]%nat |}.

Definition quads4_refine : region :=
  {| rcells := [1; 2]%nat; rfacets := [1; 2; 4; 5; 6; 7; 8; 9]%nat |}.

(** Two hexahedra that share the face 4. *)
Definition hex2 : domain :=
  {| dmesh := {| coors := [];
                 conn := [[0; 1; 2; 3; 4; 5; 6; 7];
                          [4; 5; 6; 7; 8; 9; 10; 11]]%nat;
                 mat_ids := [0; 0];
                 desc := "3_8" |};
     cell_facets := [[0; 1; 2; 3; 4; 5]; [4; 6; 7; 8; 9; 10]]%nat |}.

Definition hex2_coarse : region :=
  {| rcells := [1]%nat; rfacets := [4; 6; 7; 8; 9; 10]%nat |}.

Definition hex2_refine : region :=
  {| rcells := [0]%nat; rfacets := [0; 1; 2; 3; 4; 5]%nat |}.

(** ** Counting refined cells *)

(** The number of flagged cells among the cells [0 .. i]. *)
Definition count_refined_le (refine_flag : list bool) (i : nat) : Z :=
  Z.of_nat (length (List.filter (flagged refine_flag) (seq 0 (S i)))).

(** The number of flagged cells among the cells [0 .. i - 1]. *)
Definition count_refined_lt (refine_flag : list bool) (i : nat) : Z :=
  Z.of_nat (length (List.filter (flagged refine_flag) (seq 0 i))).

Definition sumZ (l : list Z) : Z := foldr Z.add 0 l.

(** The position a signed index [x] selects in an array of length [n]. *)
Definition index_pos (n : nat) (x : Z) : nat :=
  Z.to_nat (if 0 <=? x then x else Z.of_nat n + x).

(** The columns that hold cell indices. *)
Definition cell_column (j : nat) : bool :=
  (j =? 0)%nat || (j =? 2)%nat || (j =? 4)%nat.

(** A cell index after the shift: down by the number of flagged cells whose
    index is not larger than the index itself. *)
Definition shifted (n_el1 : nat) (refine_flag : list bool) (x : Z) : Z :=
  x - count_refined_le refine_flag (index_pos (n_el1 + 1) x).

(** ** Sums over transform matrices *)

(** Row [i] of [nm.eye(n)]. *)
Definition eye_row (n i : nat) : list float64 :=
  map (fun j => if (i =? j)%nat then f_one else f_zero) (seq 0 n).

(** The sum of the first [k] rows of [nm.eye(n)]. *)
Definition eye_partial (n k : nat) : list float64 :=
  map (fun j => if (j <? k)%nat then f_one else f_zero) (seq 0 n).

(** The sum of one row of a matrix, [mtx[i].sum()]. *)
Definition sum_row (row : list float64) : float64 :=
  match row with
  | [] => f_zero
  | x :: row' => foldl f_add x row'
  end.

(** The bilinear field on the unit square: the edges of the reference cell
    and the values of the four basis functions at the ends of the two fine
    edges that cover the edge 0, (0, 0), (1/2, 0) and (1/2, 0), (1, 0); seven
    cells as in the 2 x 2 block with its first cell refined. *)
Definition q1_env : basis_env :=
  {| econn_shape := (7%nat, 4%nat);
     efaces := [[0; 1]; [1; 2]; [2; 3]; [3; 0]]%nat;
     get_base := [[[f_one; f_zero; f_zero; f_zero]];
                  [[f_half; f_half; f_zero; f_zero]];
                  [[f_half; f_half; f_zero; f_zero]];
                  [[f_zero; f_one; f_zero; f_zero]]] |}.

(** The substitutions of that refinement. *)
Definition q1_gsubs : list (list Z) :=
  [[0; 3; 4; 0; 5; 3]; [1; 0; 5; 0; 6; 3]].

Definition q1_transform : list (list (list float64)) :=
  [eye 4; eye 4; eye 4; eye 4;
   [[f_one; f_half; f_zero; f_zero]; [f_zero; f_half; f_zero; f_zero];
    [f_zero; f_zero; f_one; f_zero]; [f_zero; f_zero; f_zero; f_one]];
   [[f_one; f_half; f_zero; f_half]; [f_zero; f_half; f_zero; f_zero];
    [f_zero; f_zero; f_one; f_zero]; [f_zero; f_zero; f_zero; f_half]];
   [[f_one; f_zero; f_zero; f_half]; [f_zero; f_one; f_zero; f_zero];
    [f_zero; f_zero; f_one; f_zero]; [f_zero; f_zero; f_zero; f_half]]].

(** ** Substitution records *)

(** The record of an interface edge of a quadrilateral mesh: the coarse
    neighbour [k] (numbered in the new mesh) and its local edge [l2], then
    the two children of the [p]-th refined cell that lie along its local
    edge [l1], with the local edges they replace it by; [n0] is the number
    of coarse cells. *)
Definition edge_record (n0 p l1 l2 k : nat) : list Z :=
  [Z.of_nat k; Z.of_nat l2;
   Z.of_nat (n0 + 4 * p + l1); 0;
   Z.of_nat (n0 + 4 * p + (l1 + 1) mod 4); 3].

(** ** The 2 x 2 block with the cells 1 and 2 refined *)

Definition quads4_flag : list bool := [false; true; true; false].

Definition quads4_facets : list (nat * nat * nat) :=
  [(1, 3, 1); (2, 0, 2); (6, 2, 0); (7, 1, 3)]%nat.

Definition quads4_cells : list (nat * nat * nat) :=
  [(1, 0, 0); (2, 0, 0); (1, 3, 1); (2, 3, 1)]%nat.

Definition quads4_sub_cells : list (nat * list Z) :=
  [(1%nat, [2; 3; 4; 5]); (2%nat, [6; 7; 8; 9])].

Definition quads4_refined : domain :=
  FEDomain (sample_ext 4)
    {| coors := coors quads4_mesh ++ [[f_half; f_half]];
       conn := [[0; 1; 4; 3]; [4; 5; 8; 7];
                [1; 2; 5; 4]; [1; 2; 5; 4]; [1; 2; 5; 4]; [1; 2; 5; 4];
                [3; 4; 7; 6]; [3; 4; 7; 6]; [3; 4; 7; 6]; [3; 4; 7; 6]]%nat;
       mat_ids := [0; 0; 0; 0; 0; 0; 0; 0; 0; 0];
       desc := "2_4" |}.

(** A record of an earlier pass that names the cells 0 and 3, which this
    pass keeps, the record as the claim has it after the pass (cell 3 has
    the two refined cells 1 and 2 before it), and the records of this
    pass. *)
Definition quads4_prior : list (list Z) := [[0; 1; 3; 2; 3; 0]].

Definition quads4_prior_shifted : list (list Z) := [[0; 1; 1; 2; 1; 0]].

Definition quads4_gsubs1 : list (list Z) :=
  [[0; 1; 5; 0; 2; 3]; [0; 2; 6; 0; 7; 3];
   [1; 0; 4; 0; 5; 3]; [1; 3; 7; 0; 8; 3]].

End RefineHangingSpec.

(** * Properties of [fields_nodal.py] *)

Module FieldsNodalProofs.
Import FieldsNodal FieldsNodalSpec.

(** ** Generic facts on the array helpers *)

Lemma bind_ok {A B : Type} (m : result A) (k : A -> result B) (b : B) :
  m ≫= k = Ok b -> exists a, m = Ok a /\ k a = Ok b.
Proof. destruct m as [a|e]; simpl; [eauto | discriminate]. Qed.

Lemma getitem_ok {A : Type} (a : list A) (i : nat) (x : A) :
  getitem a i = Ok x <-> a !! i = Some x.
Proof.
  unfold getitem. destruct (a !! i); split; intros H; congruence.
Qed.

Lemma setitem_ok {A : Type} (a a' : list A) (i : nat) (x : A) :
  setitem a i x = Ok a' <-> (i < length a)%nat /\ a' = <[i:=x]> a.
Proof.
  unfold setitem. destruct (decide (i < length a)%nat); split.
  - intros [= <-]. auto.
  - intros [_ ->]. reflexivity.
  - discriminate.
  - intros [? _]. lia.
Qed.

Lemma elem_of_nonzero_from (flag : list bool) (k x : nat) :
  x ∈ nonzero_from k flag <->
  exists j, x = (k + j)%nat /\ flag !! j = Some true.
Proof.
  revert k. induction flag as [|b flag IH]; intros k; simpl.
  - split; [intros H; inversion H | intros (j & _ & H); discriminate].
  - assert (Hrec : x ∈ nonzero_from (S k) flag <->
                   exists j, x = (k + S j)%nat /\ flag !! j = Some true).
    { rewrite IH. split; intros (j & -> & H); exists j; split; auto; lia. }
    destruct b.
    + rewrite elem_of_cons, Hrec. split.
      * intros [-> | (j & -> & H)].
        -- exists O. split; [lia | reflexivity].
        -- exists (S j). auto.
      * intros ([|j] & -> & H).
        -- left. lia.
        -- right. exists j. auto.
    + rewrite Hrec. split.
      * intros (j & -> & H). exists (S j). auto.
      * intros ([|j] & -> & H); [discriminate |]. exists j. auto.
Qed.

Lemma elem_of_nonzero (flag : list bool) (x : nat) :
  x ∈ nonzero flag <-> flag !! x = Some true.
Proof.
  unfold nonzero. rewrite elem_of_nonzero_from. split.
  - intros (j & -> & H). exact H.
  - intros H. exists x. auto.
Qed.

Lemma elem_of_where_gt1 (status : list Z) (i : nat) :
  i ∈ where_gt1 status <-> exists s, status !! i = Some s /\ 1 < s.
Proof.
  unfold where_gt1. rewrite elem_of_nonzero, list_lookup_fmap.
  destruct (status !! i) as [s|]; simpl.
  - split.
    + intros [= H]. exists s. split; [reflexivity | lia].
    + intros (s' & [= <-] & H). f_equal. lia.
  - split; [discriminate | intros (s & H & _); discriminate].
Qed.

(** ** [vals[ii] = nm.nan] *)

Lemma set_rows_lookup {A : Type} (f : A -> A) (ii : list nat) :
  (forall x, f (f x) = f x) ->
  forall (a a' : list A), set_rows f a ii = Ok a' ->
  length a' = length a /\
  Forall (fun i => (i < length a)%nat) ii /\
  forall i, a' !! i = if bool_decide (i ∈ ii) then f <$> a !! i else a !! i.
Proof.
  intros Hf. induction ii as [|j ii IH]; intros a a' H; simpl in H.
  - injection H as <-. split; [reflexivity |]. split; [constructor |]. intros i.
    rewrite bool_decide_eq_false_2; [reflexivity | apply not_elem_of_nil].
  - apply bind_ok in H as (row & Hrow & H).
    apply bind_ok in H as (a1 & Ha1 & H).
    apply getitem_ok in Hrow. apply setitem_ok in Ha1 as [Hlt ->].
    apply IH in H as (Hlen & Hall & Hget). rewrite length_insert in Hlen, Hall.
    split; [exact Hlen |]. split; [constructor; assumption |].
    intros i. rewrite Hget.
    destruct (decide (i = j)) as [-> | Hne].
    + rewrite list_lookup_insert_eq by exact Hlt. rewrite Hrow. simpl.
      rewrite (bool_decide_eq_true_2 (j ∈ j :: ii))
        by (apply elem_of_cons; left; reflexivity).
      rewrite Hf. destruct (bool_decide (j ∈ ii)); reflexivity.
    + rewrite list_lookup_insert_ne by congruence.
      assert (Heq : bool_decide (i ∈ j :: ii) = bool_decide (i ∈ ii)).
      { apply bool_decide_ext. rewrite elem_of_cons. tauto. }
      rewrite Heq. reflexivity.
Qed.

Lemma set_rows_total {A : Type} (f : A -> A) (ii : list nat) (a : list A) :
  Forall (fun i => (i < length a)%nat) ii -> exists a', set_rows f a ii = Ok a'.
Proof.
  revert a. induction ii as [|j ii IH]; intros a Hall; simpl.
  - eauto.
  - inversion Hall as [|? ? Hj Hrest]; subst.
    destruct (lookup_lt_is_Some_2 a j Hj) as [row Hrow].
    unfold getitem at 1. rewrite Hrow. simpl.
    unfold setitem at 1. rewrite decide_True by exact Hj. simpl.
    apply IH. rewrite length_insert. exact Hrest.
Qed.

Lemma fill_row2_idem (x : float64) (r : list float64) :
  fill_row2 x (fill_row2 x r) = fill_row2 x r.
Proof. unfold fill_row2. rewrite map_map. reflexivity. Qed.

Lemma fill_row3_idem (x : float64) (r : list (list float64)) :
  fill_row3 x (fill_row3 x r) = fill_row3 x r.
Proof.
  unfold fill_row3. rewrite map_map. apply map_ext. intros a.
  apply fill_row2_idem.
Qed.

Lemma fill_row2_all (x : float64) (r : list float64) :
  Forall (eq x) (fill_row2 x r).
Proof. unfold fill_row2. induction r; simpl; constructor; auto. Qed.

Lemma fill_row3_all (x : float64) (r : list (list float64)) :
  Forall (eq x) (concat (fill_row3 x r)).
Proof.
  unfold fill_row3. induction r as [|a r IH]; simpl.
  - constructor.
  - apply Forall_app. split; [apply fill_row2_all | exact IH].
Qed.

Lemma nan_row_entries (r : row) :
  length (row_entries (nan_row r)) = length (row_entries r) /\
  Forall (eq nan) (row_entries (nan_row r)).
Proof.
  destruct r as [r | r]; simpl.
  - split; [apply length_map |]. induction r; simpl; constructor; auto.
  - induction r as [|a r [IHlen IHall]]; simpl; [split; [reflexivity | constructor] |].
    rewrite !length_app, length_map, IHlen. split; [reflexivity |].
    apply Forall_app. split; [| exact IHall].
    clear. induction a; simpl; constructor; auto.
Qed.

(** What [set_nan] does to each row. *)
Lemma set_nan_rows (vals vals' : ndarray) (status : list Z) :
  set_nan vals (where_gt1 status) = Ok vals' ->
  nd_length vals' = nd_length vals /\
  forall i s, status !! i = Some s ->
    (1 < s -> exists r0, nd_row vals i = Some r0 /\
                         nd_row vals' i = Some (nan_row r0)) /\
    (s <= 1 -> nd_row vals' i = nd_row vals i).
Proof.
  intros H. destruct vals as [a | a]; simpl in H;
    apply bind_ok in H as (a' & Hset & [= <-]).
  - apply (set_rows_lookup _ _ (fill_row2_idem nan)) in Hset
      as (Hlen & Hall & Hget).
    split; [exact Hlen |]. intros i s Hs. simpl. rewrite Hget. split; intros Hcmp.
    + assert (Hin : i ∈ where_gt1 status) by (apply elem_of_where_gt1; eauto).
      rewrite bool_decide_eq_true_2 by exact Hin.
      rewrite Forall_forall in Hall. apply Hall in Hin.
      destruct (lookup_lt_is_Some_2 a i Hin) as [r Hr]. rewrite Hr. simpl.
      eexists. split; reflexivity.
    + rewrite bool_decide_eq_false_2; [reflexivity |].
      rewrite elem_of_where_gt1. intros (s' & Hs' & ?).
      rewrite Hs in Hs'. injection Hs' as <-. lia.
  - apply (set_rows_lookup _ _ (fill_row3_idem nan)) in Hset
      as (Hlen & Hall & Hget).
    split; [exact Hlen |]. intros i s Hs. simpl. rewrite Hget. split; intros Hcmp.
    + assert (Hin : i ∈ where_gt1 status) by (apply elem_of_where_gt1; eauto).
      rewrite bool_decide_eq_true_2 by exact Hin.
      rewrite Forall_forall in Hall. apply Hall in Hin.
      destruct (lookup_lt_is_Some_2 a i Hin) as [r Hr]. rewrite Hr. simpl.
      eexists. split; reflexivity.
    + rewrite bool_decide_eq_false_2; [reflexivity |].
      rewrite elem_of_where_gt1. intros (s' & Hs' & ?).
      rewrite Hs in Hs'. injection Hs' as <-. lia.
Qed.

(** ** Index arrays *)

Lemma take_ok {A : Type} (a : list A) (idx : list nat) (xs : list A) :
  take_ a idx = Ok xs -> Forall2 (fun i x => a !! i = Some x) idx xs.
Proof.
  revert xs. induction idx as [|i idx IH]; intros xs H; simpl in H.
  - injection H as <-. constructor.
  - apply bind_ok in H as (x & Hx & H). apply bind_ok in H as (xs' & Hxs & H).
    injection H as <-. apply getitem_ok in Hx. constructor; auto.
Qed.

Lemma take2_ok {A : Type} (a : list A) (idx : list (list nat))
    (xs : list (list A)) :
  take2 a idx = Ok xs ->
  Forall2 (fun r x => Forall2 (fun i y => a !! i = Some y) r x) idx xs.
Proof.
  revert xs. induction idx as [|r idx IH]; intros xs H; simpl in H.
  - injection H as <-. constructor.
  - apply bind_ok in H as (x & Hx & H). apply bind_ok in H as (xs' & Hxs & H).
    injection H as <-. apply take_ok in Hx. constructor; auto.
Qed.

Lemma take_rows_ok (gdofs : list (list Z)) (perms : list (list nat))
    (rhs : list (list Z)) :
  take_rows gdofs perms = Ok rhs ->
  forall r row p, gdofs !! r = Some row -> perms !! r = Some p ->
    exists x, rhs !! r = Some x /\ Forall2 (fun k v => row !! k = Some v) p x.
Proof.
  revert perms rhs. induction gdofs as [|row0 gdofs IH];
    intros [|p0 perms] rhs H r row p Hrow Hp; simpl in H; try discriminate.
  apply bind_ok in H as (x & Hx & H). apply bind_ok in H as (xs & Hxs & H).
  injection H as <-. destruct r as [|r]; simpl in *.
  - injection Hrow as <-. injection Hp as <-.
    exists x. split; [reflexivity |]. apply take_ok. exact Hx.
  - exact (IH _ _ Hxs r row p Hrow Hp).
Qed.

(** Position [c * m + f] of the concatenation of rows of length [m]. *)
Lemma lookup_concat_rows {A : Type} (m : nat) (ls : list (list A)) (c f : nat)
    (l : list A) :
  Forall (fun l => length l = m) ls ->
  ls !! c = Some l -> (f < m)%nat ->
  concat ls !! (c * m + f)%nat = l !! f.
Proof.
  revert c. induction ls as [|l0 ls IH]; intros c Hall Hc Hf.
  - discriminate.
  - inversion Hall as [|? ? Hl0 Hrest]; subst. destruct c as [|c]; simpl in *.
    + injection Hc as ->. apply lookup_app_l. lia.
    + rewrite lookup_app_r by lia.
      replace (length l0 + c * length l0 + f - length l0)%nat
        with (c * length l0 + f)%nat by lia.
      apply IH; assumption.
Qed.

Lemma concat_rows_inv {A : Type} (m : nat) (ls : list (list A)) (r : nat)
    (x : A) :
  Forall (fun l => length l = m) ls ->
  concat ls !! r = Some x ->
  exists c f l, r = (c * m + f)%nat /\ (f < m)%nat /\ ls !! c = Some l /\
                l !! f = Some x.
Proof.
  revert r. induction ls as [|l0 ls IH]; intros r Hall Hr; simpl in Hr.
  - discriminate.
  - inversion Hall as [|? ? Hl0 Hrest]; subst.
    destruct (decide (r < length l0)%nat) as [Hlt | Hge].
    + rewrite lookup_app_l in Hr by exact Hlt.
      exists O, r, l0. repeat split; auto.
    + rewrite lookup_app_r in Hr by lia.
      destruct (IH _ Hrest Hr) as (c & f & l & Heq & Hf & Hc & Hx).
      exists (S c), f, l. repeat split; auto. simpl. lia.
Qed.

(** ** [evaluate_at] *)

Lemma evaluate_at_inv (located : ref_coors_out)
    (evaluate_in_rc : Z -> list (list (list float64))) (mode : string)
    (ret_cells ret_status ret_ref_coors : bool) (r : evaluate_at_ret) :
  evaluate_at located evaluate_in_rc mode ret_cells ret_status ret_ref_coors
    = Ok r ->
  (if ret_status then ret_vals r = interpolated evaluate_in_rc mode
   else set_nan (interpolated evaluate_in_rc mode)
                (where_gt1 (status located)) = Ok (ret_vals r)) /\
  r = (if ret_ref_coors then
         RetValsRefCellsStatus (ret_vals r) (ref_coors located)
                               (cells located) (status located)
       else if ret_status then
         RetValsCellsStatus (ret_vals r) (cells located) (status located)
       else if ret_cells then RetValsCells (ret_vals r) (cells located)
       else RetVals (ret_vals r)).
Proof.
  unfold evaluate_at, interpolated. intros H.
  apply bind_ok in H as (cmode & Hmode & H).
  apply bind_ok in H as (vals & Hvals & H).
  assert (Hraw : (if String.eqb mode "val"
                  then Arr2 (map (@concat float64) (evaluate_in_rc cmode))
                  else Arr3 (evaluate_in_rc cmode))
                 = (if String.eqb mode "val"
                    then Arr2 (map (@concat float64) (evaluate_in_rc 0))
                    else Arr3 (evaluate_in_rc 1))).
  { destruct (String.eqb mode "val").
    - injection Hmode as <-. reflexivity.
    - destruct (String.eqb mode "grad"); [| discriminate].
      injection Hmode as <-. reflexivity. }
  rewrite Hraw in Hvals. clear Hraw Hmode.
  assert (Hr : ret_vals r = vals).
  { destruct ret_ref_coors, ret_status, ret_cells;
      injection H as <-; reflexivity. }
  rewrite Hr. split.
  - destruct ret_status; simpl in Hvals; [congruence | exact Hvals].
  - destruct ret_ref_coors, ret_status, ret_cells; congruence.
Qed.

(** The call does return whenever the mode is one of the two supported ones
    and the finder reports one status per interpolated point. *)
Lemma evaluate_at_returns (located : ref_coors_out)
    (evaluate_in_rc : Z -> list (list (list float64))) (mode : string)
    (ret_cells ret_status ret_ref_coors : bool) :
  mode = "val"%string \/ mode = "grad"%string ->
  length (status located) = nd_length (interpolated evaluate_in_rc mode) ->
  exists r,
    evaluate_at located evaluate_in_rc mode ret_cells ret_status ret_ref_coors
      = Ok r.
Proof.
  intros Hmode Hlen.
  assert (Hidx : Forall (fun i => (i < length (status located))%nat)
                        (where_gt1 (status located))).
  { apply Forall_forall. intros i Hi.
    apply elem_of_where_gt1 in Hi as (s & Hs & _).
    apply lookup_lt_Some in Hs. exact Hs. }
  rewrite Hlen in Hidx. unfold evaluate_at, interpolated in *.
  destruct Hmode as [-> | ->]; simpl in *.
  - destruct ret_status; simpl.
    + destruct ret_ref_coors; eauto.
    + destruct (set_rows_total (fill_row2 nan) _ _ Hidx) as [a' Ha'].
      rewrite Ha'. simpl. destruct ret_ref_coors, ret_cells; eauto.
  - destruct ret_status; simpl.
    + destruct ret_ref_coors; eauto.
    + destruct (set_rows_total (fill_row3 nan) _ _ Hidx) as [a' Ha'].
      rewrite Ha'. simpl. destruct ret_ref_coors, ret_cells; eauto.
Qed.

(** C3.  When the caller does not ask for the status ([ret_status] is
    False), every point whose status is greater than 1 comes back overwritten
    with NaN: its row has the shape of the interpolated row (as many entries,
    in the same arrangement) and every entry of it is NaN, which is no zero.
    Every point with status at most 1 (0 and 1 in particular) keeps its
    interpolated row, and the array keeps its number of rows. *)
Theorem evaluate_at_undefined_marker (located : ref_coors_out)
    (evaluate_in_rc : Z -> list (list (list float64))) (mode : string)
    (ret_cells ret_ref_coors : bool) (r : evaluate_at_ret) :
  evaluate_at located evaluate_in_rc mode ret_cells false ret_ref_coors
    = Ok r ->
  nd_length (ret_vals r) = nd_length (interpolated evaluate_in_rc mode) /\
  forall (i : nat) (s : Z), status located !! i = Some s ->
    (1 < s ->
     exists row0 row,
       nd_row (interpolated evaluate_in_rc mode) i = Some row0 /\
       nd_row (ret_vals r) i = Some row /\
       row = nan_row row0 /\
       length (row_entries row) = length (row_entries row0) /\
       Forall (fun x => x = nan /\ forall b, x <> S754_zero b)
              (row_entries row)) /\
    (s <= 1 ->
     nd_row (ret_vals r) i = nd_row (interpolated evaluate_in_rc mode) i).
Proof.
  intros H. apply evaluate_at_inv in H as [Hvals _].
  apply set_nan_rows in Hvals as [Hlen Hrows].
  split; [exact Hlen |]. intros i s Hs.
  destruct (Hrows i s Hs) as [Hgt Hle]. split; [| exact Hle].
  intros Hcmp. destruct (Hgt Hcmp) as (row0 & Hrow0 & Hrow).
  exists row0, (nan_row row0). split; [exact Hrow0 |]. split; [exact Hrow |].
  split; [reflexivity |].
  destruct (nan_row_entries row0) as [Hshape Hall].
  split; [exact Hshape |].
  eapply Forall_impl; [exact Hall |].
  intros x <-. split; [reflexivity | discriminate].
Qed.

Lemma evaluate_at_undefined_marker_witness :
  (exists row0 row,
     nd_row (interpolated interp_sample2 "grad") 1 = Some row0 /\
     nd_row (Arr3 [[[f_half; f_zero]; [f_one; f_one]];
                   [[nan; nan]; [nan; nan]];
                   [[f_one; f_one]; [f_half; f_half]]]) 1 = Some row /\
     row = nan_row row0 /\
     length (row_entries row) = length (row_entries row0) /\
     Forall (fun x => x = nan /\ forall b, x <> S754_zero b)
            (row_entries row)) /\
  nd_row (Arr3 [[[f_half; f_zero]; [f_one; f_one]];
                [[nan; nan]; [nan; nan]];
                [[f_one; f_one]; [f_half; f_half]]]) 2
    = nd_row (interpolated interp_sample2 "grad") 2.
Proof.
  pose proof (evaluate_at_undefined_marker located_sample interp_sample2
                "grad" false false
                (RetVals (Arr3 [[[f_half; f_zero]; [f_one; f_one]];
                                [[nan; nan]; [nan; nan]];
                                [[f_one; f_one]; [f_half; f_half]]]))
                eq_refl) as [_ H].
  split.
  - apply (proj1 (H 1%nat 2 eq_refl)). reflexivity.
  - apply (proj2 (H 2%nat 1 eq_refl)). reflexivity.
Defined.

(** C10.  The NaN overwrite depends on [ret_status] alone:
    - with [ret_ref_coors] True and [ret_status] False the caller gets the
      four-tuple that carries the status array, and the values in it are
      already masked: the array has its rows, every row of a point with
      status greater than 1 has the shape of the interpolated row with NaN
      in every entry, and the other rows are the interpolated ones;
    - with [ret_status] True the values are the interpolated ones, whatever
      the other two flags are;
    - two calls that agree on [ret_status] return the same values. *)
Theorem evaluate_at_mask_only_ret_status (located : ref_coors_out)
    (evaluate_in_rc : Z -> list (list (list float64))) (mode : string) :
  (forall ret_cells r,
     evaluate_at located evaluate_in_rc mode ret_cells false true = Ok r ->
     r = RetValsRefCellsStatus (ret_vals r) (ref_coors located)
                               (cells located) (status located) /\
     nd_length (ret_vals r) = nd_length (interpolated evaluate_in_rc mode) /\
     forall (i : nat) (s : Z), status located !! i = Some s ->
       (1 < s ->
        exists row0 row,
          nd_row (interpolated evaluate_in_rc mode) i = Some row0 /\
          nd_row (ret_vals r) i = Some row /\
          row = nan_row row0 /\
          length (row_entries row) = length (row_entries row0) /\
          Forall (eq nan) (row_entries row)) /\
       (s <= 1 ->
        nd_row (ret_vals r) i
        = nd_row (interpolated evaluate_in_rc mode) i)) /\
  (forall ret_cells ret_ref_coors r,
     evaluate_at located evaluate_in_rc mode ret_cells true ret_ref_coors
       = Ok r ->
     ret_vals r = interpolated evaluate_in_rc mode) /\
  (forall ret_status ret_cells ret_cells' ret_ref_coors ret_ref_coors' r r',
     evaluate_at located evaluate_in_rc mode ret_cells ret_status
                 ret_ref_coors = Ok r ->
     evaluate_at located evaluate_in_rc mode ret_cells' ret_status
                 ret_ref_coors' = Ok r' ->
     ret_vals r = ret_vals r').
Proof.
  split; [| split].
  - intros ret_cells r H. apply evaluate_at_inv in H as [Hvals Hr].
    split; [exact Hr |].
    apply set_nan_rows in Hvals as [Hlen Hrows].
    split; [exact Hlen |]. intros i s Hs.
    destruct (Hrows i s Hs) as [Hgt Hle]. split; [| exact Hle].
    intros Hcmp. destruct (Hgt Hcmp) as (row0 & Hrow0 & Hrow).
    exists row0, (nan_row row0). split; [exact Hrow0 |].
    split; [exact Hrow |]. split; [reflexivity |]. apply nan_row_entries.
  - intros ret_cells ret_ref_coors r H.
    apply evaluate_at_inv in H as [Hvals _]. exact Hvals.
  - intros ret_status ret_cells ret_cells' ret_ref_coors ret_ref_coors' r r'
           H H'.
    apply evaluate_at_inv in H as [Hvals _].
    apply evaluate_at_inv in H' as [Hvals' _].
    destruct ret_status; congruence.
Qed.

Lemma evaluate_at_mask_only_ret_status_witness :
  exists row0 row,
    nd_row (interpolated interp_sample2 "grad") 1 = Some row0 /\
    nd_row (Arr3 [[[f_half; f_zero]; [f_one; f_one]];
                  [[nan; nan]; [nan; nan]];
                  [[f_one; f_one]; [f_half; f_half]]]) 1 = Some row /\
    row = nan_row row0 /\
    length (row_entries row) = length (row_entries row0) /\
    Forall (eq nan) (row_entries row).
Proof.
  apply (proj1 (proj2 (proj2 (proj1
           (evaluate_at_mask_only_ret_status located_sample interp_sample2
              "grad") false
           (RetValsRefCellsStatus
              (Arr3 [[[f_half; f_zero]; [f_one; f_one]];
                     [[nan; nan]; [nan; nan]];
                     [[f_one; f_one]; [f_half; f_half]]])
              (ref_coors located_sample) (cells located_sample)
              (status located_sample))
           eq_refl)) 1%nat 2 eq_refl)).
  reflexivity.
Defined.

(** ** Writes into the element connectivity *)

Lemma setitem2_lookup (e e' : list (list Z)) (c col : nat) (v : Z) :
  setitem2 e c col v = Ok e' ->
  lookup2 e' c col = Some v /\
  forall c' col', (c', col') <> (c, col) -> lookup2 e' c' col' = lookup2 e c' col'.
Proof.
  unfold setitem2, lookup2. intros H.
  apply bind_ok in H as (row & Hrow & H). apply bind_ok in H as (row' & Hrow' & H).
  apply getitem_ok in Hrow. apply setitem_ok in Hrow' as [Hcol ->].
  apply setitem_ok in H as [Hc ->]. split.
  - rewrite list_lookup_insert_eq by exact Hc. simpl.
    apply list_lookup_insert_eq. exact Hcol.
  - intros c' col' Hne. destruct (decide (c' = c)) as [-> | Hc'].
    + rewrite list_lookup_insert_eq by exact Hc. rewrite Hrow. simpl.
      apply list_lookup_insert_ne. congruence.
    + rewrite list_lookup_insert_ne by congruence. reflexivity.
Qed.

Lemma assign_row_lookup (cols : list nat) :
  forall (e e' : list (list Z)) (c : nat) (vals : list Z),
  assign_row e c cols vals = Ok e' ->
  (forall c' col', c' <> c \/ col' ∉ cols ->
     lookup2 e' c' col' = lookup2 e c' col') /\
  (NoDup cols -> forall j col v, cols !! j = Some col -> vals !! j = Some v ->
     lookup2 e' c col = Some v).
Proof.
  induction cols as [|col0 cols IH]; intros e e' c [|v0 vals] H; simpl in H;
    try discriminate.
  - injection H as <-. split; [reflexivity |]. intros _ j col v Hj. discriminate.
  - apply bind_ok in H as (e1 & He1 & H).
    apply setitem2_lookup in He1 as [Hhit Hmiss].
    apply IH in H as [Hout Hin]. split.
    + intros c' col' Hne. rewrite Hout.
      * apply Hmiss. intros [= -> ->]. destruct Hne as [Hne | Hne];
          [congruence | apply Hne, elem_of_cons; auto].
      * destruct Hne as [Hne | Hne]; [auto |].
        right. intros Hin'. apply Hne, elem_of_cons. auto.
    + intros Hnd j col v Hj Hv. apply NoDup_cons in Hnd as [Hnotin Hnd].
      destruct j as [|j]; simpl in Hj, Hv.
      * injection Hj as <-. injection Hv as <-.
        rewrite Hout by (right; exact Hnotin). exact Hhit.
      * exact (Hin Hnd j col v Hj Hv).
Qed.

Lemma assign_rows_lookup (iel : list nat) :
  forall (e e' : list (list Z)) (iep : list (list nat)) (rhs : list (list Z)),
  assign_rows e iel iep rhs = Ok e' ->
  (forall c' col',
     (forall r c cols, iel !! r = Some c -> iep !! r = Some cols ->
                       c' <> c \/ col' ∉ cols) ->
     lookup2 e' c' col' = lookup2 e c' col') /\
  (forall r c cols vals j col v,
     iel !! r = Some c -> iep !! r = Some cols -> rhs !! r = Some vals ->
     cols !! j = Some col -> vals !! j = Some v -> NoDup cols ->
     (forall r' c' cols', r' <> r -> iel !! r' = Some c' ->
                          iep !! r' = Some cols' -> c' <> c \/ col ∉ cols') ->
     lookup2 e' c col = Some v).
Proof.
  induction iel as [|c0 iel IH]; intros e e' [|cols0 iep] [|vals0 rhs] H;
    simpl in H; try discriminate.
  - injection H as <-. split; [reflexivity |]. intros r c cols vals j col v Hr.
    discriminate.
  - apply bind_ok in H as (e1 & He1 & H).
    apply assign_row_lookup in He1 as [Hout1 Hin1].
    apply IH in H as [Hout Hin]. split.
    + intros c' col' Hfree. rewrite Hout.
      * apply Hout1. exact (Hfree O c0 cols0 eq_refl eq_refl).
      * intros r c cols Hr Hc. exact (Hfree (S r) c cols Hr Hc).
    + intros r c cols vals j col v Hr Hc Hv Hj Hvj Hnd Hfree.
      destruct r as [|r]; simpl in Hr, Hc, Hv.
      * injection Hr as <-. injection Hc as <-. injection Hv as <-.
        rewrite Hout.
        -- exact (Hin1 Hnd j col v Hj Hvj).
        -- intros r' c' cols' Hr' Hc'.
           destruct (Hfree (S r') c' cols') as [Hne | Hne];
             [lia | exact Hr' | exact Hc' | left; congruence | right; exact Hne].
      * apply (Hin r c cols vals j col v Hr Hc Hv Hj Hvj Hnd).
        intros r' c' cols' Hne Hr' Hc'.
        apply (Hfree (S r') c' cols'); [lia | exact Hr' | exact Hc'].
Qed.

Lemma NoDup_concat_row {A : Type} (ls : list (list A)) (i : nat) (a : list A) :
  NoDup (concat ls) -> ls !! i = Some a -> NoDup a.
Proof.
  revert i. induction ls as [|l ls IH]; intros i Hnd Hi; [discriminate |].
  simpl in Hnd. apply NoDup_app in Hnd as (Hl & _ & Hrest).
  destruct i as [|i]; simpl in Hi.
  - injection Hi as <-. exact Hl.
  - exact (IH i Hrest Hi).
Qed.

Lemma NoDup_concat_disjoint {A : Type} (ls : list (list A)) (i j : nat)
    (a b : list A) (x : A) :
  NoDup (concat ls) -> ls !! i = Some a -> ls !! j = Some b -> i <> j ->
  x ∈ a -> x ∉ b.
Proof.
  revert i j. induction ls as [|l ls IH]; intros i j Hnd Hi Hj Hne Ha Hb;
    [discriminate |].
  simpl in Hnd. apply NoDup_app in Hnd as (Hl & Hdisj & Hrest).
  assert (Hin : forall n (c : list A) y, ls !! n = Some c -> y ∈ c ->
                                         y ∈ concat ls).
  { intros n c y Hn Hy. apply list_elem_of_In, in_concat. exists c.
    split; apply list_elem_of_In; [| exact Hy].
    apply list_elem_of_lookup. eauto. }
  destruct i as [|i], j as [|j]; simpl in Hi, Hj.
  - congruence.
  - injection Hi as <-. exact (Hdisj x Ha (Hin j b x Hj Hb)).
  - injection Hj as <-. exact (Hdisj x Hb (Hin i a x Hi Ha)).
  - apply (IH i j Hrest Hi Hj); [congruence | exact Ha | exact Hb].
Qed.

(** ** [_setup_facet_dofs]: the DOF behind every slot *)

Lemma lookup_replicate_rows (n_f n_el c f : nat) :
  (c < n_el)%nat -> (f < n_f)%nat ->
  flat_map (fun c => replicate n_f c) (seq 0 n_el) !! (c * n_f + f)%nat = Some c /\
  flat_map (fun _ : nat => seq 0 n_f) (seq 0 n_el) !! (c * n_f + f)%nat = Some f.
Proof.
  intros Hc Hf. rewrite !flat_map_concat_map. split.
  - rewrite (lookup_concat_rows n_f _ c f (replicate n_f c)).
    + apply lookup_replicate_2. exact Hf.
    + apply Forall_forall. intros l Hl. apply list_elem_of_In, in_map_iff in Hl
        as (x & <- & _). apply length_replicate.
    + rewrite list_lookup_fmap, lookup_seq_lt by exact Hc. reflexivity.
    + exact Hf.
  - rewrite (lookup_concat_rows n_f _ c f (seq 0 n_f)).
    + apply lookup_seq_lt. exact Hf.
    + apply Forall_forall. intros l Hl. apply list_elem_of_In, in_map_iff in Hl
        as (x & <- & _). apply length_seq.
    + rewrite list_lookup_fmap, lookup_seq_lt by exact Hc. reflexivity.
    + exact Hf.
Qed.

Lemma replicate_rows_inv (n_f n_el r c' f' : nat) :
  flat_map (fun c => replicate n_f c) (seq 0 n_el) !! r = Some c' ->
  flat_map (fun _ : nat => seq 0 n_f) (seq 0 n_el) !! r = Some f' ->
  r = (c' * n_f + f')%nat /\ (f' < n_f)%nat /\ (c' < n_el)%nat.
Proof.
  intros Hc Hf. rewrite flat_map_concat_map in Hc.
  apply (concat_rows_inv n_f) in Hc as (c & f & l & -> & Hlt & Hl & Hx).
  - rewrite list_lookup_fmap in Hl.
    destruct (seq 0 n_el !! c) as [c0|] eqn:Hc0; [| discriminate].
    apply lookup_seq in Hc0 as [-> Hc0]. simpl in Hl. injection Hl as <-.
    apply lookup_replicate in Hx as [-> _].
    destruct (lookup_replicate_rows n_f n_el c f Hc0 Hlt) as [_ Hies].
    rewrite Hies in Hf. injection Hf as <-. auto.
  - apply Forall_forall. intros l Hl. apply list_elem_of_In, in_map_iff in Hl
      as (x & <- & _). apply length_replicate.
Qed.

Lemma option_bind_some {A B : Type} (m : option A) (k : A -> option B) (b : B) :
  m ≫= k = Some b -> exists a, m = Some a /\ k a = Some b.
Proof. destruct m as [a|]; simpl; [eauto | discriminate]. Qed.

Lemma setup_facet_dofs_slot (env : facet_env) (econn econn' : list (list Z))
    (dim : nat) (facet_desc facet_perms : list (list nat)) (offset : Z)
    (n_dof : nat) (all_dofs : list (list Z)) (remap : list Z) :
  _setup_facet_dofs env econn dim facet_desc facet_perms offset
    = Ok (econn', (n_dof, all_dofs, remap)) ->
  NoDup (concat facet_desc) ->
  forall c f j g k col,
    (f < n_facets env dim)%nat ->
    facet_slot env facet_desc facet_perms c f j = Some (g, k, col) ->
    exists fc n_dof_per_facet,
      head (map (@length nat) facet_desc) = Some n_dof_per_facet /\
      remap !! g = Some fc /\
      lookup2 econn' c col
        = Some (add_int32 offset
                  (int32 (Z.of_nat n_dof_per_facet * fc + Z.of_nat k))).
Proof.
  intros H Hnd c f j g k col Hf Hslot.
  unfold _setup_facet_dofs in H. fold (n_facets env dim) in H.
  set (n_f := n_facets env dim) in *.
  apply bind_ok in H as (n & Hn & H).
  apply bind_ok in H as (remap0 & Hremap & H).
  apply bind_ok in H as (offs_g & Hoffs & H).
  apply bind_ok in H as (indices & Hindices & H).
  apply bind_ok in H as (foc & Hfoc & H).
  apply bind_ok in H as (ori & Hori & H).
  apply bind_ok in H as (perms & Hperms & H).
  apply bind_ok in H as (iep & Hiep & H).
  apply bind_ok in H as (rhs & Hrhs & H).
  apply bind_ok in H as (e1 & Hassign & H).
  apply bind_ok in H as (u & _ & H).
  injection H as -> _ _ ->.
  unfold facet_slot in Hslot.
  apply option_bind_some in Hslot as (gc & Hgc & Hslot).
  apply option_bind_some in Hslot as (o & Ho & Hslot).
  apply option_bind_some in Hslot as (g' & Hg & Hslot).
  apply option_bind_some in Hslot as (orr & Horr & Hslot).
  apply option_bind_some in Hslot as (p & Hp & Hslot).
  apply option_bind_some in Hslot as (k' & Hk & Hslot).
  apply option_bind_some in Hslot as (d & Hd & Hslot).
  apply option_bind_some in Hslot as (col' & Hcol & Hslot).
  injection Hslot as -> -> ->.
  set (aux := map (fun o : nat => map (fun f : nat => (o + f)%nat) (seq 0 n_f))
                  offs_g) in *.
  assert (Hc : (c < length (region_cells env))%nat)
    by (eapply lookup_lt_Some; exact Hgc).
  pose proof (take_ok _ _ _ Hoffs) as Foffs.
  destruct (Forall2_lookup_l _ _ _ c gc Foffs Hgc) as (o' & Ho' & Ho'').
  rewrite Ho in Ho''. injection Ho'' as <-.
  (* the rows of [aux] and of [indices] *)
  assert (Haux_len : Forall (fun l => length l = n_f) aux).
  { apply Forall_forall. intros l Hl.
    apply list_elem_of_In, in_map_iff in Hl as (x & <- & _).
    rewrite length_map, length_seq. reflexivity. }
  assert (Haux_c : aux !! c = Some (map (fun f : nat => (o + f)%nat) (seq 0 n_f))).
  { unfold aux. rewrite list_lookup_fmap, Ho'. reflexivity. }
  assert (Haux_f : map (fun f : nat => (o + f)%nat) (seq 0 n_f) !! f
                   = Some (o + f)%nat).
  { rewrite list_lookup_fmap, lookup_seq_lt by exact Hf. reflexivity. }
  assert (Haux_r : concat aux !! (c * n_f + f)%nat = Some (o + f)%nat).
  { rewrite (lookup_concat_rows n_f _ c f _ Haux_len Haux_c Hf). exact Haux_f. }
  pose proof (take2_ok _ _ _ Hindices) as Find.
  destruct (Forall2_lookup_l _ _ _ c _ Find Haux_c) as (irow & Hirow & Firow).
  assert (Hind_len : Forall (fun l => length l = n_f) indices).
  { apply Forall_forall. intros l Hl. apply list_elem_of_lookup in Hl as [i Hi].
    destruct (Forall2_lookup_r _ _ _ i l Find Hi) as (a & Ha & Fa).
    rewrite <- (Forall2_length _ _ _ Fa). rewrite Forall_forall in Haux_len.
    apply Haux_len. eapply list_elem_of_lookup_2. exact Ha. }
  destruct (Forall2_lookup_l _ _ _ f _ Firow Haux_f) as (g' & Hg' & Hg'').
  rewrite Hg in Hg''. injection Hg'' as <-.
  assert (Hind_r : concat indices !! (c * n_f + f)%nat = Some g).
  { rewrite (lookup_concat_rows n_f _ c f irow Hind_len Hirow Hf). exact Hg'. }
  (* the facet, its orientation and its permutation at row [c * n_f + f] *)
  destruct (Forall2_lookup_l _ _ _ _ _ (take_ok _ _ _ Hfoc) Hind_r)
    as (fc & Hfc & Hremap_g).
  destruct (Forall2_lookup_l _ _ _ _ _ (take_ok _ _ _ Hori) Haux_r)
    as (orr' & Hori_r & Horr').
  rewrite Horr in Horr'. injection Horr' as <-.
  destruct (Forall2_lookup_l _ _ _ _ _ (take_ok _ _ _ Hperms) Hori_r)
    as (p' & Hperms_r & Hp').
  rewrite Hp in Hp'. injection Hp' as <-.
  assert (Hgd : add_offset offset (expand_nodes_to_dofs foc n)
                  !! (c * n_f + f)%nat
                = Some (map (add_int32 offset)
                          (map (fun k => int32 (Z.of_nat n * fc + Z.of_nat k))
                               (seq 0 n)))).
  { unfold add_offset, expand_nodes_to_dofs.
    rewrite !list_lookup_fmap, Hfc. reflexivity. }
  destruct (take_rows_ok _ _ _ Hrhs _ _ _ Hgd Hperms_r) as (vals & Hvals & Fvals).
  destruct (Forall2_lookup_l _ _ _ j k Fvals Hk) as (v & Hv & Hv').
  rewrite !list_lookup_fmap in Hv'.
  destruct (seq 0 n !! k) as [k0|] eqn:Hseq; [| discriminate].
  apply lookup_seq in Hseq as [-> Hkn]. simpl in Hv'. injection Hv' as <-.
  (* the destination of the write *)
  destruct (lookup_replicate_rows n_f _ c f Hc Hf) as [Hiel Hies].
  destruct (Forall2_lookup_l _ _ _ _ _ (take_ok _ _ _ Hiep) Hies)
    as (d' & Hiep_r & Hd').
  rewrite Hd in Hd'. injection Hd' as <-.
  exists fc, n. split; [| split; [exact Hremap_g |]].
  - destruct facet_desc as [|d0 ?]; [discriminate |]. simpl in *.
    injection Hn as <-. reflexivity.
  - apply assign_rows_lookup in Hassign as [_ Hin].
    apply (Hin (c * n_f + f)%nat c d vals j col _ Hiel Hiep_r Hvals Hcol Hv).
    + eapply NoDup_concat_row; [exact Hnd | exact Hd].
    + intros r' c' cols' Hne Hr' Hcols'.
      destruct (decide (c' = c)) as [-> | Hcc]; [right | left; exact Hcc].
      destruct (Forall2_lookup_r _ _ _ r' cols' (take_ok _ _ _ Hiep) Hcols')
        as (f' & Hf' & Hfd').
      destruct (replicate_rows_inv _ _ _ _ _ Hr' Hf') as (-> & Hf'lt & _).
      apply (NoDup_concat_disjoint facet_desc f f' d cols' col Hnd Hd Hfd').
      * intros ->. apply Hne. reflexivity.
      * eapply list_elem_of_lookup_2. exact Hcol.
Qed.

(** C1.  DOF sharing: when two cells (or two local facets) carry the same
    mesh facet [g], the slots that stand for the same node [k] of that facet
    hold the same global DOF id once [_setup_facet_dofs] has written the
    connectivity, whichever orientation, hence permutation, each cell used.
    The columns listed in [facet_desc] are pairwise distinct, as the node
    descriptor of a reference cell has them. *)
Theorem setup_facet_dofs_shared (env : facet_env) (econn econn' : list (list Z))
    (dim : nat) (facet_desc facet_perms : list (list nat)) (offset : Z)
    (out : nat * list (list Z) * list Z) :
  _setup_facet_dofs env econn dim facet_desc facet_perms offset
    = Ok (econn', out) ->
  NoDup (concat facet_desc) ->
  forall c1 f1 j1 c2 f2 j2 g k col1 col2,
    (f1 < n_facets env dim)%nat -> (f2 < n_facets env dim)%nat ->
    facet_slot env facet_desc facet_perms c1 f1 j1 = Some (g, k, col1) ->
    facet_slot env facet_desc facet_perms c2 f2 j2 = Some (g, k, col2) ->
    exists dof, lookup2 econn' c1 col1 = Some dof /\
                lookup2 econn' c2 col2 = Some dof.
Proof.
  intros H Hnd c1 f1 j1 c2 f2 j2 g k col1 col2 Hf1 Hf2 Hs1 Hs2.
  destruct out as [[n_dof all_dofs] remap].
  destruct (setup_facet_dofs_slot _ _ _ _ _ _ _ _ _ _ H Hnd _ _ _ _ _ _ Hf1 Hs1)
    as (fc1 & n1 & Hn1 & Hr1 & Hl1).
  destruct (setup_facet_dofs_slot _ _ _ _ _ _ _ _ _ _ H Hnd _ _ _ _ _ _ Hf2 Hs2)
    as (fc2 & n2 & Hn2 & Hr2 & Hl2).
  rewrite Hn1 in Hn2. injection Hn2 as <-.
  rewrite Hr1 in Hr2. injection Hr2 as <-.
  eexists. split; [exact Hl1 | exact Hl2].
Qed.

Lemma two_quads_desc_NoDup : NoDup (concat two_quads_desc).
Proof. apply (bool_decide_unpack _). vm_compute. exact I. Qed.

Lemma setup_facet_dofs_shared_witness :
  exists dof, lookup2 two_quads_econn 0 6 = Some dof /\
              lookup2 two_quads_econn 1 11 = Some dof.
Proof.
  apply (setup_facet_dofs_shared two_quads
           [[0; 1; 4; 3; 0; 0; 0; 0; 0; 0; 0; 0];
            [1; 2; 5; 4; 0; 0; 0; 0; 0; 0; 0; 0]]
           two_quads_econn 1 two_quads_desc two_quads_perms 6
           (14%nat,
            [[6; 7]; [8; 9]; [10; 11]; [12; 13]; [14; 15]; [16; 17]; [18; 19]],
            [0; 1; 2; 3; 4; 5; 6])
           eq_refl two_quads_desc_NoDup
           0%nat 1%nat 0%nat 1%nat 3%nat 1%nat 1%nat 0%nat 6%nat 11%nat);
    [cbv; lia | cbv; lia | reflexivity | reflexivity].
Defined.

End FieldsNodalProofs.

(** * Properties of [refine_hanging.py] *)

Module RefineHangingProofs.
Import RefineHanging RefineHangingSpec.
Import FieldsNodalProofs.

(** ** Sorted index sets *)

Lemma elem_of_Lfilter {A : Type} (p : A -> bool) (l : list A) (x : A) :
  x ∈ List.filter p l <-> x ∈ l /\ p x = true.
Proof. rewrite !list_elem_of_In. apply filter_In. Qed.

Lemma elem_of_unique (l : list nat) (x : nat) : x ∈ unique l <-> x ∈ l.
Proof.
  unfold unique. rewrite elem_of_Lfilter, bool_decide_eq_true. split.
  - intros [_ H]. exact H.
  - intros H. split; [| exact H]. apply elem_of_seq. split; [lia |].
    assert (x <= list_max l)%nat; [| lia].
    pose proof (proj1 (list_max_le l (list_max l)) (Nat.le_refl _)) as Hall.
    rewrite List.Forall_forall in Hall. apply Hall, list_elem_of_In, H.
Qed.

Lemma elem_of_intersect1d (a b : list nat) (x : nat) :
  x ∈ intersect1d a b <-> x ∈ a /\ x ∈ b.
Proof.
  unfold intersect1d.
  rewrite elem_of_Lfilter, elem_of_unique, bool_decide_eq_true. tauto.
Qed.

Lemma nonzero_from_lookup_searchsorted (flag : list bool) (k x : nat) :
  x ∈ nonzero_from k flag ->
  nonzero_from k flag !! searchsorted (nonzero_from k flag) x = Some x.
Proof.
  revert k. induction flag as [|b flag IH]; intros k Hx; simpl in *.
  - inversion Hx.
  - destruct b; [| exact (IH _ Hx)].
    apply elem_of_cons in Hx as [-> | Hx]; simpl.
    + rewrite Nat.ltb_irrefl. reflexivity.
    + pose proof Hx as Hx'. apply elem_of_nonzero_from in Hx' as (j & -> & _).
      replace (k <? S k + j)%nat with true by (symmetry; apply Nat.ltb_lt; lia).
      simpl. exact (IH _ Hx).
Qed.

Lemma nonzero_lookup_searchsorted (flag : list bool) (x : nat) :
  flag !! x = Some true ->
  nonzero flag !! searchsorted (nonzero flag) x = Some x.
Proof.
  intros H. apply nonzero_from_lookup_searchsorted, elem_of_nonzero, H.
Qed.

(** ** Regions and incidence *)

Lemma take_elem_of {A : Type} (a : list A) (idx : list nat) (xs : list A)
    (x : A) :
  take_ a idx = Ok xs ->
  x ∈ xs <-> exists i, i ∈ idx /\ a !! i = Some x.
Proof.
  intros H. apply take_ok in H. induction H as [|i y idx xs Hy _ IH].
  - split; [intros Hx; inversion Hx | intros (i & Hi & _); inversion Hi].
  - rewrite elem_of_cons, IH. split.
    + intros [-> | (i' & Hi' & Hx)].
      * exists i. split; [apply elem_of_cons; auto | exact Hy].
      * exists i'. split; [apply elem_of_cons; auto | exact Hx].
    + intros (i' & Hi' & Hx). apply elem_of_cons in Hi' as [-> | Hi'].
      * left. congruence.
      * right. eauto.
Qed.

Lemma elem_of_concat {A : Type} (ls : list (list A)) (x : A) :
  x ∈ concat ls <-> exists l, l ∈ ls /\ x ∈ l.
Proof.
  rewrite list_elem_of_In, in_concat. split; intros (l & H1 & H2); exists l;
    rewrite ?list_elem_of_In in *; auto.
Qed.

Lemma create_region_ok (d : domain) (cells : list nat) (r : region) :
  create_region d cells = Ok r ->
  rcells r = cells /\
  forall f, f ∈ rfacets r <->
            exists c fs, c ∈ cells /\ cell_facets d !! c = Some fs /\ f ∈ fs.
Proof.
  unfold create_region. intros H. apply bind_ok in H as (fs & Hfs & H).
  injection H as <-. simpl. split; [reflexivity |]. intros f.
  rewrite elem_of_unique, elem_of_concat. split.
  - intros (l & Hl & Hf). apply (take_elem_of _ _ _ l Hfs) in Hl as (c & Hc & Hl).
    eauto.
  - intros (c & l & Hc & Hl & Hf). exists l. split; [| exact Hf].
    apply (take_elem_of _ _ _ l Hfs). eauto.
Qed.

Lemma create_region_total (d : domain) (cells : list nat) :
  Forall (fun c => (c < length (cell_facets d))%nat) cells ->
  exists r, create_region d cells = Ok r.
Proof.
  intros Hall. unfold create_region.
  assert (Htake : exists fs, take_ (cell_facets d) cells = Ok fs).
  { induction Hall as [|c cells Hc _ [fs IH]]; simpl; [eauto |].
    destruct (lookup_lt_is_Some_2 _ _ Hc) as [x Hx].
    unfold getitem. rewrite Hx, IH. simpl. eauto. }
  destruct Htake as [fs ->]. simpl. eauto.
Qed.

Lemma elem_of_incident_cells (d : domain) (f c : nat) :
  c ∈ incident_cells d f <->
  exists fs, cell_facets d !! c = Some fs /\ f ∈ fs.
Proof.
  unfold incident_cells. rewrite elem_of_Lfilter, elem_of_seq. split.
  - intros [_ H]. destruct (cell_facets d !! c) as [fs|]; [| discriminate].
    apply bool_decide_eq_true in H. eauto.
  - intros (fs & Hfs & Hf). split.
    + apply lookup_lt_Some in Hfs. lia.
    + rewrite Hfs. apply bool_decide_eq_true. exact Hf.
Qed.

Lemma index_of_elem (x : nat) (l : list nat) :
  x ∈ l -> exists i, index_of x l = Ok i /\ l !! i = Some x.
Proof.
  induction l as [|y l IH]; intros Hx; [inversion Hx |]. simpl.
  destruct (x =? y)%nat eqn:Hxy.
  - apply Nat.eqb_eq in Hxy as ->. exists O. auto.
  - apply Nat.eqb_neq in Hxy. apply elem_of_cons in Hx as [-> | Hx]; [congruence |].
    destruct (IH Hx) as (i & -> & Hi). exists (S i). auto.
Qed.

(** ** The steps of [find_level_interface] *)

Lemma offsets_from_head (o : nat) (groups : list (list nat)) :
  exists t, offsets_from o groups = o :: t.
Proof. destruct groups; simpl; eauto. Qed.

Lemma diff_offsets_from (o : nat) (groups : list (list nat)) :
  diff (offsets_from o groups) = map (fun g => Z.of_nat (length g)) groups.
Proof.
  revert o. induction groups as [|g groups IH]; intros o; [reflexivity |].
  simpl. specialize (IH (o + length g)%nat).
  destruct (offsets_from_head (o + length g) groups) as [t Ht].
  rewrite Ht in *. rewrite IH. f_equal. lia.
Qed.

Lemma mapM_map {A B : Type} (g : A -> result B) (h : A -> B) (l : list A) :
  (forall x, x ∈ l -> g x = Ok (h x)) ->
  mapM (M := result) g l = Ok (map h l).
Proof.
  induction l as [|x l IH]; intros Hg; [reflexivity |]. simpl.
  rewrite (Hg x) by (apply elem_of_cons; auto). simpl.
  rewrite IH by (intros y Hy; apply Hg, elem_of_cons; auto). reflexivity.
Qed.

Lemma local_id_incident (d : domain) (f c : nat) :
  c ∈ incident_cells d f ->
  (fs ← getitem (cell_facets d) c; index_of f fs) = Ok (local_id d f c) /\
  exists fs, cell_facets d !! c = Some fs /\ fs !! local_id d f c = Some f.
Proof.
  intros Hc. apply elem_of_incident_cells in Hc as (fs & Hfs & Hf).
  unfold local_id, getitem. rewrite Hfs. simpl.
  destruct (index_of_elem f fs Hf) as (i & -> & Hi). eauto.
Qed.

Lemma get_local_ids_groups (d : domain) (facets : list nat) :
  forall pre : list nat,
  get_local_ids d facets (pre ++ concat (map (incident_cells d) facets))
                (offsets_from (length pre) (map (incident_cells d) facets))
  = Ok (concat (map (fun f => map (local_id d f) (incident_cells d f)) facets)).
Proof.
  induction facets as [|f facets IH]; intros pre; [reflexivity |].
  simpl. specialize (IH (pre ++ incident_cells d f)).
  rewrite length_app in IH.
  destruct (offsets_from_head (length pre + length (incident_cells d f))
              (map (incident_cells d) facets)) as [t Ht].
  rewrite Ht in *.
  assert (Hslice : slice (pre ++ incident_cells d f ++
                          concat (map (incident_cells d) facets))
                         (length pre)
                         (length pre + length (incident_cells d f))
                   = incident_cells d f).
  { unfold slice. rewrite drop_app_length.
    replace (length pre + length (incident_cells d f) - length pre)%nat
      with (length (incident_cells d f)) by lia.
    apply take_app_length. }
  rewrite Hslice.
  rewrite (mapM_map _ (local_id d f))
    by (intros c Hc; apply local_id_incident, Hc).
  simpl. rewrite app_assoc, IH. reflexivity.
Qed.

Lemma reshape2_concat {A : Type} (g : A -> list nat) (l : list A) :
  Forall (fun x => length (g x) = 2%nat) l ->
  reshape2 (concat (map g l)) = Ok (map (fun x => pair_of (g x)) l).
Proof.
  induction 1 as [|x l Hx _ IH]; [reflexivity |]. simpl.
  destruct (g x) as [|a [|b [|? ?]]]; try discriminate. simpl.
  rewrite IH. reflexivity.
Qed.

Lemma where_flag_map {A : Type} (refine_flag : list bool)
    (c x : A -> nat * nat) (l : list A) :
  where_flag refine_flag (map c l) (map x l)
  = if forallb (fun a => in_range refine_flag (c a)) l
    then Ok (map (fun a =>
                    (if flagged refine_flag (c a).1 then (x a).1 else (x a).2,
                     if flagged refine_flag (c a).2 then (x a).1 else (x a).2))
                 l)
    else Raise IndexError.
Proof.
  induction l as [|a l IH]; [reflexivity |]. simpl. rewrite IH.
  unfold in_range, flagged, getitem.
  destruct (c a) as [c0 c1], (x a) as [x0 x1]. simpl.
  destruct (refine_flag !! c0) as [f0|] eqn:H0.
  - apply lookup_lt_Some in H0 as H0'. apply Nat.ltb_lt in H0'. rewrite H0'.
    simpl. destruct (refine_flag !! c1) as [f1|] eqn:H1.
    + apply lookup_lt_Some in H1 as H1'. apply Nat.ltb_lt in H1'. rewrite H1'.
      simpl. destruct (forallb _ l); reflexivity.
    + apply lookup_ge_None in H1. apply Nat.ltb_ge in H1. rewrite H1.
      reflexivity.
  - apply lookup_ge_None in H0. apply Nat.ltb_ge in H0. rewrite H0.
    reflexivity.
Qed.

Lemma c_left_map {A : Type} (k : A -> nat) (x : A -> nat * nat) (l : list A) :
  c_left (map k l) (map x l) = Ok (map (fun a => (k a, (x a).1, (x a).2)) l).
Proof.
  induction l as [|a l IH]; [reflexivity |]. simpl.
  destruct (x a) as [x0 x1]. rewrite IH. reflexivity.
Qed.

Lemma c_right_map {A : Type} (x : A -> nat * nat) (k : A -> nat) (l : list A) :
  c_right (map x l) (map k l) = Ok (map (fun a => ((x a).1, (x a).2, k a)) l).
Proof.
  induction l as [|a l IH]; [reflexivity |]. simpl.
  destruct (x a) as [x0 x1]. rewrite IH. reflexivity.
Qed.

(** ** [find_level_interface] in closed form *)

Lemma pair_of_map (h : nat -> nat) (l : list nat) :
  length l = 2%nat -> pair_of (map h l) = (h (pair_of l).1, h (pair_of l).2).
Proof. destruct l as [|a [|b [|? ?]]]; try discriminate. reflexivity. Qed.

Lemma find_level_interface_eq (d : domain) (refine_flag : list bool)
    (R0 R1 : region) :
  existsb id refine_flag = true ->
  create_region d (nonzero (map negb refine_flag)) = Ok R0 ->
  create_region d (nonzero refine_flag) = Ok R1 ->
  let F := intersect1d (rfacets R0) (rfacets R1) in
  find_level_interface d refine_flag
  = if forallb (fun f => (length (incident_cells d f) =? 2)%nat) F then
      if forallb (fun f => in_range refine_flag (pair_of (incident_cells d f))) F
      then Ok (map (facets_row d refine_flag) F,
               map (cells_row d refine_flag (rcells R0)) F, Some R0, Some R1)
      else Raise IndexError
    else Raise ValueError.
Proof.
  intros Hany HR0 HR1 F. unfold find_level_interface.
  rewrite Hany, HR0, HR1. simpl. fold F. unfold get_incident.
  rewrite diff_offsets_from.
  assert (Hassert : forallb (Z.eqb 2)
                      (map (fun g => Z.of_nat (length g))
                           (map (incident_cells d) F))
                    = forallb (fun f => (length (incident_cells d f) =? 2)%nat) F).
  { induction F as [|f F' IH]; [reflexivity |]. cbn [forallb map].
    rewrite IH. f_equal.
    destruct (Nat.eqb_spec (length (incident_cells d f)) 2) as [-> | Hne].
    - reflexivity.
    - apply Z.eqb_neq. lia. }
  rewrite Hassert. clear Hassert.
  destruct (forallb (fun f => (length (incident_cells d f) =? 2)%nat) F)
    eqn:Hlen; [| reflexivity].
  simpl.
  assert (Hall : Forall (fun f => length (incident_cells d f) = 2%nat) F).
  { apply Forall_forall. intros f Hf. rewrite forallb_forall in Hlen.
    apply Nat.eqb_eq, Hlen, list_elem_of_In, Hf. }
  pose proof (get_local_ids_groups d F []) as Hloc. simpl in Hloc.
  rewrite Hloc. clear Hloc. simpl.
  rewrite (reshape2_concat (fun f => map (local_id d f) (incident_cells d f)))
    by (eapply Forall_impl; [exact Hall |]; intros f Hf; simpl;
        rewrite length_map; exact Hf).
  simpl. rewrite (reshape2_concat (incident_cells d)) by exact Hall. simpl.
  assert (Hids : map (fun f => pair_of (map (local_id d f) (incident_cells d f))) F
                 = map (local_ids d) F).
  { apply map_ext_Forall. eapply Forall_impl; [exact Hall |].
    intros f Hf. apply pair_of_map. exact Hf. }
  rewrite Hids. clear Hids.
  rewrite (where_flag_map refine_flag (fun f => pair_of (incident_cells d f))
             (local_ids d) F).
  destruct (forallb (fun f => in_range refine_flag (pair_of (incident_cells d f))) F)
    eqn:Hrange; [| reflexivity].
  simpl.
  rewrite (where_flag_map refine_flag (fun f => pair_of (incident_cells d f))
             (fun f => pair_of (incident_cells d f)) F).
  rewrite Hrange. simpl.
  rewrite <- (map_id F) at 1. rewrite c_left_map. simpl.
  rewrite map_map. rewrite c_right_map. simpl.
  reflexivity.
Qed.

(** ** Interface facets *)

Lemma elem_of_nonzero_negb (refine_flag : list bool) (c : nat) :
  c ∈ nonzero (map negb refine_flag) <-> refine_flag !! c = Some false.
Proof.
  rewrite elem_of_nonzero, list_lookup_fmap.
  destruct (refine_flag !! c) as [[|]|]; simpl; split; congruence.
Qed.

Lemma elem_of_interface (d : domain) (refine_flag : list bool) (R0 R1 : region)
    (f : nat) :
  create_region d (nonzero (map negb refine_flag)) = Ok R0 ->
  create_region d (nonzero refine_flag) = Ok R1 ->
  f ∈ intersect1d (rfacets R0) (rfacets R1) <-> is_interface d refine_flag f.
Proof.
  intros HR0 HR1. apply create_region_ok in HR0 as [_ HR0].
  apply create_region_ok in HR1 as [_ HR1].
  rewrite elem_of_intersect1d, HR0, HR1. unfold is_interface.
  split; intros [(c0 & fs0 & Hc0 & H0) (c1 & fs1 & Hc1 & H1)]; split.
  - exists c0, fs0. apply elem_of_nonzero_negb in Hc0. auto.
  - exists c1, fs1. apply elem_of_nonzero in Hc1. auto.
  - exists c0, fs0. split; [apply elem_of_nonzero_negb, Hc0 | exact H0].
  - exists c1, fs1. split; [apply elem_of_nonzero, Hc1 | exact H1].
Qed.

Lemma regions_total (d : domain) (refine_flag : list bool) :
  length refine_flag = length (cell_facets d) ->
  exists R0 R1,
    create_region d (nonzero (map negb refine_flag)) = Ok R0 /\
    create_region d (nonzero refine_flag) = Ok R1.
Proof.
  intros Hlen.
  destruct (create_region_total d (nonzero (map negb refine_flag))) as [R0 HR0].
  { apply Forall_forall. intros c Hc. apply elem_of_nonzero_negb in Hc.
    apply lookup_lt_Some in Hc. lia. }
  destruct (create_region_total d (nonzero refine_flag)) as [R1 HR1].
  { apply Forall_forall. intros c Hc. apply elem_of_nonzero in Hc.
    apply lookup_lt_Some in Hc. lia. }
  eauto.
Qed.

Lemma find_level_interface_regions (d : domain) (refine_flag : list bool)
    (out : list (nat * nat * nat) * list (nat * nat * nat)
           * option region * option region) :
  existsb id refine_flag = true ->
  find_level_interface d refine_flag = Ok out ->
  exists R0 R1,
    create_region d (nonzero (map negb refine_flag)) = Ok R0 /\
    create_region d (nonzero refine_flag) = Ok R1.
Proof.
  intros Hany H. unfold find_level_interface in H. rewrite Hany in H.
  simpl in H. apply bind_ok in H as (R0 & HR0 & H).
  apply bind_ok in H as (R1 & HR1 & _). eauto.
Qed.

Lemma find_level_interface_out (d : domain) (refine_flag : list bool)
    (facets cells : list (nat * nat * nat)) (r0 r1 : option region) :
  existsb id refine_flag = true ->
  find_level_interface d refine_flag = Ok (facets, cells, r0, r1) ->
  exists R0 R1,
    r0 = Some R0 /\ r1 = Some R1 /\
    rcells R0 = nonzero (map negb refine_flag) /\
    rcells R1 = nonzero refine_flag.
Proof.
  intros Hany H.
  destruct (find_level_interface_regions d refine_flag _ Hany H)
    as (R0 & R1 & HR0 & HR1).
  rewrite (find_level_interface_eq d refine_flag R0 R1 Hany HR0 HR1) in H.
  destruct (forallb _ _); [| discriminate].
  destruct (forallb _ _); [| discriminate].
  injection H as _ _ <- <-. exists R0, R1.
  apply create_region_ok in HR0 as [HR0 _].
  apply create_region_ok in HR1 as [HR1 _]. auto.
Qed.

Lemma find_level_interface_no_flag (d : domain) (refine_flag : list bool) :
  existsb id refine_flag = false ->
  find_level_interface d refine_flag = Ok ([], [], None, None).
Proof. intros H. unfold find_level_interface. rewrite H. reflexivity. Qed.

(** C8.  With at least one flagged cell (and one flag per cell), the
    assertion on the number of incident cells decides the outcome: when
    every interface facet has exactly two incident cells the call returns,
    and when some interface facet has another number of incident cells the
    call raises the error of the failed assertion instead of returning. *)
Theorem find_level_interface_two_cells (d : domain) (refine_flag : list bool) :
  length refine_flag = length (cell_facets d) ->
  existsb id refine_flag = true ->
  ((forall f, is_interface d refine_flag f ->
              length (incident_cells d f) = 2%nat) ->
   exists out, find_level_interface d refine_flag = Ok out) /\
  ((exists f, is_interface d refine_flag f /\
              length (incident_cells d f) <> 2%nat) ->
   find_level_interface d refine_flag = Raise ValueError).
Proof.
  intros Hlen Hany. destruct (regions_total d refine_flag Hlen)
    as (R0 & R1 & HR0 & HR1).
  rewrite (find_level_interface_eq d refine_flag R0 R1 Hany HR0 HR1).
  split.
  - intros Htwo.
    assert (Hall : forall f, f ∈ intersect1d (rfacets R0) (rfacets R1) ->
                             length (incident_cells d f) = 2%nat).
    { intros f Hf. apply Htwo, (elem_of_interface d refine_flag R0 R1 f HR0 HR1), Hf. }
    rewrite (proj2 (forallb_forall _ _)).
    + rewrite (proj2 (forallb_forall _ _)); [eauto |].
      intros f Hf. apply list_elem_of_In in Hf. specialize (Hall f Hf).
      destruct (incident_cells d f) as [|a [|b [|? ?]]] eqn:Hinc;
        try discriminate.
      assert (Ha : a ∈ incident_cells d f) by (rewrite Hinc, !elem_of_cons; auto).
      assert (Hb : b ∈ incident_cells d f) by (rewrite Hinc, !elem_of_cons; auto).
      apply elem_of_incident_cells in Ha as (fa & Ha & _).
      apply elem_of_incident_cells in Hb as (fb & Hb & _).
      apply lookup_lt_Some in Ha, Hb. unfold in_range. simpl.
      apply andb_true_iff. split; apply Nat.ltb_lt; lia.
    + intros f Hf. apply Nat.eqb_eq, Hall, list_elem_of_In, Hf.
  - intros (f & Hf & Hne).
    apply (elem_of_interface d refine_flag R0 R1 f HR0 HR1) in Hf.
    destruct (forallb _ _) eqn:Hall; [| reflexivity].
    rewrite forallb_forall in Hall. apply list_elem_of_In, Hall in Hf.
    apply Nat.eqb_eq in Hf. contradiction.
Qed.

(** What the rows of a successful call look like. *)
Lemma interface_rows (d : domain) (refine_flag : list bool)
    (facets cells : list (nat * nat * nat)) (r0 r1 : option region) :
  existsb id refine_flag = true ->
  find_level_interface d refine_flag = Ok (facets, cells, r0, r1) ->
  length facets = length cells /\
  forall i f l1 l2 c1 c2 k,
    facets !! i = Some (f, l1, l2) -> cells !! i = Some (c1, c2, k) ->
    refine_flag !! c1 = Some true /\
    refine_flag !! c2 = Some false /\
    (exists fs, cell_facets d !! c1 = Some fs /\ fs !! l1 = Some f) /\
    (exists fs, cell_facets d !! c2 = Some fs /\ fs !! l2 = Some f) /\
    nonzero (map negb refine_flag) !! k = Some c2.
Proof.
  intros Hany H.
  destruct (find_level_interface_regions d refine_flag _ Hany H)
    as (R0 & R1 & HR0 & HR1).
  rewrite (find_level_interface_eq d refine_flag R0 R1 Hany HR0 HR1) in H.
  destruct (forallb (fun f => (length (incident_cells d f) =? 2)%nat) _)
    eqn:Hlen; [| discriminate].
  destruct (forallb (fun f => in_range refine_flag _) _) eqn:Hrange;
    [| discriminate].
  injection H as <- <- _ _. split; [rewrite !length_map; reflexivity |].
  intros i f l1 l2 c1 c2 k Hf Hc.
  rewrite list_lookup_fmap in Hf, Hc.
  destruct (intersect1d (rfacets R0) (rfacets R1) !! i) as [f0|] eqn:Hi;
    [| discriminate].
  simpl in Hf, Hc. apply list_elem_of_lookup_2 in Hi.
  rewrite forallb_forall in Hlen. rewrite forallb_forall in Hrange.
  pose proof (Hlen f0 (proj1 (list_elem_of_In _ _) Hi)) as Hlen0.
  pose proof (Hrange f0 (proj1 (list_elem_of_In _ _) Hi)) as Hrange0.
  apply Nat.eqb_eq in Hlen0.
  apply (elem_of_interface d refine_flag R0 R1 f0 HR0 HR1) in Hi
    as [(c0 & fs0 & Hc0 & Hfs0 & Hin0) (c1' & fs1 & Hc1 & Hfs1 & Hin1)].
  assert (Hmem0 : c0 ∈ incident_cells d f0)
    by (apply elem_of_incident_cells; eauto).
  assert (Hmem1 : c1' ∈ incident_cells d f0)
    by (apply elem_of_incident_cells; eauto).
  apply create_region_ok in HR0 as [HR0c _].
  unfold facets_row, cells_row, local_ids, oriented, flagged in Hf, Hc.
  destruct (incident_cells d f0) as [|a [|b [|? ?]]] eqn:Hinc; try discriminate.
  assert (Ha : a ∈ incident_cells d f0) by (rewrite Hinc, !elem_of_cons; auto).
  assert (Hb : b ∈ incident_cells d f0) by (rewrite Hinc, !elem_of_cons; auto).
  destruct (local_id_incident d f0 a Ha) as [_ Hla].
  destruct (local_id_incident d f0 b Hb) as [_ Hlb].
  simpl in Hf, Hc. rewrite HR0c in Hc.
  assert (Hcases : (a = c0 /\ b = c1') \/ (a = c1' /\ b = c0)).
  { apply elem_of_cons in Hmem0 as [-> | Hmem0];
      apply elem_of_cons in Hmem1 as [-> | Hmem1].
    - congruence.
    - apply list_elem_of_singleton in Hmem1. auto.
    - apply list_elem_of_singleton in Hmem0. auto.
    - apply list_elem_of_singleton in Hmem0, Hmem1. congruence. }
  destruct Hcases as [[-> ->] | [-> ->]]; rewrite Hc0, Hc1 in Hf, Hc;
    simpl in Hf, Hc; injection Hf as <- <- <-; injection Hc as <- <- <-;
    (split; [exact Hc1 |]); (split; [exact Hc0 |]);
    (split; [assumption |]); (split; [assumption |]);
    apply nonzero_lookup_searchsorted; rewrite list_lookup_fmap, Hc0;
    reflexivity.
Qed.

(** C7.  Every row of the returned [cells] lists the refined cell first
    and the coarse cell second, the local facet numbers in the row of
    [facets] come in the same order, and the third entry of the row of
    [cells] is the position of the coarse cell in the list of the coarse
    cells. *)
Theorem find_level_interface_orientation (d : domain) (refine_flag : list bool)
    (facets cells : list (nat * nat * nat)) (r0 r1 : option region) :
  existsb id refine_flag = true ->
  find_level_interface d refine_flag = Ok (facets, cells, r0, r1) ->
  length facets = length cells /\
  forall i f l1 l2 c1 c2 k,
    facets !! i = Some (f, l1, l2) -> cells !! i = Some (c1, c2, k) ->
    refine_flag !! c1 = Some true /\
    refine_flag !! c2 = Some false /\
    (exists fs, cell_facets d !! c1 = Some fs /\ fs !! l1 = Some f) /\
    (exists fs, cell_facets d !! c2 = Some fs /\ fs !! l2 = Some f) /\
    nonzero (map negb refine_flag) !! k = Some c2.
Proof. exact (interface_rows d refine_flag facets cells r0 r1). Qed.

(** ** The interface of the 2 x 2 block *)

Lemma find_level_interface_two_cells_witness :
  (exists out, find_level_interface quads4 [true; false; false; false] = Ok out) /\
  find_level_interface fan3 [true; false; false] = Raise ValueError.
Proof.
  split.
  - apply (proj1 (find_level_interface_two_cells quads4
                    [true; false; false; false] eq_refl eq_refl)).
    intros f [(c0 & fs0 & Hc0 & Hfs0 & Hin0) (c1 & fs1 & Hc1 & Hfs1 & Hin1)].
    destruct c1 as [|[|[|[|c1]]]]; try discriminate Hc1.
    destruct c0 as [|[|[|[|c0]]]]; try discriminate Hc0;
      injection Hfs0 as <-; injection Hfs1 as <-; split_elems;
      try discriminate; reflexivity.
  - apply (proj2 (find_level_interface_two_cells fan3 [true; false; false]
                    eq_refl eq_refl)).
    exists 0%nat. split; [| vm_compute; discriminate].
    split; [exists 1%nat, [0; 4; 5; 6]%nat | exists 0%nat, [0; 1; 2; 3]%nat];
      (split; [reflexivity |]); (split; [reflexivity |]);
      apply elem_of_cons; left; reflexivity.
Defined.

Lemma find_level_interface_orientation_witness :
  [false; true; true; false] !! 1%nat = Some true /\
  [false; true; true; false] !! 0%nat = Some false /\
  (exists fs, cell_facets quads4 !! 1%nat = Some fs /\ fs !! 3%nat = Some 1%nat) /\
  (exists fs, cell_facets quads4 !! 0%nat = Some fs /\ fs !! 1%nat = Some 1%nat) /\
  nonzero (map negb [false; true; true; false]) !! 0%nat = Some 0%nat.
Proof.
  exact (proj2 (find_level_interface_orientation quads4
                  [false; true; true; false]
                  [(1, 3, 1); (2, 0, 2); (6, 2, 0); (7, 1, 3)]%nat
                  [(1, 0, 0); (2, 0, 0); (1, 3, 1); (2, 3, 1)]%nat
                  (Some {| rcells := [0; 3]%nat;
                           rfacets := [0; 1; 2; 3; 6; 7; 10; 11]%nat |})
                  (Some {| rcells := [1; 2]%nat;
                           rfacets := [1; 2; 4; 5; 6; 7; 8; 9]%nat |})
                  eq_refl eq_refl)
               0%nat 1%nat 3%nat 1%nat 1%nat 0%nat 0%nat eq_refl eq_refl).
Defined.

(** ** [refine_region] *)

Lemma refine_region_ok (ext : externals) (d d' : domain) (R0 R1 : region)
    (sc : option (list (nat * list Z))) :
  refine_region ext d (Some R0) (Some R1) = Ok (d', sc) ->
  exists conn0c mat0c,
    take_ (conn (dmesh d)) (rcells R0) = Ok conn0c /\
    take_ (mat_ids (dmesh d)) (rcells R0) = Ok mat0c /\
    dmesh d' = {| coors := coors (refine_submesh ext R1 (dmesh d));
                  conn := conn0c ++ conn (refine_submesh ext R1 (dmesh d));
                  mat_ids := mat0c ++ mat_ids (refine_submesh ext R1 (dmesh d));
                  desc := desc (refine_submesh ext R1 (dmesh d)) |} /\
    sc = Some (imap (fun i c => (c, sub_cells_row (length (rcells R0)) i))
                    (rcells R1)).
Proof.
  unfold refine_region. simpl. intros H.
  apply bind_ok in H as (conn0c & Hconn & H).
  apply bind_ok in H as (mat0c & Hmat & H).
  injection H as <- <-. exists conn0c, mat0c. auto.
Qed.

Lemma sub_cells_row_small (n_cell0 n_cell1 i : nat) :
  (i < n_cell1)%nat ->
  Z.of_nat n_cell0 + 4 * Z.of_nat n_cell1 <= 2 ^ 32 ->
  sub_cells_row n_cell0 i
  = map (fun k => Z.of_nat (n_cell0 + (4 * i + k))) (seq 0 4).
Proof.
  intros Hi Hbound. unfold sub_cells_row. apply map_ext_in.
  intros k Hk. apply in_seq in Hk. unfold wrap32.
  rewrite (Z.mod_small (Z.of_nat (4 * i + k))) by lia.
  rewrite Z.mod_small by lia. lia.
Qed.

(** The rows of [sub_cells].  For every flagged cell, in the order of the
    flagged cells, [refine_region] lists the cell and four child ids; the
    child ids of the [i]-th flagged cell are [n0 + 4 i, ..., n0 + 4 i + 3]
    with [n0] the number of coarse cells, so they lie past the positions
    [0 .. n0 - 1] the coarse cells take in the new mesh and no id is listed
    twice.  This is the split of a quadrilateral (or triangle). *)
Lemma refine_region_sub_cells (ext : externals) (d d' : domain)
    (R0 R1 : region) (sc : option (list (nat * list Z))) :
  refine_region ext d (Some R0) (Some R1) = Ok (d', sc) ->
  Z.of_nat (length (rcells R0)) + 4 * Z.of_nat (length (rcells R1)) <= 2 ^ 32 ->
  exists rows,
    sc = Some rows /\ length rows = length (rcells R1) /\
    forall i c, rcells R1 !! i = Some c ->
      exists children,
        rows !! i = Some (c, children) /\ length children = 4%nat /\
        forall k, (k < 4)%nat ->
          children !! k = Some (Z.of_nat (length (rcells R0)) +
                                4 * Z.of_nat i + Z.of_nat k) /\
          Z.of_nat (length (rcells R0))
            <= Z.of_nat (length (rcells R0)) + 4 * Z.of_nat i + Z.of_nat k
            < Z.of_nat (length (rcells R0)) + 4 * Z.of_nat (length (rcells R1)).
Proof.
  intros H Hbound.
  apply refine_region_ok in H as (conn0c & mat0c & _ & _ & _ & ->).
  eexists. split; [reflexivity |]. split; [apply length_imap |].
  intros i c Hc. pose proof (lookup_lt_Some _ _ _ Hc) as Hi.
  exists (sub_cells_row (length (rcells R0)) i).
  rewrite list_lookup_imap, Hc. split; [reflexivity |].
  rewrite (sub_cells_row_small _ (length (rcells R1)) i Hi Hbound).
  split; [reflexivity |]. intros k Hk. split; [| lia].
  rewrite list_lookup_fmap, lookup_seq_lt by exact Hk. simpl. f_equal. lia.
Qed.

Lemma refine_region_sub_cells_quads4 :
  exists rows,
    Some [(1%nat, [2; 3; 4; 5]); (2%nat, [6; 7; 8; 9])] = Some rows /\
    length rows = length (rcells quads4_refine) /\
    forall i c, rcells quads4_refine !! i = Some c ->
      exists children,
        rows !! i = Some (c, children) /\ length children = 4%nat /\
        forall k, (k < 4)%nat ->
          children !! k = Some (Z.of_nat (length (rcells quads4_coarse)) +
                                4 * Z.of_nat i + Z.of_nat k) /\
          Z.of_nat (length (rcells quads4_coarse))
            <= Z.of_nat (length (rcells quads4_coarse)) + 4 * Z.of_nat i
               + Z.of_nat k
            < Z.of_nat (length (rcells quads4_coarse))
              + 4 * Z.of_nat (length (rcells quads4_refine)).
Proof.
  apply (refine_region_sub_cells (sample_ext 4) quads4
           (FEDomain (sample_ext 4)
              {| coors := coors quads4_mesh ++ [[f_half; f_half]];
                 conn := [[0; 1; 4; 3]; [4; 5; 8; 7];
                          [1; 2; 5; 4]; [1; 2; 5; 4]; [1; 2; 5; 4]; [1; 2; 5; 4];
                          [3; 4; 7; 6]; [3; 4; 7; 6]; [3; 4; 7; 6]; [3; 4; 7; 6]]%nat;
                 mat_ids := [0; 0; 0; 0; 0; 0; 0; 0; 0; 0];
                 desc := "2_4" |})
           quads4_coarse quads4_refine
           (Some [(1%nat, [2; 3; 4; 5]); (2%nat, [6; 7; 8; 9])]) eq_refl).
  simpl. lia.
Defined.

(** C4.  On hexahedra the count of children is not the one of the
    template: the flagged hexahedron is split into eight cells by the
    refinement (the new mesh has the coarse cell and eight fine ones), yet
    its row of [sub_cells] lists four child ids. *)
Theorem refine_region_hex_children :
  find_level_interface hex2 [true; false]
    = Ok ([(4, 4, 0)]%nat, [(0, 1, 0)]%nat, Some hex2_coarse, Some hex2_refine) /\
  (exists d',
     refine_region (sample_ext 8) hex2 (Some hex2_coarse) (Some hex2_refine)
       = Ok (d', Some [(0%nat, [1; 2; 3; 4])]) /\
     length (conn (dmesh d')) = 9%nat) /\
  length [1; 2; 3; 4] <> template_children (desc (dmesh hex2)).
Proof.
  split; [reflexivity |]. split; [| vm_compute; discriminate].
  eexists. split; reflexivity.
Qed.

(** C5.  The cells that stay coarse are copied to the front of the new
    mesh in the order of the list of coarse cells: the row (and the material
    id) of the [k]-th coarse cell is row [k] of the new connectivity.  Hence
    for every interface record the row of the coarse neighbour in the input
    mesh is the row at its coarse-only index in the output mesh, and the
    equality [refine] asserts on these rows holds.  The vertex table of the
    new mesh is the one of the refined sub-mesh; when that refinement keeps
    the vertices of the input mesh in place, every vertex of the input mesh
    has the same coordinates in the output mesh. *)
Theorem refine_region_frame (ext : externals) (d d' : domain)
    (refine_flag : list bool) (facets cells : list (nat * nat * nat))
    (r0 r1 : option region) (sc : option (list (nat * list Z))) :
  existsb id refine_flag = true ->
  find_level_interface d refine_flag = Ok (facets, cells, r0, r1) ->
  refine_region ext d r0 r1 = Ok (d', sc) ->
  (forall k c, nonzero (map negb refine_flag) !! k = Some c ->
     (exists row, conn (dmesh d) !! c = Some row /\
                  conn (dmesh d') !! k = Some row) /\
     (exists m, mat_ids (dmesh d) !! c = Some m /\
                mat_ids (dmesh d') !! k = Some m)) /\
  (forall i c1 c2 k, cells !! i = Some (c1, c2, k) ->
     exists row, conn (dmesh d) !! c2 = Some row /\
                 conn (dmesh d') !! k = Some row) /\
  (forall rows0 rows1,
     take_ (conn (dmesh d)) (map (fun r => r.1.2) cells) = Ok rows0 ->
     take_ (conn (dmesh d')) (map (fun r => r.2) cells) = Ok rows1 ->
     all_eq rows0 rows1 = true) /\
  (forall R1 extra, r1 = Some R1 ->
     coors (refine_submesh ext R1 (dmesh d)) = coors (dmesh d) ++ extra ->
     forall v x, coors (dmesh d) !! v = Some x ->
                 coors (dmesh d') !! v = Some x).
Proof.
  intros Hany Hfli Hreg.
  destruct (find_level_interface_out d refine_flag _ _ _ _ Hany Hfli)
    as (R0 & R1 & -> & -> & HR0 & HR1).
  apply refine_region_ok in Hreg as (conn0c & mat0c & Hconn & Hmat & Hmesh & _).
  rewrite HR0 in Hconn, Hmat. apply take_ok in Hconn, Hmat.
  assert (Hcopy : forall k c, nonzero (map negb refine_flag) !! k = Some c ->
            (exists row, conn (dmesh d) !! c = Some row /\
                         conn (dmesh d') !! k = Some row) /\
            (exists m, mat_ids (dmesh d) !! c = Some m /\
                       mat_ids (dmesh d') !! k = Some m)).
  { intros k c Hk. rewrite Hmesh. simpl. split.
    - destruct (Forall2_lookup_l _ _ _ k c Hconn Hk) as (row & Hrow & Hc).
      exists row. split; [exact Hc |]. apply lookup_app_l_Some. exact Hrow.
    - destruct (Forall2_lookup_l _ _ _ k c Hmat Hk) as (m & Hm & Hc).
      exists m. split; [exact Hc |]. apply lookup_app_l_Some. exact Hm. }
  destruct (interface_rows d refine_flag _ _ _ _ Hany Hfli) as [Hlen Hrows].
  assert (Hcell : forall i c1 c2 k, cells !! i = Some (c1, c2, k) ->
            exists row, conn (dmesh d) !! c2 = Some row /\
                        conn (dmesh d') !! k = Some row).
  { intros i c1 c2 k Hi.
    assert (Hlt : (i < length facets)%nat)
      by (rewrite Hlen; eapply lookup_lt_Some; exact Hi).
    destruct (lookup_lt_is_Some_2 _ _ Hlt) as [[[f l1] l2] Hf].
    destruct (Hrows i f l1 l2 c1 c2 k Hf Hi) as (_ & _ & _ & _ & Hk).
    exact (proj1 (Hcopy k c2 Hk)). }
  split; [exact Hcopy |]. split; [exact Hcell |]. split.
  - intros rows0 rows1 H0 H1. apply take_ok in H0, H1.
    apply bool_decide_eq_true. apply list_eq. intros i.
    destruct (cells !! i) as [[[c1 c2] k]|] eqn:Hi.
    + destruct (Hcell i c1 c2 k Hi) as (row & Hrow0 & Hrow1).
      destruct (Forall2_lookup_l _ _ _ i c2 H0) as (x0 & Hx0 & Hx0').
      { rewrite list_lookup_fmap, Hi. reflexivity. }
      destruct (Forall2_lookup_l _ _ _ i k H1) as (x1 & Hx1 & Hx1').
      { rewrite list_lookup_fmap, Hi. reflexivity. }
      congruence.
    + apply lookup_ge_None in Hi.
      apply Forall2_length in H0, H1. rewrite length_map in H0, H1.
      rewrite (proj2 (lookup_ge_None rows0 i)) by lia.
      rewrite (proj2 (lookup_ge_None rows1 i)) by lia. reflexivity.
  - intros R1' extra [= <-] Hpre v x Hv. rewrite Hmesh. simpl.
    rewrite Hpre. apply lookup_app_l_Some. exact Hv.
Qed.

Lemma refine_region_frame_witness :
  exists row, conn (dmesh quads4) !! 3%nat = Some row /\
              [[0; 1; 4; 3]; [4; 5; 8; 7];
               [1; 2; 5; 4]; [1; 2; 5; 4]; [1; 2; 5; 4]; [1; 2; 5; 4];
               [3; 4; 7; 6]; [3; 4; 7; 6]; [3; 4; 7; 6]; [3; 4; 7; 6]]%nat
                !! 1%nat = Some row.
Proof.
  exact (proj1 (proj2 (refine_region_frame (sample_ext 4) quads4
           (FEDomain (sample_ext 4)
              {| coors := coors quads4_mesh ++ [[f_half; f_half]];
                 conn := [[0; 1; 4; 3]; [4; 5; 8; 7];
                          [1; 2; 5; 4]; [1; 2; 5; 4]; [1; 2; 5; 4]; [1; 2; 5; 4];
                          [3; 4; 7; 6]; [3; 4; 7; 6]; [3; 4; 7; 6]; [3; 4; 7; 6]]%nat;
                 mat_ids := [0; 0; 0; 0; 0; 0; 0; 0; 0; 0];
                 desc := "2_4" |})
           [false; true; true; false]
           [(1, 3, 1); (2, 0, 2); (6, 2, 0); (7, 1, 3)]%nat
           [(1, 0, 0); (2, 0, 0); (1, 3, 1); (2, 3, 1)]%nat
           (Some quads4_coarse) (Some quads4_refine)
           (Some [(1%nat, [2; 3; 4; 5]); (2%nat, [6; 7; 8; 9])])
           eq_refl eq_refl eq_refl))
         2%nat 1%nat 3%nat 1%nat eq_refl).
Defined.

(** ** The index shift of chained passes *)

Lemma set_at_lookup (idx : list nat) (v : Z) :
  forall (a a' : list Z), set_at a idx v = Ok a' ->
  length a' = length a /\
  forall i, a' !! i = if bool_decide (i ∈ idx) then (fun _ => v) <$> a !! i
                      else a !! i.
Proof.
  induction idx as [|j idx IH]; intros a a' H; simpl in H.
  - injection H as <-. split; [reflexivity |]. intros i.
    rewrite bool_decide_eq_false_2; [reflexivity | apply not_elem_of_nil].
  - apply bind_ok in H as (a1 & Ha1 & H). apply setitem_ok in Ha1 as [Hlt ->].
    apply IH in H as [Hlen Hget]. rewrite length_insert in Hlen.
    split; [exact Hlen |]. intros i. rewrite Hget.
    destruct (decide (i = j)) as [-> | Hne].
    + rewrite list_lookup_insert_eq by exact Hlt.
      rewrite (bool_decide_eq_true_2 (j ∈ j :: idx))
        by (apply elem_of_cons; left; reflexivity).
      destruct (lookup_lt_is_Some_2 a j Hlt) as [x ->]. simpl.
      destruct (bool_decide (j ∈ idx)); reflexivity.
    + rewrite list_lookup_insert_ne by congruence.
      assert (Heq : bool_decide (i ∈ j :: idx) = bool_decide (i ∈ idx)).
      { apply bool_decide_ext. rewrite elem_of_cons. tauto. }
      rewrite Heq. reflexivity.
Qed.

Lemma count_refined_le_lt (refine_flag : list bool) (i : nat) :
  count_refined_le refine_flag i
  = count_refined_lt refine_flag i + Z.b2z (flagged refine_flag i).
Proof.
  unfold count_refined_le, count_refined_lt.
  rewrite seq_S, List.filter_app, length_app. simpl.
  destruct (flagged refine_flag i); simpl; lia.
Qed.

Lemma cumsum_from_lookup (a : list Z) :
  forall (acc : Z) (i : nat), (i < length a)%nat ->
  cumsum_from acc a !! i = Some (acc + sumZ (take (S i) a)).
Proof.
  induction a as [|x a IH]; intros acc i Hi; simpl in Hi; [lia |].
  destruct i as [|i]; simpl.
  - f_equal. unfold sumZ. rewrite ?take_0. simpl. lia.
  - rewrite IH by lia. f_equal. unfold sumZ. simpl. lia.
Qed.

Lemma length_cumsum_from (a : list Z) (acc : Z) :
  length (cumsum_from acc a) = length a.
Proof. revert acc. induction a; intros acc; simpl; auto. Qed.

(** [mods] after [mods[refine > 0] = -1] and [nm.cumsum]. *)
Lemma mods_lookup (n : nat) (refine_flag : list bool) (mods : list Z) :
  set_at (replicate n 0) (nonzero refine_flag) (-1) = Ok mods ->
  length (cumsum mods) = n /\
  forall i, (i < n)%nat ->
            cumsum mods !! i = Some (- count_refined_le refine_flag i).
Proof.
  intros H. apply set_at_lookup in H as [Hlen Hget].
  rewrite length_replicate in Hlen.
  unfold cumsum. rewrite length_cumsum_from. split; [exact Hlen |].
  assert (Hmods : forall j, (j < n)%nat ->
                    mods !! j = Some (- Z.b2z (flagged refine_flag j))).
  { intros j Hj. rewrite Hget, lookup_replicate_2 by exact Hj. simpl.
    unfold flagged. destruct (bool_decide (j ∈ nonzero refine_flag)) eqn:Hin.
    - apply bool_decide_eq_true, elem_of_nonzero in Hin. rewrite Hin.
      reflexivity.
    - apply bool_decide_eq_false in Hin. rewrite elem_of_nonzero in Hin.
      destruct (refine_flag !! j) as [[|]|]; simpl; try reflexivity.
      exfalso. apply Hin. reflexivity. }
  intros i Hi. rewrite cumsum_from_lookup by lia. f_equal.
  assert (Hsum : forall k, (k <= n)%nat ->
            sumZ (take k mods) = - count_refined_lt refine_flag k).
  { induction k as [|k IHk]; intros Hk.
    - rewrite take_0. reflexivity.
    - assert (Hk' : (k < n)%nat) by lia.
      rewrite (take_S_r mods k _ (Hmods k Hk')).
      unfold sumZ in *. rewrite foldr_app. simpl.
      assert (Hfold : forall l z, foldr Z.add z l = foldr Z.add 0 l + z).
      { induction l as [|y l IHl]; intros z; simpl; [lia |].
        rewrite IHl. lia. }
      rewrite Hfold, IHk by lia.
      change (count_refined_lt refine_flag (S k))
        with (count_refined_le refine_flag k).
      rewrite count_refined_le_lt. lia. }
  rewrite Hsum by lia.
  change (count_refined_lt refine_flag (S i))
    with (count_refined_le refine_flag i).
  lia.
Qed.

Lemma getitemZ_ok {A : Type} (a : list A) (x : Z) (v : A) :
  getitemZ a x = Ok v -> a !! index_pos (length a) x = Some v.
Proof.
  unfold getitemZ, index_pos. destruct (0 <=? x).
  - apply getitem_ok.
  - destruct (0 <=? Z.of_nat (length a) + x); [apply getitem_ok | discriminate].
Qed.

Lemma mapM_ok {A B : Type} (g : A -> result B) (l : list A) (l' : list B) :
  mapM (M := result) g l = Ok l' -> Forall2 (fun x y => g x = Ok y) l l'.
Proof.
  revert l'. induction l as [|x l IH]; intros l' H; simpl in H.
  - injection H as <-. constructor.
  - apply bind_ok in H as (y & Hy & H). apply bind_ok in H as (ys & Hys & H).
    injection H as <-. constructor; auto.
Qed.

Lemma r_ok (a b c : list (list Z)) : r_ a b = Ok c -> c = a ++ b.
Proof.
  unfold r_. destruct a as [|ra a]; [intros [= <-]; reflexivity |].
  destruct b as [|rb b]; [intros [= <-]; reflexivity |].
  destruct (length ra =? length rb)%nat; [intros [= <-]; reflexivity |].
  discriminate.
Qed.

Lemma shift_row_ok (n_el1 : nat) (refine_flag : list bool)
    (mods row row' : list Z) :
  set_at (replicate (n_el1 + 1) 0) (nonzero refine_flag) (-1) = Ok mods ->
  shift_row (cumsum mods) row = Ok row' ->
  length row' = length row /\
  forall j x, row !! j = Some x ->
    row' !! j = Some (if cell_column j then shifted n_el1 refine_flag x else x).
Proof.
  intros Hmods H. apply mods_lookup in Hmods as [Hlen Hmods].
  assert (Hget : forall x m, getitemZ (cumsum mods) x = Ok m ->
                   x + m = shifted n_el1 refine_flag x).
  { intros x m Hm. apply getitemZ_ok in Hm. rewrite Hlen in Hm.
    pose proof (lookup_lt_Some _ _ _ Hm) as Hlt. rewrite Hlen in Hlt.
    rewrite (Hmods _ Hlt) in Hm. injection Hm as <-. unfold shifted. lia. }
  unfold shift_row in H.
  apply bind_ok in H as (x0 & Hx0 & H). apply bind_ok in H as (x2 & Hx2 & H).
  apply bind_ok in H as (x4 & Hx4 & H). apply bind_ok in H as (m0 & Hm0 & H).
  apply bind_ok in H as (m2 & Hm2 & H). apply bind_ok in H as (m4 & Hm4 & H).
  injection H as <-. apply getitem_ok in Hx0, Hx2, Hx4.
  rewrite (Hget _ _ Hm0), (Hget _ _ Hm2), (Hget _ _ Hm4).
  split; [rewrite !length_insert; reflexivity |].
  destruct row as [|a0 [|a1 [|a2 [|a3 [|a4 rest]]]]]; try discriminate.
  simpl in Hx0, Hx2, Hx4. injection Hx0 as <-. injection Hx2 as <-.
  injection Hx4 as <-.
  intros [|[|[|[|[|j]]]]] x Hx; simpl in Hx |- *; try congruence.
Qed.

(** What the last block of [refine] computes.  With an accumulated list
    [gsubs] and new substitutions in this pass, the result is the prior
    records, each with its entries in the columns 0, 2 and 4 shifted,
    followed by the new records.  The shift of an entry is the value the
    running sum over the refine flag has at that entry; all other entries
    are kept. *)
Lemma refine_accumulate_shift (n_el1 : nat) (refine_flag : list bool)
    (gsubs gsubs1 : list (list Z)) (r : option (list (list Z))) :
  refine_accumulate n_el1 refine_flag (Some gsubs) gsubs1 = Ok r ->
  gsubs1 <> [] ->
  exists gsubs',
    r = Some (gsubs' ++ gsubs1) /\ length gsubs' = length gsubs /\
    forall i row, gsubs !! i = Some row ->
      exists row', gsubs' !! i = Some row' /\ length row' = length row /\
        forall j x, row !! j = Some x ->
          row' !! j = Some (if cell_column j
                            then shifted n_el1 refine_flag x else x).
Proof.
  intros H Hne. unfold refine_accumulate in H.
  destruct gsubs1 as [|s1 gsubs1]; [congruence |]. cbn [length Nat.ltb Nat.leb] in H.
  apply bind_ok in H as (mods & Hmods & H).
  apply bind_ok in H as (gsubs' & Hshift & H).
  apply bind_ok in H as (c & Hc & H). injection H as <-.
  apply r_ok in Hc as ->. apply mapM_ok in Hshift.
  exists gsubs'. split; [reflexivity |].
  split; [symmetry; eapply Forall2_length; exact Hshift |].
  intros i row Hrow.
  destruct (Forall2_lookup_l _ _ _ i row Hshift Hrow) as (row' & Hrow' & Hs).
  exists row'. split; [exact Hrow' |].
  exact (shift_row_ok n_el1 refine_flag mods row row' Hmods Hs).
Qed.

(** ** [refine] *)

Lemma call_with_three_arguments (facets cells : list (nat * nat * nat))
    (sub_cells : option (list (nat * list Z))) :
  call_find_facet_substitutions
    [ArgRows facets; ArgRows cells; ArgSubCells sub_cells] = Raise TypeError.
Proof. reflexivity. Qed.

Lemma find_facet_substitutions_no_facets
    (cells : list (nat * nat * nat)) (sub_cells : option (list (nat * list Z)))
    (refine_facets : list (list (nat * nat))) :
  find_facet_substitutions [] cells sub_cells refine_facets = Ok [].
Proof. reflexivity. Qed.

(** C9, as the code has it.  [refine] never returns: the call of
    [find_facet_substitutions] with three arguments raises.  The exception
    the caller sees is that [TypeError] whenever the steps before the call
    complete, which they do for every all-false refine flag; an exception of
    an earlier step is raised in its place otherwise. *)
Theorem refine_never_returns (ext : externals) (d : domain)
    (refine_flag : list bool) (gsubs : option (list (list Z))) :
  (forall out, refine ext d refine_flag gsubs <> Ok out) /\
  (existsb id refine_flag = false ->
   refine ext d refine_flag gsubs = Raise TypeError) /\
  (forall facets cells r0 r1 d1 sc,
     find_level_interface d refine_flag = Ok (facets, cells, r0, r1) ->
     refine_region ext d r0 r1 = Ok (d1, sc) ->
     (facets <> [] -> check_conn d d1 cells sc = Ok tt) ->
     (desc (dmesh d) = "2_4"%string ->
      exists g, find_facet_substitutions facets cells sc refine_edges_2_4
                = Ok g) ->
     refine ext d refine_flag gsubs = Raise TypeError).
Proof.
  assert (Hgen : forall facets cells r0 r1 d1 sc,
     find_level_interface d refine_flag = Ok (facets, cells, r0, r1) ->
     refine_region ext d r0 r1 = Ok (d1, sc) ->
     (facets <> [] -> check_conn d d1 cells sc = Ok tt) ->
     (desc (dmesh d) = "2_4"%string ->
      exists g, find_facet_substitutions facets cells sc refine_edges_2_4
                = Ok g) ->
     refine ext d refine_flag gsubs = Raise TypeError).
  { intros facets cells r0 r1 d1 sc Hfli Hreg Hcheck Hcall.
    unfold refine. rewrite Hfli. simpl. rewrite Hreg. simpl.
    assert (Hc : (if (0 <? length facets)%nat
                  then check_conn d d1 cells sc else Ok tt) = Ok tt).
    { destruct facets as [|f facets]; [reflexivity |]. simpl.
      apply Hcheck. discriminate. }
    rewrite Hc. simpl.
    destruct (String.eqb_spec (desc (dmesh d)) "2_4") as [Hdesc | Hdesc].
    - destruct (Hcall Hdesc) as [g Hg]. simpl. rewrite Hg. reflexivity.
    - reflexivity. }
  split; [| split; [| exact Hgen]].
  - intros out H. unfold refine in H.
    apply bind_ok in H as ([[[facets cells] r0] r1] & _ & H).
    apply bind_ok in H as ([d1 sc] & _ & H).
    apply bind_ok in H as (u & _ & H).
    apply bind_ok in H as (g & _ & H).
    apply bind_ok in H as (g1 & Hcall & _).
    rewrite call_with_three_arguments in Hcall. discriminate.
  - intros Hnone.
    apply (Hgen [] [] None None d None).
    + apply find_level_interface_no_flag. exact Hnone.
    + reflexivity.
    + congruence.
    + intros _. eexists. reflexivity.
Qed.

Lemma refine_never_returns_witness :
  refine (sample_ext 4) quads4 [false; false; false; false] None
    = Raise TypeError /\
  refine (sample_ext 4) quads4 [false; true; true; false]
         (Some [[0; 0; 4; 0; 5; 3]]) = Raise TypeError.
Proof.
  split.
  - exact (proj1 (proj2 (refine_never_returns (sample_ext 4) quads4
                           [false; false; false; false] None)) eq_refl).
  - apply (proj2 (proj2 (refine_never_returns (sample_ext 4) quads4
                           [false; true; true; false]
                           (Some [[0; 0; 4; 0; 5; 3]])))
             [(1, 3, 1); (2, 0, 2); (6, 2, 0); (7, 1, 3)]%nat
             [(1, 0, 0); (2, 0, 0); (1, 3, 1); (2, 3, 1)]%nat
             (Some quads4_coarse) (Some quads4_refine) _ _ eq_refl eq_refl).
    + intros _. reflexivity.
    + intros _. eexists. reflexivity.
Defined.

(** C9 as the spec states it fails where an earlier step raises: on the
    three cells around one facet the assertion of [find_level_interface]
    fails first, and the caller sees that error, not a [TypeError]. *)
Lemma refine_counterexample :
  refine (sample_ext 4) fan3 [true; false; false] None = Raise ValueError.
Proof. reflexivity. Qed.

(** C6.  The shift of chained passes is never delivered.  On the 2 x 2
    block with the cells 1 and 2 flagged and a prior record that names the
    kept cells 0 and 3, the steps before the merge complete and give four
    new records, and the last block of [refine], run on their results,
    gives the prior record with its cell entries shifted (3 becomes 1),
    followed by the new records.  But [refine] does not get there: the
    three-argument call in front of that block raises a [TypeError], on this
    input and, as far as returning goes, on every input with a prior
    list. *)
Theorem refine_prior_records_lost :
  (forall ext d refine_flag gsubs out,
     refine ext d refine_flag (Some gsubs) <> Ok out) /\
  find_level_interface quads4 quads4_flag
    = Ok (quads4_facets, quads4_cells, Some quads4_coarse,
          Some quads4_refine) /\
  refine_region (sample_ext 4) quads4 (Some quads4_coarse)
                (Some quads4_refine)
    = Ok (quads4_refined, Some quads4_sub_cells) /\
  check_conn quads4 quads4_refined quads4_cells (Some quads4_sub_cells)
    = Ok tt /\
  find_facet_substitutions quads4_facets quads4_cells
                           (Some quads4_sub_cells) refine_edges_2_4
    = Ok quads4_gsubs1 /\
  quads4_gsubs1 <> [] /\
  refine_accumulate (n_el quads4_refined) quads4_flag (Some quads4_prior)
                    quads4_gsubs1
    = Ok (Some (quads4_prior_shifted ++ quads4_gsubs1)) /\
  refine (sample_ext 4) quads4 quads4_flag (Some quads4_prior)
    = Raise TypeError.
Proof.
  split.
  { intros ext d refine_flag gsubs out H. unfold refine in H.
    apply bind_ok in H as ([[[facets cells] r0] r1] & _ & H).
    apply bind_ok in H as ([d1 sc] & _ & H).
    apply bind_ok in H as (u & _ & H).
    apply bind_ok in H as (g & _ & H).
    apply bind_ok in H as (g1 & Hcall & _).
    rewrite call_with_three_arguments in Hcall. discriminate. }
  repeat split; try reflexivity. discriminate.
Qed.

(** ** [eval_basis_transform] *)

Lemma zip_with_map {A B C D : Type} (f : B -> C -> D) (g : A -> B) (h : A -> C)
    (l : list A) :
  zip_with f (map g l) (map h l) = map (fun x => f (g x) (h x)) l.
Proof. induction l as [|x l IH]; simpl; [reflexivity | rewrite IH; reflexivity]. Qed.

Lemma eye_partial_step (n k : nat) :
  zip_with f_add (eye_partial n k) (eye_row n k) = eye_partial n (S k).
Proof.
  unfold eye_partial, eye_row. rewrite zip_with_map. apply map_ext.
  intros j. destruct (Nat.ltb_spec j k) as [Hlt | Hge].
  - rewrite (proj2 (Nat.eqb_neq k j)) by lia.
    rewrite (proj2 (Nat.ltb_lt j (S k))) by lia. reflexivity.
  - destruct (Nat.eqb_spec k j) as [-> | Hne].
    + rewrite (proj2 (Nat.ltb_lt j (S j))) by lia. reflexivity.
    + rewrite (proj2 (Nat.ltb_ge j (S k))) by lia. reflexivity.
Qed.

Lemma foldl_eye_rows (n m : nat) :
  forall k, foldl (zip_with f_add) (eye_partial n k)
                  (map (eye_row n) (seq k m))
            = eye_partial n (k + m).
Proof.
  induction m as [|m IH]; intros k; simpl.
  - rewrite Nat.add_0_r. reflexivity.
  - rewrite eye_partial_step, IH. f_equal. lia.
Qed.

(** Every column of the identity sums to exactly [1.0]. *)
Lemma sum_axis_eye (n : nat) : sum_axis n (eye n) = replicate n f_one.
Proof.
  unfold eye. fold (eye_row n). destruct n as [|m]; [reflexivity |].
  cbn [seq map sum_axis].
  assert (H0 : eye_row (S m) 0 = eye_partial (S m) 1).
  { unfold eye_row, eye_partial. apply map_ext. intros [|j]; reflexivity. }
  rewrite H0, foldl_eye_rows. unfold eye_partial.
  apply list_eq. intros j. rewrite list_lookup_fmap.
  destruct (decide (j < S m)%nat) as [Hlt | Hge].
  - rewrite lookup_seq_lt, lookup_replicate_2 by exact Hlt. simpl.
    rewrite (proj2 (Nat.ltb_lt j (S m))) by lia. reflexivity.
  - rewrite (proj2 (lookup_ge_None _ j)) by (rewrite length_seq; lia).
    rewrite (proj2 (lookup_ge_None _ j)) by (rewrite length_replicate; lia).
    reflexivity.
Qed.

Lemma sums_ok_identity (n_cell n_ep : nat) :
  sums_ok n_ep (replicate n_cell (eye n_ep)) = true.
Proof.
  unfold sums_ok. apply forallb_forall. intros mtx Hm.
  apply list_elem_of_In, elem_of_replicate in Hm as [-> _].
  rewrite sum_axis_eye. apply forallb_forall. intros s Hs.
  apply list_elem_of_In, elem_of_replicate in Hs as [-> _]. reflexivity.
Qed.

Lemma eval_basis_transform_inv (env : basis_env)
    (gsubs : option (list (list Z))) (t : list (list (list float64))) :
  eval_basis_transform env gsubs = Ok t ->
  match gsubs with
  | None => t = replicate (econn_shape env).1 (eye (econn_shape env).2)
  | Some _ => sums_ok (econn_shape env).2 t = true
  end.
Proof.
  unfold eval_basis_transform. intros H.
  apply bind_ok in H as (ef0 & _ & H). apply bind_ok in H as (ef3 & _ & H).
  apply bind_ok in H as (b0 & _ & H). apply bind_ok in H as (b1 & _ & H).
  destruct (econn_shape env) as [n_cell n_ep]. simpl.
  destruct gsubs as [gs|].
  - apply bind_ok in H as (t' & _ & H). apply bind_ok in H as (u & Hassert & H).
    injection H as <-. unfold assert_ in Hassert.
    destruct (sums_ok n_ep t'); [reflexivity | discriminate].
  - injection H as <-. reflexivity.
Qed.

(** C2, as the code has it.  In every array [eval_basis_transform]
    returns, the sums the final assertion inspects, [transform.sum(1)], are
    within [1e-15] of [1.0]: for each cell these are the sums over the first
    index of its matrix, one per column.  Without substitutions ([gsubs] is
    None) every matrix is the identity. *)
Theorem eval_basis_transform_column_sums (env : basis_env)
    (gsubs : option (list (list Z))) (t : list (list (list float64))) :
  eval_basis_transform env gsubs = Ok t ->
  (forall c mtx, t !! c = Some mtx ->
     Forall (fun s => close_to_one s = true)
            (sum_axis (econn_shape env).2 mtx)) /\
  (gsubs = None ->
   t = replicate (econn_shape env).1 (eye (econn_shape env).2)).
Proof.
  intros H. apply eval_basis_transform_inv in H.
  assert (Hok : sums_ok (econn_shape env).2 t = true).
  { destruct gsubs; [exact H |]. rewrite H. apply sums_ok_identity. }
  split.
  - intros c mtx Hc. unfold sums_ok in Hok. rewrite forallb_forall in Hok.
    apply list_elem_of_lookup_2, list_elem_of_In, Hok in Hc.
    apply Forall_forall. intros s Hs. rewrite forallb_forall in Hc.
    apply Hc, list_elem_of_In, Hs.
  - intros ->. exact H.
Qed.

Lemma q1_gsubs_from_refinement :
  find_facet_substitutions [(1, 1, 3); (2, 2, 0)]%nat [(0, 1, 0); (0, 2, 1)]%nat
                           (Some [(0%nat, [3; 4; 5; 6])]) refine_edges_2_4
  = Ok q1_gsubs.
Proof. reflexivity. Qed.

Lemma eval_basis_transform_column_sums_witness :
  Forall (fun s => close_to_one s = true)
         (sum_axis (econn_shape q1_env).2
                   [[f_one; f_half; f_zero; f_zero];
                    [f_zero; f_half; f_zero; f_zero];
                    [f_zero; f_zero; f_one; f_zero];
                    [f_zero; f_zero; f_zero; f_one]]).
Proof.
  exact (proj1 (eval_basis_transform_column_sums q1_env (Some q1_gsubs)
                  q1_transform eq_refl) 4%nat _ eq_refl).
Defined.

(** C2 as the spec states it fails: the call returns, and the first row of
    the matrix of cell 4 sums to [1.5]. *)
Lemma eval_basis_transform_row_counterexample :
  eval_basis_transform q1_env (Some q1_gsubs) = Ok q1_transform /\
  q1_transform !! 4%nat
    = Some [[f_one; f_half; f_zero; f_zero]; [f_zero; f_half; f_zero; f_zero];
            [f_zero; f_zero; f_one; f_zero]; [f_zero; f_zero; f_zero; f_one]] /\
  sum_row [f_one; f_half; f_zero; f_zero]
    = S754_finite false 6755399441055744 (-52) /\
  close_to_one (sum_row [f_one; f_half; f_zero; f_zero]) = false.
Proof. repeat split. Qed.

End RefineHangingProofs.

(** * Further properties of [fields_nodal.py] *)

Module FieldsNodalMore.
Import FieldsNodal FieldsNodalSpec FieldsNodalProofs.

(** ** Ids within the range of [int32] *)

Lemma int32_small (z : Z) : - 2 ^ 31 <= z < 2 ^ 31 -> int32 z = z.
Proof. intros H. unfold int32. rewrite Z.mod_small; lia. Qed.

Lemma add_int32_small (x a : Z) :
  0 <= x -> 0 <= a -> x + a < 2 ^ 31 -> add_int32 x a = x + a.
Proof.
  intros Hx Ha Hsum. unfold add_int32, fits_int32.
  rewrite (proj2 (Z.leb_le _ _)), (proj2 (Z.ltb_lt _ _)) by lia.
  apply int32_small. lia.
Qed.

Lemma arange_int32_small (start : Z) (n : nat) :
  0 <= start -> start + Z.of_nat n <= 2 ^ 31 ->
  arange_int32 start n = arange start n.
Proof.
  intros Hs Hb. unfold arange_int32, arange. apply map_ext_in.
  intros i Hi. apply in_seq in Hi. apply int32_small. lia.
Qed.

(** ** Blocks of consecutive numbers *)

Lemma concat_blocks {A : Type} (f : nat -> A) (n m : nat) :
  concat (map (fun c => map (fun k => f (c * n + k)%nat) (seq 0 n)) (seq 0 m))
  = map f (seq 0 (m * n)).
Proof.
  induction m as [|m IH]; [reflexivity |].
  rewrite seq_S, map_app, concat_app, IH. simpl.
  replace (n + m * n)%nat with (m * n + n)%nat by lia.
  rewrite seq_app, map_app, app_nil_r. f_equal. simpl.
  assert (Hseq : seq (m * n) n = map (Nat.add (m * n)) (seq 0 n)).
  { pose proof (fmap_add_seq (m * n) 0 n) as H.
    rewrite Nat.add_0_r in H. symmetry. exact H. }
  rewrite Hseq, map_map. reflexivity.
Qed.

Lemma length_arange (start : Z) (n : nat) : length (arange start n) = n.
Proof. unfold arange. rewrite length_map, length_seq. reflexivity. Qed.

Lemma arange_lookup (start : Z) (n i : nat) :
  (i < n)%nat -> arange start n !! i = Some (start + Z.of_nat i).
Proof.
  intros Hi. unfold arange. rewrite list_lookup_fmap, lookup_seq_lt by exact Hi.
  reflexivity.
Qed.

Lemma NoDup_arange (start : Z) (n : nat) : NoDup (arange start n).
Proof.
  unfold arange. apply NoDup_fmap_2_strong; [| apply NoDup_seq].
  intros x y _ _ H. lia.
Qed.

Lemma concat_reshape {A : Type} (n_rows n_cols : nat) (a : list A) :
  length a = (n_rows * n_cols)%nat -> concat (reshape n_rows n_cols a) = a.
Proof.
  revert a. induction n_rows as [|r IH]; intros a Hlen; simpl in *.
  - destruct a; [reflexivity | discriminate].
  - rewrite IH by (rewrite length_drop; lia). apply take_drop.
Qed.

Lemma reshape_lookup {A : Type} (n_rows n_cols : nat) (a : list A) (i : nat) :
  (i < n_rows)%nat ->
  reshape n_rows n_cols a !! i = Some (take n_cols (drop (i * n_cols) a)).
Proof.
  revert a i. induction n_rows as [|r IH]; intros a i Hi; [lia |].
  destruct i as [|i]; simpl.
  - reflexivity.
  - rewrite IH by lia. rewrite drop_drop. reflexivity.
Qed.

Lemma length_reshape {A : Type} (n_rows n_cols : nat) (a : list A) :
  length (reshape n_rows n_cols a) = n_rows.
Proof. revert a. induction n_rows; intros a; simpl; auto. Qed.

Lemma reshape_arange_lookup (start : Z) (n_rows n_cols c j : nat) :
  (c < n_rows)%nat -> (j < n_cols)%nat ->
  reshape n_rows n_cols (arange start (n_rows * n_cols)) !! c
    ≫= (fun row => row !! j)
  = Some (start + Z.of_nat (c * n_cols + j)).
Proof.
  intros Hc Hj. rewrite reshape_lookup by exact Hc. simpl.
  rewrite lookup_take_lt by exact Hj. rewrite lookup_drop.
  apply arange_lookup. nia.
Qed.

(** ** What [_setup_facet_dofs] returns *)

Lemma setup_facet_dofs_out (env : facet_env) (econn econn' : list (list Z))
    (dim : nat) (facet_desc facet_perms : list (list nat)) (offset : Z)
    (n_dof : nat) (all_dofs : list (list Z)) (remap : list Z) :
  _setup_facet_dofs env econn dim facet_desc facet_perms offset
    = Ok (econn', (n_dof, all_dofs, remap)) ->
  exists n,
    head (map (@length nat) facet_desc) = Some n /\
    n_dof = (n * length (region_entities env))%nat /\
    all_dofs = add_offset offset
                 (expand_nodes_to_dofs
                    (map Z.of_nat (seq 0 (length (region_entities env)))) n) /\
    prepare_remap (region_entities env) (cmesh_num env) = Ok remap /\
    exists iep rhs,
      take_ facet_desc
            (flat_map (fun _ : nat => seq 0 (n_facets env dim))
                      (seq 0 (length (region_cells env)))) = Ok iep /\
      assign_rows econn
        (flat_map (fun c => replicate (n_facets env dim) c)
                  (seq 0 (length (region_cells env)))) iep rhs = Ok econn'.
Proof.
  intros H. unfold _setup_facet_dofs in H. fold (n_facets env dim) in H.
  apply bind_ok in H as (n & Hn & H).
  apply bind_ok in H as (remap0 & Hremap & H).
  apply bind_ok in H as (offs_g & _ & H).
  apply bind_ok in H as (indices & _ & H).
  apply bind_ok in H as (foc & _ & H).
  apply bind_ok in H as (ori & _ & H).
  apply bind_ok in H as (perms & _ & H).
  apply bind_ok in H as (iep & Hiep & H).
  apply bind_ok in H as (rhs & _ & H).
  apply bind_ok in H as (e1 & Hassign & H).
  apply bind_ok in H as (u & _ & H).
  injection H as <- <- <- <-. exists n.
  split; [destruct facet_desc; [discriminate |]; simpl in *; congruence |].
  split; [reflexivity |]. split; [reflexivity |]. split; [exact Hremap |].
  exists iep, rhs. auto.
Qed.

Lemma dof_id_small (offset : Z) (m n i k : nat) :
  0 <= offset -> offset + Z.of_nat (n * m) <= 2 ^ 31 ->
  (i < m)%nat -> (k < n)%nat ->
  add_int32 offset (int32 (Z.of_nat n * Z.of_nat i + Z.of_nat k))
  = offset + (Z.of_nat n * Z.of_nat i + Z.of_nat k).
Proof.
  intros Ho Hb Hi Hk.
  assert (Hlt : Z.of_nat n * Z.of_nat i + Z.of_nat k < Z.of_nat (n * m))
    by nia.
  rewrite int32_small by lia. apply add_int32_small; lia.
Qed.

Lemma all_dofs_flat (offset : Z) (m n : nat) :
  0 <= offset -> offset + Z.of_nat (n * m) <= 2 ^ 31 ->
  concat (add_offset offset
            (expand_nodes_to_dofs (map Z.of_nat (seq 0 m)) n))
  = arange offset (n * m).
Proof.
  intros Ho Hb. unfold add_offset, expand_nodes_to_dofs, arange.
  rewrite !map_map. rewrite Nat.mul_comm.
  rewrite <- (concat_blocks (fun i => offset + Z.of_nat i) n m).
  f_equal. apply map_ext_in. intros c Hc. apply in_seq in Hc.
  rewrite map_map. apply map_ext_in. intros k Hk. apply in_seq in Hk.
  rewrite dof_id_small with (m := m) by lia. lia.
Qed.

Lemma all_dofs_lookup (offset : Z) (m n i k : nat) :
  0 <= offset -> offset + Z.of_nat (n * m) <= 2 ^ 31 ->
  (i < m)%nat -> (k < n)%nat ->
  lookup2 (add_offset offset
             (expand_nodes_to_dofs (map Z.of_nat (seq 0 m)) n)) i k
  = Some (offset + (Z.of_nat n * Z.of_nat i + Z.of_nat k)).
Proof.
  intros Ho Hb Hi Hk. unfold lookup2, add_offset, expand_nodes_to_dofs.
  rewrite !list_lookup_fmap, lookup_seq_lt by exact Hi. simpl.
  rewrite !list_lookup_fmap, lookup_seq_lt by exact Hk. simpl.
  f_equal. apply dof_id_small with (m := m); assumption.
Qed.

(** ** The shape of the connectivity and the entries that are kept *)

Lemma setitem2_shape (e e' : list (list Z)) (c col : nat) (v : Z) :
  setitem2 e c col v = Ok e' -> map (@length Z) e' = map (@length Z) e.
Proof.
  unfold setitem2. intros H.
  apply bind_ok in H as (row & Hrow & H). apply bind_ok in H as (row' & Hrow' & H).
  apply getitem_ok in Hrow. apply setitem_ok in Hrow' as [_ ->].
  apply setitem_ok in H as [_ ->].
  change (map (@length Z)) with (fmap (M := list) (@length Z)).
  rewrite list_fmap_insert, length_insert. apply list_insert_id.
  rewrite list_lookup_fmap, Hrow. reflexivity.
Qed.

Lemma assign_row_shape (cols : list nat) :
  forall (e e' : list (list Z)) (c : nat) (vals : list Z),
  assign_row e c cols vals = Ok e' -> map (@length Z) e' = map (@length Z) e.
Proof.
  induction cols as [|col cols IH]; intros e e' c [|v vals] H; simpl in H;
    try discriminate.
  - injection H as <-. reflexivity.
  - apply bind_ok in H as (e1 & He1 & H). apply IH in H.
    apply setitem2_shape in He1. congruence.
Qed.

Lemma assign_rows_shape (iel : list nat) :
  forall (e e' : list (list Z)) (iep : list (list nat)) (rhs : list (list Z)),
  assign_rows e iel iep rhs = Ok e' -> map (@length Z) e' = map (@length Z) e.
Proof.
  induction iel as [|c iel IH]; intros e e' [|cols iep] [|vals rhs] H;
    simpl in H; try discriminate.
  - injection H as <-. reflexivity.
  - apply bind_ok in H as (e1 & He1 & H). apply IH in H.
    apply assign_row_shape in He1. congruence.
Qed.

(** X1.  [_setup_facet_dofs] keeps the shape of the connectivity, and it
    writes nowhere but into the columns listed in [facet_desc] of the rows
    of the region cells: every other entry is the one it was. *)
Theorem setup_facet_dofs_frame (env : facet_env) (econn econn' : list (list Z))
    (dim : nat) (facet_desc facet_perms : list (list nat)) (offset : Z)
    (out : nat * list (list Z) * list Z) :
  _setup_facet_dofs env econn dim facet_desc facet_perms offset
    = Ok (econn', out) ->
  map (@length Z) econn' = map (@length Z) econn /\
  forall c col,
    (length (region_cells env) <= c)%nat \/ col ∉ concat facet_desc ->
    lookup2 econn' c col = lookup2 econn c col.
Proof.
  intros H. destruct out as [[n_dof all_dofs] remap].
  apply setup_facet_dofs_out in H
    as (n & _ & _ & _ & _ & iep & rhs & Hiep & Hassign).
  split; [exact (assign_rows_shape _ _ _ _ _ Hassign) |].
  intros c col Hfree. apply assign_rows_lookup in Hassign as [Hout _].
  apply Hout. intros r c' cols Hr Hcols.
  destruct (Forall2_lookup_r _ _ _ r cols (take_ok _ _ _ Hiep) Hcols)
    as (f' & Hf' & Hfd).
  destruct (replicate_rows_inv _ _ _ _ _ Hr Hf') as (_ & _ & Hc').
  destruct Hfree as [Hge | Hcol]; [left; lia | right].
  intros Hin. apply Hcol. apply list_elem_of_In, in_concat. exists cols.
  split; apply list_elem_of_In; [| exact Hin].
  eapply list_elem_of_lookup_2. exact Hfd.
Qed.

Lemma setup_facet_dofs_frame_witness :
  lookup2 two_quads_econn 1 2 = lookup2 [[0; 1; 4; 3; 0; 0; 0; 0; 0; 0; 0; 0];
                                         [1; 2; 5; 4; 0; 0; 0; 0; 0; 0; 0; 0]] 1 2.
Proof.
  apply (proj2 (setup_facet_dofs_frame two_quads
           [[0; 1; 4; 3; 0; 0; 0; 0; 0; 0; 0; 0];
            [1; 2; 5; 4; 0; 0; 0; 0; 0; 0; 0; 0]]
           two_quads_econn 1 two_quads_desc two_quads_perms 6
           (14%nat,
            [[6; 7]; [8; 9]; [10; 11]; [12; 13]; [14; 15]; [16; 17]; [18; 19]],
            [0; 1; 2; 3; 4; 5; 6]) eq_refl)).
  right. intros Hin. unfold two_quads_desc in Hin. simpl in Hin.
  repeat (apply elem_of_cons in Hin as [Hin | Hin]; [discriminate |]).
  inversion Hin.
Defined.

(** ** The remap and the DOFs of a facet *)

Lemma remap_fill_lookup (indices : list nat) :
  forall (remap remap' : list Z) (k : nat),
  NoDup indices ->
  remap_fill remap k indices = Ok remap' ->
  length remap' = length remap /\
  (forall i g, indices !! i = Some g ->
               remap' !! g = Some (Z.of_nat (k + i))) /\
  (forall g, g ∉ indices -> remap' !! g = remap !! g).
Proof.
  induction indices as [|g0 indices IH]; intros remap remap' k Hnd H;
    simpl in H.
  - injection H as <-. split; [reflexivity |]. split; [| reflexivity].
    intros i g Hi. discriminate.
  - apply NoDup_cons in Hnd as [Hg0 Hnd].
    apply bind_ok in H as (r1 & Hr1 & H). apply setitem_ok in Hr1 as [Hlt ->].
    destruct (IH _ _ _ Hnd H) as (Hlen & Hin & Hout).
    rewrite length_insert in Hlen. split; [exact Hlen |]. split.
    + intros [|i] g Hi; simpl in Hi.
      * injection Hi as <-. rewrite (Hout g0 Hg0), Nat.add_0_r.
        apply list_lookup_insert_eq. exact Hlt.
      * rewrite (Hin i g Hi). do 2 f_equal. lia.
    + intros g Hg. rewrite Hout by (intros Hin'; apply Hg, elem_of_cons; auto).
      apply list_lookup_insert_ne. intros ->. apply Hg, elem_of_cons. auto.
Qed.

Lemma prepare_remap_lookup (indices : list nat) (n_full : nat)
    (remap : list Z) :
  NoDup indices ->
  prepare_remap indices n_full = Ok remap ->
  length remap = n_full /\
  (forall i g, indices !! i = Some g -> remap !! g = Some (Z.of_nat i)) /\
  (forall g, g ∉ indices -> (g < n_full)%nat -> remap !! g = Some (-1)).
Proof.
  intros Hnd H. unfold prepare_remap in H.
  destruct (remap_fill_lookup _ _ _ _ Hnd H) as (Hlen & Hin & Hout).
  rewrite length_replicate in Hlen. split; [exact Hlen |]. split.
  - exact Hin.
  - intros g Hg Hlt. rewrite (Hout g Hg). apply lookup_replicate_2. exact Hlt.
Qed.

(** X2.  As long as the ids of the tier stay within [int32]
    ([0 <= offset] and [offset + n_dof <= 2^31]; the arrays are [int32] and
    wrap around beyond), the DOF ids [_setup_facet_dofs] writes are the ones
    it returns in [all_dofs]: the slot that stands for node [k] of the
    region facet number [i] holds [all_dofs[i, k]], an id of the range
    [offset .. offset + n_dof - 1] of the tier. *)
Theorem setup_facet_dofs_in_all_dofs (env : facet_env)
    (econn econn' : list (list Z)) (dim : nat)
    (facet_desc facet_perms : list (list nat)) (offset : Z)
    (n_dof : nat) (all_dofs : list (list Z)) (remap : list Z) :
  _setup_facet_dofs env econn dim facet_desc facet_perms offset
    = Ok (econn', (n_dof, all_dofs, remap)) ->
  NoDup (concat facet_desc) ->
  NoDup (region_entities env) ->
  0 <= offset -> offset + Z.of_nat n_dof <= 2 ^ 31 ->
  forall c f j g k col i n,
    (f < n_facets env dim)%nat ->
    facet_slot env facet_desc facet_perms c f j = Some (g, k, col) ->
    region_entities env !! i = Some g ->
    head (map (@length nat) facet_desc) = Some n -> (k < n)%nat ->
    exists dof,
      lookup2 econn' c col = Some dof /\
      lookup2 all_dofs i k = Some dof /\
      offset <= dof < offset + Z.of_nat n_dof.
Proof.
  intros H Hnd Hents Ho Hb c f j g k col i n Hf Hslot Hi Hn Hk.
  destruct (setup_facet_dofs_slot _ _ _ _ _ _ _ _ _ _ H Hnd _ _ _ _ _ _ Hf Hslot)
    as (fc & n' & Hn' & Hfc & Hval).
  rewrite Hn in Hn'. injection Hn' as <-.
  apply setup_facet_dofs_out in H as (n'' & Hn'' & -> & -> & Hremap & _).
  rewrite Hn in Hn''. injection Hn'' as <-.
  destruct (prepare_remap_lookup _ _ _ Hents Hremap) as (_ & Hin & _).
  rewrite (Hin i g Hi) in Hfc. injection Hfc as <-.
  pose proof (lookup_lt_Some _ _ _ Hi) as Hlt.
  rewrite (dof_id_small offset (length (region_entities env)) n i k Ho Hb
             Hlt Hk) in Hval.
  exists (offset + (Z.of_nat n * Z.of_nat i + Z.of_nat k)).
  split; [exact Hval |]. split; [apply all_dofs_lookup; assumption |]. nia.
Qed.

Lemma two_quads_entities_NoDup : NoDup (region_entities two_quads).
Proof. exact (NoDup_seq 0 7). Qed.

Lemma setup_facet_dofs_in_all_dofs_witness :
  exists dof,
    lookup2 two_quads_econn 1 11 = Some dof /\
    lookup2 [[6; 7]; [8; 9]; [10; 11]; [12; 13]; [14; 15]; [16; 17]; [18; 19]]
            1 0 = Some dof /\
    6 <= dof < 6 + Z.of_nat 14.
Proof.
  apply (setup_facet_dofs_in_all_dofs two_quads
           [[0; 1; 4; 3; 0; 0; 0; 0; 0; 0; 0; 0];
            [1; 2; 5; 4; 0; 0; 0; 0; 0; 0; 0; 0]]
           two_quads_econn 1 two_quads_desc two_quads_perms 6 14
           [[6; 7]; [8; 9]; [10; 11]; [12; 13]; [14; 15]; [16; 17]; [18; 19]]
           [0; 1; 2; 3; 4; 5; 6] eq_refl two_quads_desc_NoDup
           two_quads_entities_NoDup ltac:(lia) ltac:(simpl; lia)
           1%nat 3%nat 1%nat 1%nat 0%nat 11%nat 1%nat 2%nat);
    [cbv; lia | reflexivity | reflexivity | reflexivity | lia].
Defined.

(** ** The tiers of DOFs *)

Lemma arange_app (start : Z) (a b : nat) :
  arange start (a + b) = arange start a ++ arange (start + Z.of_nat a) b.
Proof.
  unfold arange. rewrite seq_app, map_app. f_equal. simpl.
  assert (Hseq : seq a b = map (Nat.add a) (seq 0 b)).
  { pose proof (fmap_add_seq a 0 b) as H. rewrite Nat.add_0_r in H.
    symmetry. exact H. }
  rewrite Hseq, map_map. apply map_ext. intros i. lia.
Qed.

Lemma some_out_inv (r : list (list Z) * (nat * list (list Z) * list Z))
    (econn' : list (list Z)) (n_dof : nat) (all_dofs : option (list (list Z)))
    (remap : option (list Z)) :
  some_out r = (econn', (n_dof, all_dofs, remap)) ->
  exists a m, all_dofs = Some a /\ remap = Some m /\
              r = (econn', (n_dof, a, m)).
Proof.
  destruct r as [e [[n a] m]]. simpl. intros [= <- <- <- <-]. eauto.
Qed.

Lemma setup_edge_dofs_flat (fld : field) (econn' : list (list Z))
    (n_dof : nat) (all_dofs : option (list (list Z)))
    (remap : option (list Z)) :
  _setup_edge_dofs fld = Ok (econn', (n_dof, all_dofs, remap)) ->
  Z.of_nat (n_vertex_dof fld) + Z.of_nat n_dof <= 2 ^ 31 ->
  flat_dofs all_dofs = arange (Z.of_nat (n_vertex_dof fld)) n_dof.
Proof.
  unfold _setup_edge_dofs. destruct (nd_edge (node_desc fld)) as [edge|].
  - intros H. apply bind_ok in H as (r & Hr & H). injection H as H.
    apply some_out_inv in H as (a & m & -> & -> & ->).
    apply setup_facet_dofs_out in Hr as (n & _ & -> & -> & _).
    intros Hb. simpl. apply all_dofs_flat; [lia | exact Hb].
  - intros [= <- <- <- <-] _. reflexivity.
Qed.

Lemma setup_face_dofs_flat (fld : field) (econn' : list (list Z))
    (n_dof : nat) (all_dofs : option (list (list Z)))
    (remap : option (list Z)) :
  _setup_face_dofs fld = Ok (econn', (n_dof, all_dofs, remap)) ->
  Z.of_nat (n_vertex_dof fld) + Z.of_nat (n_edge_dof fld) + Z.of_nat n_dof
    <= 2 ^ 31 ->
  flat_dofs all_dofs
  = arange (Z.of_nat (n_vertex_dof fld) + Z.of_nat (n_edge_dof fld)) n_dof.
Proof.
  unfold _setup_face_dofs. destruct (nd_face (node_desc fld)) as [face|].
  - intros H. apply bind_ok in H as (r & Hr & H). injection H as H.
    apply some_out_inv in H as (a & m & -> & -> & ->).
    apply setup_facet_dofs_out in Hr as (n & _ & -> & -> & _).
    intros Hb. simpl. apply all_dofs_flat; [lia | exact Hb].
  - intros [= <- <- <- <-] _. reflexivity.
Qed.

Lemma setup_bubble_dofs_flat (fld : field) (econn' : list (list Z))
    (n_dof : nat) (all_dofs : option (list (list Z)))
    (remap : option (list Z)) :
  _setup_bubble_dofs fld = Ok (econn', (n_dof, all_dofs, remap)) ->
  Z.of_nat (n_vertex_dof fld + n_edge_dof fld + n_face_dof fld)
    + Z.of_nat n_dof <= 2 ^ 31 ->
  flat_dofs all_dofs
  = arange (Z.of_nat (n_vertex_dof fld + n_edge_dof fld + n_face_dof fld))
           n_dof.
Proof.
  unfold _setup_bubble_dofs. destruct (nd_bubble (node_desc fld)) as [bubble|].
  - intros H. apply bind_ok in H as (rm & _ & H).
    apply bind_ok in H as (iep & _ & H). apply bind_ok in H as (e & _ & H).
    injection H as <- <- <- <-. intros Hb. simpl.
    rewrite arange_int32_small by lia. apply concat_reshape.
    rewrite length_arange. lia.
  - intros [= <- <- <- <-] _. reflexivity.
Qed.

(** X3.  The tiers follow one another without a gap: when the counts of
    the edge and of the face DOFs are stored in the field before the next
    setup function runs, and the number of DOFs of the field stays within
    [int32] (at most [2^31]; the id arrays are [int32] and wrap around
    beyond), the edge, face and bubble DOF ids, taken in the order of the
    three [all_dofs] arrays, are the consecutive numbers that start right
    after the vertex DOFs.  A tier the approximation does not have
    contributes nothing. *)
Theorem dof_tiers_contiguous (fld fld1 fld2 : field)
    (e1 e2 e3 : list (list Z)) (n_e n_f n_b : nat)
    (all_e all_f all_b : option (list (list Z)))
    (rm_e rm_f rm_b : option (list Z)) :
  _setup_edge_dofs fld = Ok (e1, (n_e, all_e, rm_e)) ->
  _setup_face_dofs fld1 = Ok (e2, (n_f, all_f, rm_f)) ->
  _setup_bubble_dofs fld2 = Ok (e3, (n_b, all_b, rm_b)) ->
  n_vertex_dof fld1 = n_vertex_dof fld -> n_edge_dof fld1 = n_e ->
  n_vertex_dof fld2 = n_vertex_dof fld -> n_edge_dof fld2 = n_e ->
  n_face_dof fld2 = n_f ->
  Z.of_nat (n_vertex_dof fld + n_e + n_f + n_b) <= 2 ^ 31 ->
  flat_dofs all_e ++ flat_dofs all_f ++ flat_dofs all_b
  = arange (Z.of_nat (n_vertex_dof fld)) (n_e + n_f + n_b).
Proof.
  intros He Hf Hb Hv1 He1 Hv2 He2 Hf2 Hbound.
  rewrite (setup_edge_dofs_flat _ _ _ _ _ He) by lia.
  rewrite (setup_face_dofs_flat _ _ _ _ _ Hf) by lia.
  rewrite (setup_bubble_dofs_flat _ _ _ _ _ Hb) by lia.
  rewrite Hv1, He1, Hv2, He2, Hf2.
  replace (n_e + n_f + n_b)%nat with (n_e + (n_f + n_b))%nat by lia.
  rewrite (arange_app _ n_e), (arange_app _ n_f).
  f_equal. f_equal. f_equal. lia.
Qed.

Lemma dof_tiers_contiguous_witness :
  flat_dofs (Some [[6; 7]; [8; 9]; [10; 11]; [12; 13]; [14; 15]; [16; 17];
                   [18; 19]])
  ++ flat_dofs None
  ++ flat_dofs (Some [[20; 21; 22; 23]; [24; 25; 26; 27]])
  = arange (Z.of_nat (n_vertex_dof (two_quads_field two_quads_econn0 0 0)))
           (14 + 0 + 8).
Proof.
  exact (dof_tiers_contiguous
           (two_quads_field two_quads_econn0 0 0)
           (two_quads_field two_quads_econn1 14 0)
           (two_quads_field two_quads_econn1 14 0)
           two_quads_econn1 two_quads_econn1 two_quads_econn2
           14 0 8 _ _ _
           (Some [0; 1; 2; 3; 4; 5; 6]) None (Some [0; 1])
           eq_refl eq_refl eq_refl eq_refl eq_refl eq_refl eq_refl eq_refl
           ltac:(simpl; lia)).
Defined.

(** ** Bubble DOFs *)

Lemma broadcast_to_same {A : Type} (n : nat) (a : list A) :
  length a = n -> broadcast_to n a = Ok a.
Proof.
  intros H. unfold broadcast_to. rewrite (proj2 (Nat.eqb_eq _ _) H).
  reflexivity.
Qed.

Lemma assign_tails_lookup (iep : nat) (econn : list (list Z)) :
  forall (vals econn' : list (list Z)),
  assign_tails iep econn vals = Ok econn' ->
  forall c row v, econn !! c = Some row -> vals !! c = Some v ->
    length v = (length row - iep)%nat ->
    econn' !! c = Some (take iep row ++ v).
Proof.
  induction econn as [|row0 econn IH]; intros [|v0 vals] econn' H c row v
    Hrow Hv Hlen; simpl in H; try discriminate.
  apply bind_ok in H as (row' & Hrow' & H). apply bind_ok in H as (rest & Hrest & H).
  injection H as <-. destruct c as [|c]; simpl in *.
  - injection Hrow as ->. injection Hv as ->. unfold assign_tail in Hrow'.
    rewrite broadcast_to_same in Hrow' by exact Hlen. simpl in Hrow'.
    congruence.
  - exact (IH _ _ Hrest c row v Hrow Hv Hlen).
Qed.

Lemma length_assign_tails (iep : nat) (econn : list (list Z)) :
  forall (vals econn' : list (list Z)),
  assign_tails iep econn vals = Ok econn' -> length econn' = length econn.
Proof.
  induction econn as [|r econn IH]; intros [|v vals] econn' H; simpl in H;
    try discriminate.
  - injection H as <-. reflexivity.
  - apply bind_ok in H as (r' & _ & H).
    apply bind_ok in H as (rest & Hrest & H). injection H as <-.
    simpl. f_equal. exact (IH _ _ Hrest).
Qed.

(** X4.  Bubble DOFs belong to one cell each.  For a connectivity with one
    row per region cell whose trailing columns, from [bubble[0]] on, are the
    bubble columns, and as long as the ids stay within [int32]
    ([offset + n_dof <= 2^31]; the array of ids is [int32] and wraps around
    beyond), [_setup_bubble_dofs] gives cell [c] the ids
    [offset + c * n + (0 .. n - 1)], with [n] the number of bubble nodes and
    [offset] the number of vertex, edge and face DOFs: the ids lie in the
    range of the tier, no id is written into two slots, and the columns
    before [bubble[0]] are kept. *)
Theorem setup_bubble_dofs_owned (fld : field) (econn' : list (list Z))
    (n_dof : nat) (all_dofs : option (list (list Z)))
    (remap : option (list Z)) (bubble : list nat) (iep : nat) :
  _setup_bubble_dofs fld = Ok (econn', (n_dof, all_dofs, remap)) ->
  nd_bubble (node_desc fld) = Some bubble ->
  bubble !! 0%nat = Some iep ->
  length (ap_econn fld) = length (region_get_cells fld) ->
  Forall (fun row => length row = econn_n_ep fld) (ap_econn fld) ->
  length bubble = (econn_n_ep fld - iep)%nat ->
  Z.of_nat (n_vertex_dof fld + n_edge_dof fld + n_face_dof fld)
    + Z.of_nat (length bubble * length (region_get_cells fld)) <= 2 ^ 31 ->
  let offset :=
    Z.of_nat (n_vertex_dof fld + n_edge_dof fld + n_face_dof fld) in
  let n := length bubble in
  n_dof = (n * length (region_get_cells fld))%nat /\
  (forall c j, (c < length (region_get_cells fld))%nat -> (j < n)%nat ->
     lookup2 econn' c (iep + j) = Some (offset + Z.of_nat (c * n + j)) /\
     offset <= offset + Z.of_nat (c * n + j) < offset + Z.of_nat n_dof) /\
  (forall c j c' j',
     (c < length (region_get_cells fld))%nat -> (j < n)%nat ->
     (c' < length (region_get_cells fld))%nat -> (j' < n)%nat ->
     lookup2 econn' c (iep + j) = lookup2 econn' c' (iep + j') ->
     c = c' /\ j = j') /\
  (forall c col, (col < iep)%nat ->
     lookup2 econn' c col = lookup2 (ap_econn fld) c col).
Proof.
  intros H Hb Hiep Hrows Hrect Hcols Hbound offset n.
  unfold _setup_bubble_dofs in H. rewrite Hb in H.
  rewrite arange_int32_small in H by lia.
  apply bind_ok in H as (rm & _ & H). apply bind_ok in H as (iep' & Hiep' & H).
  apply getitem_ok in Hiep'. rewrite Hiep in Hiep'. injection Hiep' as <-.
  apply bind_ok in H as (e & He & H). injection H as <- <- _ _.
  fold n in He. fold n in Hcols.
  set (m := length (region_get_cells fld)) in *.
  unfold assign_columns_from in He.
  apply bind_ok in He as (u & _ & He). apply bind_ok in He as (rows & Hrows' & He).
  rewrite broadcast_to_same in Hrows' by (rewrite length_reshape; lia).
  injection Hrows' as <-.
  assert (Hn : (0 < n)%nat) by (apply lookup_lt_Some in Hiep; exact Hiep).
  assert (Hrow' : forall c, (c < m)%nat -> exists row,
            ap_econn fld !! c = Some row /\ length row = econn_n_ep fld /\
            e !! c = Some (take iep row
                           ++ take n (drop (c * n)
                                        (arange offset (n * m))))).
  { intros c Hc. destruct (lookup_lt_is_Some_2 (ap_econn fld) c) as [row Hrow];
      [lia |].
    assert (Hlen : length row = econn_n_ep fld).
    { rewrite Forall_forall in Hrect. apply Hrect.
      eapply list_elem_of_lookup_2. exact Hrow. }
    exists row. split; [exact Hrow |]. split; [exact Hlen |].
    apply (assign_tails_lookup _ _ _ _ He c row _ Hrow).
    - apply reshape_lookup. exact Hc.
    - rewrite length_take, length_drop, length_arange. nia. }
  assert (Hval : forall c j, (c < m)%nat -> (j < n)%nat ->
            lookup2 e c (iep + j) = Some (offset + Z.of_nat (c * n + j))).
  { intros c j Hc Hj. destruct (Hrow' c Hc) as (row & _ & Hlen & He').
    unfold lookup2. rewrite He'. simpl.
    rewrite lookup_app_r by (rewrite length_take; lia).
    rewrite length_take.
    replace (iep + j - iep `min` length row)%nat with j by lia.
    rewrite lookup_take_lt by exact Hj. rewrite lookup_drop.
    apply arange_lookup. nia. }
  split; [reflexivity |]. split; [| split].
  - intros c j Hc Hj. split; [exact (Hval c j Hc Hj) | nia].
  - intros c j c' j' Hc Hj Hc' Hj' Heq.
    rewrite (Hval c j Hc Hj), (Hval c' j' Hc' Hj') in Heq.
    injection Heq as Heq.
    assert (Hnat : (c * n + j = c' * n + j')%nat) by lia.
    assert (Hcc : c = c').
    { destruct (Nat.lt_trichotomy c c') as [Hlt | [Heq' | Hgt]];
        [exfalso | exact Heq' | exfalso].
      - assert (S c * n <= c' * n)%nat by (apply Nat.mul_le_mono_r; lia).
        simpl in *. lia.
      - assert (S c' * n <= c * n)%nat by (apply Nat.mul_le_mono_r; lia).
        simpl in *. lia. }
    subst c'. split; [reflexivity | lia].
  - intros c col Hcol. unfold lookup2.
    destruct (decide (c < m)%nat) as [Hc | Hc].
    + destruct (Hrow' c Hc) as (row & Hrow & Hlen & He').
      rewrite He', Hrow. simpl.
      rewrite lookup_app_l by (rewrite length_take; lia).
      apply lookup_take_lt. exact Hcol.
    + pose proof (length_assign_tails _ _ _ _ He) as Hlen.
      rewrite (proj2 (lookup_ge_None e c)) by lia.
      rewrite (proj2 (lookup_ge_None (ap_econn fld) c)) by lia. reflexivity.
Qed.

Lemma two_quads_econn1_rect :
  Forall (fun row : list Z => length row = 16%nat) two_quads_econn1.
Proof. repeat constructor. Qed.

Lemma setup_bubble_dofs_owned_witness :
  lookup2 two_quads_econn2 1 (12 + 2) = Some (20 + Z.of_nat (1 * 4 + 2)) /\
  20 <= 20 + Z.of_nat (1 * 4 + 2) < 20 + Z.of_nat 8.
Proof.
  exact (proj1 (proj2 (setup_bubble_dofs_owned
           (two_quads_field two_quads_econn1 14 0) two_quads_econn2 8
           (Some [[20; 21; 22; 23]; [24; 25; 26; 27]]) (Some [0; 1])
           [12; 13; 14; 15]%nat 12 eq_refl eq_refl eq_refl eq_refl
           two_quads_econn1_rect eq_refl ltac:(simpl; lia)))
         1%nat 2%nat ltac:(simpl; lia) ltac:(simpl; lia)).
Defined.

(** ** The discontinuous field *)

(** X5.  In the discontinuous field every slot has a DOF of its own.  As
    long as the number of slots stays within [int32] (at most [2^31]; the
    array of ids is [int32] and wraps around beyond), the slot [(c, j)] of
    the connectivity [_setup_global_base] assigns holds [c * n_ep + j], an
    id below [n_nod], and no two slots hold the same id: no DOF is shared by
    two cells or two places of a cell.  All DOFs count as bubble DOFs, and
    the vertex, edge and face tiers are empty. *)
Theorem setup_global_base_own_dofs (econn : list (list Z)) (n_ep : nat) :
  Z.of_nat (length econn * n_ep) <= 2 ^ 31 ->
  let gb := _setup_global_base econn n_ep in
  (forall c j, (c < length econn)%nat -> (j < n_ep)%nat ->
     lookup2 (gb_econn gb) c j = Some (Z.of_nat (c * n_ep + j)) /\
     0 <= Z.of_nat (c * n_ep + j) < Z.of_nat (gb_n_nod gb)) /\
  (forall c j c' j',
     (c < length econn)%nat -> (j < n_ep)%nat ->
     (c' < length econn)%nat -> (j' < n_ep)%nat ->
     lookup2 (gb_econn gb) c j = lookup2 (gb_econn gb) c' j' ->
     c = c' /\ j = j') /\
  NoDup (concat (gb_econn gb)) /\
  length (gb_econn gb) = length econn /\
  gb_n_nod gb = (length econn * n_ep)%nat /\
  gb_n_bubble_dof gb = gb_n_nod gb /\
  (gb_n_vertex_dof gb + gb_n_edge_dof gb + gb_n_face_dof gb = 0)%nat /\
  gb_bubble_dofs gb = gb_econn gb.
Proof.
  intros Hbound. simpl. rewrite arange_int32_small by lia.
  assert (Hval : forall c j, (c < length econn)%nat -> (j < n_ep)%nat ->
            lookup2 (reshape (length econn) n_ep
                       (arange 0 (length econn * n_ep))) c j
            = Some (Z.of_nat (c * n_ep + j))).
  { intros c j Hc Hj. unfold lookup2.
    rewrite (reshape_arange_lookup 0 (length econn) n_ep c j Hc Hj).
    f_equal. }
  split; [| split; [| split; [| split; [apply length_reshape | auto]]]].
  - intros c j Hc Hj. split; [exact (Hval c j Hc Hj) | nia].
  - intros c j c' j' Hc Hj Hc' Hj' Heq.
    rewrite (Hval c j Hc Hj), (Hval c' j' Hc' Hj') in Heq.
    injection Heq as Heq.
    assert (Hnat : (c * n_ep + j = c' * n_ep + j')%nat) by lia.
    assert (Hcc : c = c').
    { destruct (Nat.lt_trichotomy c c') as [Hlt | [Heq' | Hgt]];
        [exfalso | exact Heq' | exfalso].
      - assert (S c * n_ep <= c' * n_ep)%nat
          by (apply Nat.mul_le_mono_r; lia).
        simpl in *. lia.
      - assert (S c' * n_ep <= c * n_ep)%nat
          by (apply Nat.mul_le_mono_r; lia).
        simpl in *. lia. }
    subst c'. split; [reflexivity | lia].
  - rewrite concat_reshape by apply length_arange. apply NoDup_arange.
Qed.

Lemma setup_global_base_own_dofs_witness :
  lookup2 (gb_econn (_setup_global_base [[0; 0; 0]; [0; 0; 0]] 3)) 1 2
  = Some (Z.of_nat (1 * 3 + 2)).
Proof.
  exact (proj1 (proj1 (setup_global_base_own_dofs [[0; 0; 0]; [0; 0; 0]] 3
                         ltac:(simpl; lia))
                 1%nat 2%nat ltac:(simpl; lia) ltac:(lia))).
Defined.

(** ** Values of DOFs in a region *)

Lemma StronglySorted_seq (a n : nat) : StronglySorted lt (seq a n).
Proof.
  revert a. induction n as [|n IH]; intros a; simpl; constructor.
  - apply IH.
  - apply List.Forall_forall. intros x Hx. apply in_seq in Hx. lia.
Qed.

Lemma StronglySorted_Lfilter {A : Type} (R : A -> A -> Prop) (p : A -> bool)
    (l : list A) :
  StronglySorted R l -> StronglySorted R (List.filter p l).
Proof.
  induction 1 as [|a l Hl IH Ha]; simpl; [constructor |].
  destruct (p a); [| exact IH]. constructor; [exact IH |].
  apply List.Forall_forall. intros x Hx. apply filter_In in Hx as [Hx _].
  rewrite List.Forall_forall in Ha. apply Ha, Hx.
Qed.

Lemma unique_sorted (l : list nat) : StronglySorted lt (unique l).
Proof. apply StronglySorted_Lfilter, StronglySorted_seq. Qed.

Lemma unique_NoDup (l : list nat) : NoDup (unique l).
Proof.
  unfold unique. apply NoDup_ListNoDup, List.NoDup_filter, NoDup_ListNoDup,
    NoDup_seq.
Qed.

Lemma elem_of_unique_nodes (l : list nat) (x : nat) : x ∈ unique l <-> x ∈ l.
Proof.
  unfold unique. rewrite list_elem_of_In, filter_In, bool_decide_eq_true,
    <- list_elem_of_In. split.
  - intros [_ H]. exact H.
  - intros H. split; [| exact H]. apply elem_of_seq. split; [lia |].
    assert (x <= list_max l)%nat; [| lia].
    pose proof (proj1 (list_max_le l (list_max l)) (Nat.le_refl _)) as Hall.
    rewrite List.Forall_forall in Hall. apply Hall, list_elem_of_In, H.
Qed.

Lemma length_repeat_each {A : Type} (a : list A) (n : nat) :
  length (repeat_each a n) = (length a * n)%nat.
Proof.
  unfold repeat_each. induction a as [|x a IH]; simpl; [reflexivity |].
  rewrite length_app, length_replicate, IH. reflexivity.
Qed.

Lemma repeat_each_lookup {A : Type} (a : list A) (n k i : nat) :
  (i < n)%nat -> repeat_each a n !! (k * n + i)%nat = a !! k.
Proof.
  intros Hi. unfold repeat_each. rewrite flat_map_concat_map.
  destruct (a !! k) as [v |] eqn:Hk.
  - rewrite (lookup_concat_rows n _ k i (replicate n v)).
    + apply lookup_replicate_2. exact Hi.
    + apply List.Forall_forall. intros l Hl. apply in_map_iff in Hl
        as (y & <- & _). apply length_replicate.
    + rewrite list_lookup_fmap, Hk. reflexivity.
    + exact Hi.
  - apply lookup_ge_None. apply lookup_ge_None in Hk.
    rewrite <- flat_map_concat_map.
    pose proof (length_repeat_each a n) as Hlen. unfold repeat_each in Hlen.
    rewrite Hlen. nia.
Qed.

Lemma repeat_each_replicate {A : Type} (x : A) (d n : nat) :
  repeat_each (replicate d x) n = replicate (d * n) x.
Proof.
  unfold repeat_each. induction d as [|d IH]; simpl; [reflexivity |].
  rewrite IH, <- replicate_add. reflexivity.
Qed.

Lemma set_dofs_inv {R : Type} (self_region : R) (n_components : nat)
    (get_dofs_in_region : R -> list (list nat))
    (get_coor : list nat -> list (list float64))
    (fun_ : dofs_value) (region : option R) (dpn : option nat)
    (nods : list nat) (vals : list float64) :
  set_dofs self_region n_components get_dofs_in_region get_coor fun_ region
    dpn = Ok (nods, vals) ->
  get_dofs_in_region (default self_region region) <> [] /\
  nods = unique (concat (get_dofs_in_region (default self_region region))) /\
  match fun_ with
  | ValCallable f => f (get_coor nods) = Ok vals
  | ValScalar x =>
      vals = repeat_each [x] (length nods * default n_components dpn)
  | ValArray shape data =>
      head shape = Some (default n_components dpn) /\
      vals = repeat_each data (length nods)
  | ValOther => False
  end.
Proof.
  unfold set_dofs, hstack. intros H.
  destruct (get_dofs_in_region (default self_region region)) as [|g gs];
    [discriminate H |]. split; [congruence |].
  set (aux := g :: gs) in *.
  destruct fun_ as [f | x | shape data |]; simpl in H.
  - apply bind_ok in H as (v & Hf & H). injection H as <- <-. auto.
  - injection H as <- <-. auto.
  - destruct shape as [|m rest]; simpl in H; [discriminate H |].
    unfold assert_ in H.
    destruct (m =? default n_components dpn)%nat eqn:Hlen;
      simpl in H; [| discriminate H].
    injection H as <- <-. apply Nat.eqb_eq in Hlen. subst m. auto.
  - discriminate H.
Qed.

(** X6.  The nodes [set_dofs] returns are the DOFs of the groups
    [get_dofs_in_region] gives for the region (the field's own region when
    none is passed), each one once and in strictly ascending order, whatever
    the kind of value. *)
Theorem set_dofs_nodes {R : Type} (self_region : R) (n_components : nat)
    (get_dofs_in_region : R -> list (list nat))
    (get_coor : list nat -> list (list float64))
    (fun_ : dofs_value) (region : option R) (dpn : option nat)
    (nods : list nat) (vals : list float64) :
  set_dofs self_region n_components get_dofs_in_region get_coor fun_ region
    dpn = Ok (nods, vals) ->
  StronglySorted lt nods /\
  NoDup nods /\
  forall x, x ∈ nods <->
    exists group, group ∈ get_dofs_in_region (default self_region region) /\
                  x ∈ group.
Proof.
  intros H. apply set_dofs_inv in H as (_ & -> & _).
  split; [apply unique_sorted |]. split; [apply unique_NoDup |].
  intros x. rewrite elem_of_unique_nodes, !list_elem_of_In, in_concat. split.
  - intros (g & Hg & Hx). exists g. rewrite !list_elem_of_In. auto.
  - intros (g & Hg & Hx). exists g. rewrite !list_elem_of_In in *. auto.
Qed.

Lemma set_dofs_nodes_witness :
  StronglySorted lt [1; 2; 3]%nat /\ NoDup [1; 2; 3]%nat.
Proof.
  pose proof (set_dofs_nodes tt 1 (fun _ => [[3; 1]; [1; 2]]%nat)
                (fun _ => []) (ValScalar f_zero) None None
                [1; 2; 3]%nat [f_zero; f_zero; f_zero] eq_refl) as H.
  exact (conj (proj1 H) (proj1 (proj2 H))).
Defined.

(** X7.  With an array value the first axis of the array has one entry per
    component ([dpn] of them), and the values repeat every entry of the
    flattened array once per node, in order: entry [k * n_nod + i] of the
    values is entry [k] of the flattened array, for every node [i].  For a
    one-dimensional array these are [dpn] blocks of [n_nod] entries, one
    block per component. *)
Theorem set_dofs_array_layout {R : Type} (self_region : R)
    (n_components : nat) (get_dofs_in_region : R -> list (list nat))
    (get_coor : list nat -> list (list float64))
    (shape : list nat) (data : list float64) (region : option R)
    (dpn : option nat) (nods : list nat) (vals : list float64) :
  set_dofs self_region n_components get_dofs_in_region get_coor
    (ValArray shape data) region dpn = Ok (nods, vals) ->
  head shape = Some (default n_components dpn) /\
  length vals = (length data * length nods)%nat /\
  (forall k i, (i < length nods)%nat ->
     vals !! (k * length nods + i)%nat = data !! k) /\
  (shape = [length data] ->
   length vals = (default n_components dpn * length nods)%nat).
Proof.
  intros H. apply set_dofs_inv in H as (_ & _ & Hhead & ->).
  split; [exact Hhead |]. split; [apply length_repeat_each |]. split.
  - intros k i Hi. apply repeat_each_lookup, Hi.
  - intros ->. injection Hhead as <-. apply length_repeat_each.
Qed.

Lemma set_dofs_array_layout_witness :
  [f_zero; f_zero; f_zero; f_one; f_one; f_one;
   f_half; f_half; f_half; f_one; f_one; f_one] !! (2 * 3 + 1)%nat
  = [f_zero; f_one; f_half; f_one] !! 2%nat.
Proof.
  exact (proj1 (proj2 (proj2 (set_dofs_array_layout tt 1
           (fun _ => [[3; 1]; [1; 2]]%nat) (fun _ => [])
           [2; 2]%nat [f_zero; f_one; f_half; f_one] None (Some 2%nat)
           [1; 2; 3]%nat
           [f_zero; f_zero; f_zero; f_one; f_one; f_one;
            f_half; f_half; f_half; f_one; f_one; f_one] eq_refl)))
         2%nat 1%nat ltac:(simpl; lia)).
Defined.

(** X8.  A scalar value stands for the one-dimensional array that repeats
    it once per component: both calls of [set_dofs] give the same nodes and
    the same values, one copy of the scalar per node and component. *)
Theorem set_dofs_scalar_as_array {R : Type} (self_region : R)
    (n_components : nat) (get_dofs_in_region : R -> list (list nat))
    (get_coor : list nat -> list (list float64))
    (x : float64) (region : option R) (dpn : option nat) :
  set_dofs self_region n_components get_dofs_in_region get_coor (ValScalar x)
    region dpn
  = set_dofs self_region n_components get_dofs_in_region get_coor
      (ValArray [default n_components dpn]
                (replicate (default n_components dpn) x)) region dpn.
Proof.
  unfold set_dofs, hstack.
  destruct (get_dofs_in_region (default self_region region)) as [|g gs];
    [reflexivity |]. set (aux := g :: gs). simpl. unfold assert_.
  rewrite Nat.eqb_refl. simpl.
  rewrite repeat_each_replicate. unfold repeat_each. simpl.
  rewrite app_nil_r. do 3 f_equal. lia.
Qed.

(** X9.  Which values [set_dofs] accepts.  The call returns only when the
    region has groups of DOFs to stack and the value is a callable that
    returns, a scalar, or an array whose first axis has [dpn] entries; with
    groups at hand, a scalar and such an array are always accepted.  The
    refusals: a [ValueError] when there is no group to stack, when the value
    is of another type, and when the first axis of an array has not [dpn]
    entries; a [TypeError] for an array without axes, which has no
    length. *)
Theorem set_dofs_raises {R : Type} (self_region : R) (n_components : nat)
    (get_dofs_in_region : R -> list (list nat))
    (get_coor : list nat -> list (list float64))
    (region : option R) (dpn : option nat) :
  let aux := get_dofs_in_region (default self_region region) in
  let call := set_dofs self_region n_components get_dofs_in_region get_coor in
  (forall fun_ nods vals, call fun_ region dpn = Ok (nods, vals) ->
     aux <> [] /\
     match fun_ with
     | ValCallable f => f (get_coor nods) = Ok vals
     | ValScalar _ => True
     | ValArray shape _ => head shape = Some (default n_components dpn)
     | ValOther => False
     end) /\
  (forall x, aux <> [] -> exists out, call (ValScalar x) region dpn = Ok out) /\
  (forall rest data, aux <> [] ->
     exists out,
       call (ValArray (default n_components dpn :: rest) data) region dpn
       = Ok out) /\
  (forall fun_, aux = [] -> call fun_ region dpn = Raise ValueError) /\
  call ValOther region dpn = Raise ValueError /\
  (forall m rest data, m <> default n_components dpn ->
     call (ValArray (m :: rest) data) region dpn = Raise ValueError) /\
  (forall data, aux <> [] ->
     call (ValArray [] data) region dpn = Raise TypeError).
Proof.
  cbv zeta. split; [| split; [| split; [| split; [| split; [| split]]]]].
  - intros fun_ nods vals H. apply set_dofs_inv in H as (Haux & _ & H).
    split; [exact Haux |].
    destruct fun_ as [f | x | shape data |]; [exact H | exact I | | exact H].
    exact (proj1 H).
  - intros x Haux. unfold set_dofs, hstack.
    destruct (get_dofs_in_region (default self_region region)) as [|g gs];
      [congruence |]. eexists. reflexivity.
  - intros rest data Haux. unfold set_dofs, hstack.
    destruct (get_dofs_in_region (default self_region region)) as [|g gs];
      [congruence |]. simpl. unfold assert_. rewrite Nat.eqb_refl.
    eexists. reflexivity.
  - intros fun_ Haux. unfold set_dofs, hstack. rewrite Haux. reflexivity.
  - unfold set_dofs, hstack.
    destruct (get_dofs_in_region (default self_region region));
      reflexivity.
  - intros m rest data Hm. unfold set_dofs, hstack.
    destruct (get_dofs_in_region (default self_region region)) as [|g gs];
      [reflexivity |]. simpl. unfold assert_.
    rewrite (proj2 (Nat.eqb_neq _ _) Hm). reflexivity.
  - intros data Haux. unfold set_dofs, hstack.
    destruct (get_dofs_in_region (default self_region region)) as [|g gs];
      [congruence |]. reflexivity.
Qed.

(** ** Evaluation in points *)

(** X10.  [evaluate_at] returns only for the modes ['val'] and ['grad']: any
    other mode leaves [vals] unbound, and the call cannot yield a result.
    When [ret_status] is False it returns only if every point whose status
    is greater than 1 is a row of the values, since the NaN overwrite
    indexes the values at these points. *)
Theorem evaluate_at_returns_only_if (located : ref_coors_out)
    (evaluate_in_rc : Z -> list (list (list float64))) (mode : string)
    (ret_cells ret_status ret_ref_coors : bool) (r : evaluate_at_ret) :
  evaluate_at located evaluate_in_rc mode ret_cells ret_status ret_ref_coors
    = Ok r ->
  (mode = "val"%string \/ mode = "grad"%string) /\
  (ret_status = false ->
   forall i s, status located !! i = Some s -> 1 < s ->
     (i < nd_length (interpolated evaluate_in_rc mode))%nat).
Proof.
  intros H. split.
  - unfold evaluate_at in H.
    destruct (String.eqb_spec mode "val") as [-> | _]; [auto |].
    destruct (String.eqb_spec mode "grad") as [-> | _]; [auto |].
    discriminate H.
  - intros -> i s Hs Hgt. apply evaluate_at_inv in H as [Hvals _].
    apply set_nan_rows in Hvals as [_ Hrows].
    destruct (proj1 (Hrows i s Hs) Hgt) as (row0 & Hrow0 & _).
    destruct (interpolated evaluate_in_rc mode) as [a | a]; simpl in *;
      destruct (a !! i) eqn:Hi; try discriminate Hrow0;
      eapply lookup_lt_Some; exact Hi.
Qed.

Lemma evaluate_at_returns_only_if_witness :
  ("grad" = "val" \/ "grad" = "grad")%string /\
  (1 < nd_length (interpolated interp_sample2 "grad"))%nat.
Proof.
  pose proof (evaluate_at_returns_only_if located_sample interp_sample2
                "grad" false false false
                (RetVals (Arr3 [[[f_half; f_zero]; [f_one; f_one]];
                                [[nan; nan]; [nan; nan]];
                                [[f_one; f_one]; [f_half; f_half]]]))
                eq_refl) as [Hmode Hrows].
  split; [exact Hmode |].
  apply (Hrows eq_refl 1%nat 2 eq_refl). reflexivity.
Defined.

(** X11.  What the caller gets beside the values: the reference coordinates
    when [ret_ref_coors] is set, the status when [ret_ref_coors] or
    [ret_status] is set, the cells when any of the three flags is set, each
    one exactly as the point location returned it; the values have one row
    per row of the interpolated array, masked or not. *)
Theorem evaluate_at_returned_tuple (located : ref_coors_out)
    (evaluate_in_rc : Z -> list (list (list float64))) (mode : string)
    (ret_cells ret_status ret_ref_coors : bool) (r : evaluate_at_ret) :
  evaluate_at located evaluate_in_rc mode ret_cells ret_status ret_ref_coors
    = Ok r ->
  ret_ref_coors_of r
    = (if ret_ref_coors then Some (ref_coors located) else None) /\
  ret_status_of r
    = (if ret_ref_coors || ret_status then Some (status located) else None) /\
  ret_cells_of r
    = (if ret_ref_coors || ret_status || ret_cells
       then Some (cells located) else None) /\
  nd_length (ret_vals r) = nd_length (interpolated evaluate_in_rc mode).
Proof.
  intros H. apply evaluate_at_inv in H as [Hvals Hr].
  assert (Hlen : nd_length (ret_vals r)
                 = nd_length (interpolated evaluate_in_rc mode)).
  { destruct ret_status; [rewrite Hvals; reflexivity |].
    apply set_nan_rows in Hvals as [Hlen _]. exact Hlen. }
  rewrite Hr.
  destruct ret_ref_coors, ret_status, ret_cells; simpl; auto.
Qed.

Lemma evaluate_at_returned_tuple_witness :
  ret_status_of (RetValsCellsStatus (Arr2 [[f_half]; [f_one]; [f_one]])
                   [0; 0; 0] [0; 2; 1])
  = Some (status located_sample).
Proof.
  exact (proj1 (proj2 (evaluate_at_returned_tuple located_sample
           interp_sample "val" false true false
           (RetValsCellsStatus (Arr2 [[f_half]; [f_one]; [f_one]])
              [0; 0; 0] [0; 2; 1]) eq_refl))).
Defined.

End FieldsNodalMore.

(** * Further properties of [refine_hanging.py] *)

Module RefineHangingMore.
Import RefineHanging RefineHangingSpec FieldsNodalProofs RefineHangingProofs.

(** ** The rows of the level interface *)

Lemma intersect1d_sorted (a b : list nat) :
  StronglySorted lt (intersect1d a b).
Proof.
  unfold intersect1d, unique.
  do 2 apply FieldsNodalMore.StronglySorted_Lfilter.
  apply FieldsNodalMore.StronglySorted_seq.
Qed.

Lemma find_level_interface_facets_eq (d : domain) (refine_flag : list bool)
    (facets cells : list (nat * nat * nat)) (r0 r1 : option region) :
  existsb id refine_flag = true ->
  find_level_interface d refine_flag = Ok (facets, cells, r0, r1) ->
  exists R0 R1,
    create_region d (nonzero (map negb refine_flag)) = Ok R0 /\
    create_region d (nonzero refine_flag) = Ok R1 /\
    r0 = Some R0 /\ r1 = Some R1 /\
    facets = map (facets_row d refine_flag)
                 (intersect1d (rfacets R0) (rfacets R1)) /\
    cells = map (cells_row d refine_flag (rcells R0))
                (intersect1d (rfacets R0) (rfacets R1)).
Proof.
  intros Hany H.
  destruct (find_level_interface_regions _ _ _ Hany H) as (R0 & R1 & H0 & H1).
  exists R0, R1. rewrite (find_level_interface_eq d refine_flag R0 R1 Hany H0 H1)
    in H. cbv zeta in H.
  destruct (forallb _ _); [| discriminate H].
  destruct (forallb _ _); [| discriminate H].
  injection H as <- <- <- <-. auto 10.
Qed.

(** X12.  The first column of [facets] lists the facets of the level
    interface, the facets that belong both to a cell that is refined and to a
    cell that stays coarse: every such facet has one row, no other facet has
    one, and the rows come in strictly ascending order of the facet number
    (so no facet is listed twice). *)
Theorem find_level_interface_facets (d : domain) (refine_flag : list bool)
    (facets cells : list (nat * nat * nat)) (r0 r1 : option region) :
  existsb id refine_flag = true ->
  find_level_interface d refine_flag = Ok (facets, cells, r0, r1) ->
  StronglySorted lt (map (fun r => r.1.1) facets) /\
  forall f, f ∈ map (fun r => r.1.1) facets <-> is_interface d refine_flag f.
Proof.
  intros Hany H.
  destruct (find_level_interface_facets_eq _ _ _ _ _ _ Hany H)
    as (R0 & R1 & H0 & H1 & _ & _ & -> & _).
  rewrite map_map. simpl. rewrite map_id. split.
  - apply intersect1d_sorted.
  - intros f. apply (elem_of_interface d refine_flag R0 R1 f H0 H1).
Qed.

Lemma find_level_interface_facets_witness :
  StronglySorted lt (map (fun r => r.1.1) quads4_facets).
Proof.
  exact (proj1 (find_level_interface_facets quads4 quads4_flag quads4_facets
                  quads4_cells (Some quads4_coarse) (Some quads4_refine)
                  eq_refl eq_refl)).
Defined.

(** ** The cells of the locally refined mesh *)

Lemma length_take_ {A : Type} (a : list A) (idx : list nat) (xs : list A) :
  take_ a idx = Ok xs -> length xs = length idx.
Proof. intros H. apply take_ok, Forall2_length in H. auto. Qed.

(** X13.  The new mesh lists the coarse cells first and the cells of the
    refined sub-mesh after them, and [sub_cells] addresses the latter: row
    [i] names the [i]-th refined cell and four ids [n0 + 4 i + k], and the
    cell with that id in the new mesh is cell [4 i + k] of the refined
    sub-mesh, with its material id ([n0] is the number of coarse cells; the
    ids are [uint32], so [n0 + 4 n1] is assumed not to wrap). *)
Theorem refine_region_children (ext : externals) (d d' : domain)
    (R0 R1 : region) (sc : option (list (nat * list Z))) :
  refine_region ext d (Some R0) (Some R1) = Ok (d', sc) ->
  Z.of_nat (length (rcells R0)) + 4 * Z.of_nat (length (rcells R1)) <= 2 ^ 32 ->
  let fine := refine_submesh ext R1 (dmesh d) in
  n_el d' = (length (rcells R0) + length (conn fine))%nat /\
  exists rows,
    sc = Some rows /\ length rows = length (rcells R1) /\
    forall i c children k id,
      rows !! i = Some (c, children) -> children !! k = Some id ->
      rcells R1 !! i = Some c /\ (k < 4)%nat /\
      id = Z.of_nat (length (rcells R0) + (4 * i + k)) /\
      conn (dmesh d') !! Z.to_nat id = conn fine !! (4 * i + k)%nat /\
      mat_ids (dmesh d') !! Z.to_nat id = mat_ids fine !! (4 * i + k)%nat.
Proof.
  intros H Hbound fine.
  destruct (refine_region_ok _ _ _ _ _ _ H)
    as (conn0c & mat0c & Hconn & Hmat & Hmesh & ->).
  apply length_take_ in Hconn, Hmat.
  unfold n_el. rewrite Hmesh. simpl. rewrite length_app, Hconn.
  split; [reflexivity |]. eexists. split; [reflexivity |].
  split; [apply length_imap |].
  intros i c children k id Hrow Hk.
  rewrite list_lookup_imap in Hrow.
  destruct (rcells R1 !! i) as [c' |] eqn:Hc; [| discriminate Hrow].
  injection Hrow as <- <-. pose proof (lookup_lt_Some _ _ _ Hc) as Hi.
  rewrite (sub_cells_row_small _ (length (rcells R1)) i Hi Hbound) in Hk.
  rewrite list_lookup_fmap in Hk.
  destruct (seq 0 4 !! k) as [k' |] eqn:Hseq; [| discriminate Hk].
  apply lookup_seq in Hseq as [-> Hlt]. injection Hk as <-.
  split; [reflexivity |]. split; [exact Hlt |]. split; [reflexivity |].
  rewrite Nat2Z.id. fold fine. split.
  - rewrite lookup_app_r by lia. f_equal. lia.
  - rewrite lookup_app_r by lia. f_equal. lia.
Qed.

Lemma refine_region_children_witness :
  conn (dmesh quads4_refined) !! Z.to_nat 8
  = conn (refine_submesh (sample_ext 4) quads4_refine (dmesh quads4))
      !! (4 * 1 + 2)%nat.
Proof.
  pose proof (refine_region_children (sample_ext 4) quads4 quads4_refined
                quads4_coarse quads4_refine (Some quads4_sub_cells) eq_refl
                ltac:(simpl; lia)) as [_ (rows & Hrows & _ & H)].
  injection Hrows as <-.
  exact (proj1 (proj2 (proj2 (proj2
           (H 1%nat 2%nat [6; 7; 8; 9] 2%nat 8 eq_refl eq_refl))))).
Defined.

Lemma take_raises {A : Type} (a : list A) (idx : list nat) (e : exn) :
  take_ a idx = Raise e <->
  e = IndexError /\ exists i, i ∈ idx /\ (length a <= i)%nat.
Proof.
  induction idx as [|j idx IH]; simpl.
  - split; [discriminate |]. intros (_ & i & Hi & _).
    apply not_elem_of_nil in Hi. contradiction.
  - unfold getitem at 1. destruct (a !! j) as [x |] eqn:Hj; simpl.
    + pose proof (lookup_lt_Some _ _ _ Hj) as Hlt.
      destruct (take_ a idx) as [xs | e'] eqn:Htake; simpl.
      * split; [discriminate |]. intros (-> & i & Hi & Hle).
        apply elem_of_cons in Hi as [-> | Hi]; [lia |].
        assert (H : Ok xs = Raise IndexError) by (apply IH; eauto).
        discriminate H.
      * split.
        -- intros [= <-]. destruct (proj1 IH eq_refl) as (-> & i & Hi & Hle).
           split; [reflexivity |]. exists i.
           split; [apply elem_of_cons; auto | exact Hle].
        -- intros (-> & i & Hi & Hle).
           apply elem_of_cons in Hi as [-> | Hi]; [lia |].
           assert (H : Raise (A := list A) e' = Raise IndexError)
             by (apply IH; eauto).
           injection H as ->. reflexivity.
    + apply lookup_ge_None in Hj. split.
      * intros [= <-]. split; [reflexivity |]. exists j.
        split; [apply elem_of_cons; auto | exact Hj].
      * intros (-> & _). reflexivity.
Qed.

(** X14.  [refine_region] with a region to refine fails in two ways only: an
    [AttributeError] when no coarse region comes with it, and an
    [IndexError] when a cell of the coarse region has no row in the
    connectivity or no material id; in every other case it returns. *)
Theorem refine_region_raises (ext : externals) (d : domain)
    (r0 : option region) (R1 : region) (e : exn) :
  refine_region ext d r0 (Some R1) = Raise e <->
  (r0 = None /\ e = AttributeError) \/
  (exists R0, r0 = Some R0 /\ e = IndexError /\
     exists c, c ∈ rcells R0 /\
       ((length (conn (dmesh d)) <= c)%nat \/
        (length (mat_ids (dmesh d)) <= c)%nat)).
Proof.
  unfold refine_region. destruct r0 as [R0 |]; cbn [mbind result_bind].
  - pose proof (take_raises (conn (dmesh d)) (rcells R0)) as Hconn.
    pose proof (take_raises (mat_ids (dmesh d)) (rcells R0)) as Hmat.
    destruct (take_ (conn (dmesh d)) (rcells R0)) as [c0 | e0];
      cbn [mbind result_bind].
    + destruct (take_ (mat_ids (dmesh d)) (rcells R0)) as [m0 | e1];
        cbn [mbind result_bind].
      * split; [discriminate |].
        intros [[H _] | (R & [= <-] & -> & c & Hc & [Hle | Hle])];
          [discriminate H | |].
        -- assert (H : Ok c0 = Raise IndexError) by (apply Hconn; eauto).
           discriminate H.
        -- assert (H : Ok m0 = Raise IndexError) by (apply Hmat; eauto).
           discriminate H.
      * split.
        -- intros [= <-]. right. exists R0. split; [reflexivity |].
           destruct (proj1 (Hmat e1) eq_refl) as (-> & c & Hc & Hle). eauto.
        -- intros [[H _] | (R & _ & -> & _)]; [discriminate H |].
           destruct (proj1 (Hmat e1) eq_refl) as (-> & _). reflexivity.
    + split.
      * intros [= <-]. right. exists R0. split; [reflexivity |].
        destruct (proj1 (Hconn e0) eq_refl) as (-> & c & Hc & Hle). eauto.
      * intros [[H _] | (R & _ & -> & _)]; [discriminate H |].
        destruct (proj1 (Hconn e0) eq_refl) as (-> & _). reflexivity.
  - split.
    + intros [= <-]. left. auto.
    + intros [[_ ->] | (R & H & _)]; [reflexivity | discriminate H].
Qed.

(** ** Substitution records of the interface facets *)

Lemma getitem_lookup {A : Type} (a : list A) (i : nat) (x : A) :
  a !! i = Some x -> getitem a i = Ok x.
Proof. intros H. unfold getitem. rewrite H. reflexivity. Qed.

Lemma find_facet_substitutions_loop_ok (cells : list (nat * nat * nat))
    (sc : list (nat * list Z)) (table : list (list (nat * nat)))
    (g : nat -> list Z) :
  forall (facets : list (nat * nat * nat)) (ii : nat),
  (forall j fac, facets !! j = Some fac ->
     exists row srow rf used,
       cells !! (ii + j)%nat = Some row /\
       sc !! searchsorted (map fst sc) row.1.1 = Some srow /\
       table !! fac.1.2 = Some rf /\
       take_ srow.2 (map fst rf) = Ok used /\
       g (ii + j)%nat
       = [Z.of_nat row.2; Z.of_nat fac.2]
         ++ concat (zip_with (fun u f => [u; Z.of_nat f]) used (map snd rf))) ->
  find_facet_substitutions_loop ii facets cells (Some sc) table
  = Ok (map g (seq ii (length facets))).
Proof.
  induction facets as [|fac facets IH]; intros ii Hall; [reflexivity |].
  destruct (Hall O fac eq_refl) as (row & srow & rf & used & Hrow & Hsrow
                                    & Hrf & Hused & Hg).
  rewrite Nat.add_0_r in Hrow, Hg.
  cbn [find_facet_substitutions_loop length seq map].
  rewrite (getitem_lookup _ _ _ Hrow).
  cbn [mbind result_bind].
  rewrite (getitem_lookup _ _ _ Hsrow).
  cbn [mbind result_bind].
  rewrite (getitem_lookup _ _ _ Hrf).
  cbn [mbind result_bind].
  rewrite Hused.
  cbn [mbind result_bind].
  rewrite (IH (S ii)).
  - cbn [mbind result_bind]. rewrite Hg. reflexivity.
  - intros j fac' Hj. specialize (Hall (S j) fac' Hj).
    replace (S ii + j)%nat with (ii + S j)%nat by lia. exact Hall.
Qed.

Lemma map_fst_imap {A B : Type} (h : nat -> B) (l : list A) :
  map fst (imap (fun i c => (c, h i)) l) = l.
Proof.
  apply list_eq. intros i.
  rewrite list_lookup_fmap, list_lookup_imap.
  destruct (l !! i); reflexivity.
Qed.

Lemma refine_edges_2_4_used (f : nat -> Z) (l1 : nat) :
  (l1 < 4)%nat ->
  exists rf,
    refine_edges_2_4 !! l1 = Some rf /\
    take_ (map f (seq 0 4)) (map fst rf) = Ok [f l1; f ((l1 + 1) mod 4)%nat] /\
    map snd rf = [0; 3]%nat.
Proof.
  intros Hl.
  destruct l1 as [|[|[|[|l1]]]]; [| | | | lia];
    eexists; (split; [reflexivity |]); split; reflexivity.
Qed.

(** X15.  On a mesh of quadrilaterals the three steps fit together: with the
    rows of [find_level_interface] and the [sub_cells] of [refine_region],
    [find_facet_substitutions] with the edge table [refine_edges_2_4]
    returns one record per interface edge, in the order of the rows.  The
    record of the row [(f, l1, l2)], [(c1, c2, k)] is
    [[k, l2, n0 + 4 p + l1, 0, n0 + 4 p + (l1 + 1) mod 4, 3]], where [c1] is
    the [p]-th refined cell and [n0] the number of coarse cells: the coarse
    neighbour and its local edge, then the two children of the refined cell
    along the shared edge. *)
Theorem find_facet_substitutions_edges (ext : externals) (d d' : domain)
    (refine_flag : list bool) (facets cells : list (nat * nat * nat))
    (r0 r1 : option region) (sc : option (list (nat * list Z))) :
  existsb id refine_flag = true ->
  find_level_interface d refine_flag = Ok (facets, cells, r0, r1) ->
  refine_region ext d r0 r1 = Ok (d', sc) ->
  Forall (fun fs => length fs = 4%nat) (cell_facets d) ->
  Z.of_nat (length (nonzero (map negb refine_flag)))
    + 4 * Z.of_nat (length (nonzero refine_flag)) <= 2 ^ 32 ->
  exists subs,
    find_facet_substitutions facets cells sc refine_edges_2_4 = Ok subs /\
    length subs = length facets /\
    forall i f l1 l2 c1 c2 k,
      facets !! i = Some (f, l1, l2) -> cells !! i = Some (c1, c2, k) ->
      exists p,
        nonzero refine_flag !! p = Some c1 /\
        subs !! i
        = Some (edge_record (length (nonzero (map negb refine_flag)))
                            p l1 l2 k).
Proof.
  intros Hany Hfli Hreg Hquad Hbound.
  destruct (find_level_interface_out _ _ _ _ _ _ Hany Hfli)
    as (R0 & R1 & -> & -> & HR0 & HR1).
  destruct (interface_rows _ _ _ _ _ _ Hany Hfli) as [Hlen Hrows].
  destruct (refine_region_ok _ _ _ _ _ _ Hreg) as (_ & _ & _ & _ & _ & ->).
  rewrite HR0, HR1 in *.
  set (n0 := length (nonzero (map negb refine_flag))) in *.
  set (sub_cells := imap (fun i c => (c, sub_cells_row n0 i))
                         (nonzero refine_flag)).
  set (g := fun i =>
              match facets !! i, cells !! i with
              | Some (_, l1, l2), Some (c1, _, k) =>
                  edge_record n0 (searchsorted (nonzero refine_flag) c1)
                              l1 l2 k
              | _, _ => []
              end).
  assert (Hrun : find_facet_substitutions facets cells (Some sub_cells)
                   refine_edges_2_4
                 = Ok (map g (seq 0 (length facets)))).
  { apply find_facet_substitutions_loop_ok. intros j [[f l1] l2] Hf. simpl.
    destruct (lookup_lt_is_Some_2 cells j) as [[[c1 c2] k] Hc];
      [rewrite <- Hlen; eapply lookup_lt_Some; exact Hf |].
    destruct (Hrows j f l1 l2 c1 c2 k Hf Hc)
      as (Hc1 & _ & (fs & Hfs & Hl1) & _ & _).
    assert (Hl1' : (l1 < 4)%nat).
    { rewrite List.Forall_forall in Hquad.
      rewrite <- (Hquad fs).
      - eapply lookup_lt_Some. exact Hl1.
      - apply list_elem_of_In. eapply list_elem_of_lookup_2. exact Hfs. }
    pose proof (nonzero_lookup_searchsorted _ _ Hc1) as Hp.
    set (p := searchsorted (nonzero refine_flag) c1) in *.
    pose proof (lookup_lt_Some _ _ _ Hp) as Hp'.
    destruct (refine_edges_2_4_used
                (fun k => Z.of_nat (n0 + (4 * p + k))) l1 Hl1')
      as (rf & Hrf & Hused & Hfused).
    exists (c1, c2, k), (c1, sub_cells_row n0 p), rf. eexists.
    split; [exact Hc |]. simpl. unfold sub_cells.
    rewrite map_fst_imap. fold p. split.
    { rewrite list_lookup_imap, Hp. reflexivity. }
    split; [exact Hrf |]. split.
    { rewrite (sub_cells_row_small n0 (length (nonzero refine_flag)) p Hp'
                 Hbound). exact Hused. }
    unfold g. rewrite Hf, Hc, Hfused. fold p. unfold edge_record.
    cbn [app concat zip_with fst snd]. rewrite !Nat.add_assoc.
    reflexivity. }
  exists (map g (seq 0 (length facets))).
  split; [exact Hrun |]. split; [rewrite length_map, length_seq; reflexivity |].
  intros i f l1 l2 c1 c2 k Hf Hc.
  destruct (Hrows i f l1 l2 c1 c2 k Hf Hc) as (Hc1 & _).
  exists (searchsorted (nonzero refine_flag) c1).
  split; [apply nonzero_lookup_searchsorted; exact Hc1 |].
  rewrite list_lookup_fmap, lookup_seq_lt by (eapply lookup_lt_Some; exact Hf).
  simpl. unfold g. rewrite Hf, Hc. reflexivity.
Qed.

Lemma quads4_four_edges :
  Forall (fun fs : list nat => length fs = 4%nat) (cell_facets quads4).
Proof. repeat constructor. Qed.

Lemma find_facet_substitutions_edges_witness :
  exists subs,
    find_facet_substitutions quads4_facets quads4_cells
      (Some quads4_sub_cells) refine_edges_2_4 = Ok subs /\
    length subs = length quads4_facets /\
    forall i f l1 l2 c1 c2 k,
      quads4_facets !! i = Some (f, l1, l2) ->
      quads4_cells !! i = Some (c1, c2, k) ->
      exists p,
        nonzero quads4_flag !! p = Some c1 /\
        subs !! i
        = Some (edge_record (length (nonzero (map negb quads4_flag)))
                            p l1 l2 k).
Proof.
  exact (find_facet_substitutions_edges (sample_ext 4) quads4 quads4_refined
           quads4_flag quads4_facets quads4_cells (Some quads4_coarse)
           (Some quads4_refine) (Some quads4_sub_cells) eq_refl eq_refl
           eq_refl quads4_four_edges ltac:(simpl; lia)).
Defined.

(** X16.  The face table of hexahedra does not fit the rows of
    [sub_cells].  [refine_region] lists four children per refined cell, the
    table [refine_faces_3_8] names the sub-cells 4 to 7 in each of its rows
    1 to 5: whenever the first interface facet is not the local facet 0 of
    its refined cell, [find_facet_substitutions] with this table raises an
    [IndexError] (on the lookup of the children, if not earlier). *)
Theorem find_facet_substitutions_faces_raise (ext : externals) (d d' : domain)
    (R0 R1 : region) (sc : option (list (nat * list Z)))
    (facets cells : list (nat * nat * nat)) (f l1 l2 : nat) :
  refine_region ext d (Some R0) (Some R1) = Ok (d', sc) ->
  facets !! 0%nat = Some (f, l1, l2) ->
  (1 <= l1 < 6)%nat ->
  find_facet_substitutions facets cells sc refine_faces_3_8
  = Raise IndexError.
Proof.
  intros Hreg Hf Hl1.
  destruct (refine_region_ok _ _ _ _ _ _ Hreg) as (_ & _ & _ & _ & _ & ->).
  destruct facets as [|fac facets]; [discriminate Hf |].
  injection Hf as ->. unfold find_facet_substitutions.
  cbn [find_facet_substitutions_loop].
  destruct (getitem cells 0) as [row | e] eqn:Hrow; cbn [mbind result_bind].
  2:{ unfold getitem in Hrow. destruct (cells !! 0%nat); [discriminate |].
      injection Hrow as <-. reflexivity. }
  set (rows := imap (fun i c => (c, sub_cells_row (length (rcells R0)) i))
                    (rcells R1)).
  destruct (getitem rows (searchsorted (map fst rows) row.1.1))
    as [srow | e] eqn:Hs; cbn [mbind result_bind].
  2:{ unfold getitem in Hs. destruct (rows !! _); [discriminate |].
      injection Hs as <-. reflexivity. }
  apply getitem_ok in Hs. unfold rows in Hs.
  rewrite list_lookup_imap in Hs.
  destruct (rcells R1 !! _) as [c |]; [| discriminate Hs].
  injection Hs as <-. cbn [fst snd].
  unfold sub_cells_row. cbn [seq map].
  destruct l1 as [|[|[|[|[|[|l1]]]]]]; try lia; reflexivity.
Qed.

Lemma find_facet_substitutions_faces_raise_witness :
  find_facet_substitutions [(4, 4, 0)]%nat [(0, 1, 0)]%nat
    (Some [(0%nat, [1; 2; 3; 4])]) refine_faces_3_8 = Raise IndexError.
Proof.
  apply (find_facet_substitutions_faces_raise (sample_ext 8) hex2
           (FEDomain (sample_ext 8)
              {| coors := [[f_half; f_half]];
                 conn := [4; 5; 6; 7; 8; 9; 10; 11]%nat
                         :: replicate 8 [0; 1; 2; 3; 4; 5; 6; 7]%nat;
                 mat_ids := [0; 0; 0; 0; 0; 0; 0; 0; 0];
                 desc := "3_8" |})
           hex2_coarse hex2_refine (Some [(0%nat, [1; 2; 3; 4])])
           [(4, 4, 0)]%nat [(0, 1, 0)]%nat 4%nat 4%nat 0%nat eq_refl eq_refl).
  lia.
Defined.

(** ** The consistency check of [refine] *)

Lemma take_default {A : Type} (x0 : A) (a : list A) (idx : list nat) :
  (forall i, i ∈ idx -> (i < length a)%nat) ->
  take_ a idx = Ok (map (fun i => default x0 (a !! i)) idx).
Proof.
  induction idx as [|i idx IH]; intros Hall; [reflexivity |]. simpl.
  destruct (lookup_lt_is_Some_2 a i) as [x Hx];
    [apply Hall, elem_of_cons; auto |].
  rewrite (getitem_lookup _ _ _ Hx), Hx. simpl.
  rewrite IH by (intros j Hj; apply Hall, elem_of_cons; auto). reflexivity.
Qed.

Lemma getitemZ_of_nat {A : Type} (x0 : A) (a : list A) (m : nat) :
  (m < length a)%nat ->
  getitemZ a (Z.of_nat m) = Ok (default x0 (a !! Z.to_nat (Z.of_nat m))).
Proof.
  intros Hm. unfold getitemZ.
  rewrite (proj2 (Z.leb_le 0 (Z.of_nat m))) by lia. rewrite Nat2Z.id.
  destruct (lookup_lt_is_Some_2 a m Hm) as [x Hx].
  rewrite (getitem_lookup _ _ _ Hx), Hx. reflexivity.
Qed.

(** X17.  The consistency check of [refine] passes on what the two steps
    before it produce.  With the rows of [find_level_interface] and the
    domain and [sub_cells] of [refine_region], every array the block under
    [if facets.shape[0] > 0] evaluates is in range and the final assertion
    [conn0[cells[:, 1]] == conn1[cells[:, 2]]] holds, provided the mesh has a
    connectivity row for every flagged cell and the refined sub-mesh has at
    least four cells per refined cell. *)
Theorem check_conn_passes (ext : externals) (d d' : domain)
    (refine_flag : list bool) (facets cells : list (nat * nat * nat))
    (r0 r1 : option region) (sc : option (list (nat * list Z))) :
  existsb id refine_flag = true ->
  find_level_interface d refine_flag = Ok (facets, cells, r0, r1) ->
  refine_region ext d r0 r1 = Ok (d', sc) ->
  (length refine_flag <= n_el d)%nat ->
  (forall R1, r1 = Some R1 ->
     (4 * length (rcells R1)
      <= length (conn (refine_submesh ext R1 (dmesh d))))%nat) ->
  Z.of_nat (length (nonzero (map negb refine_flag)))
    + 4 * Z.of_nat (length (nonzero refine_flag)) <= 2 ^ 32 ->
  check_conn d d' cells sc = Ok tt.
Proof.
  intros Hany Hfli Hreg Hflag Hfine Hbound.
  destruct (find_level_interface_out _ _ _ _ _ _ Hany Hfli)
    as (R0 & R1 & -> & -> & HR0 & HR1).
  specialize (Hfine R1 eq_refl).
  destruct (interface_rows _ _ _ _ _ _ Hany Hfli) as [Hlen Hrows].
  destruct (refine_region_ok _ _ _ _ _ _ Hreg)
    as (conn0c & mat0c & Hconn & _ & Hmesh & ->).
  rewrite HR0, HR1 in *. unfold n_el in Hflag.
  set (n0 := length (nonzero (map negb refine_flag))) in *.
  set (fine := refine_submesh ext R1 (dmesh d)) in *.
  pose proof (length_take_ _ _ _ Hconn) as Hlen0. fold n0 in Hlen0.
  apply take_ok in Hconn.
  assert (Hconn1 : conn (dmesh d') = conn0c ++ conn fine)
    by (rewrite Hmesh; reflexivity).
  assert (Hcell : forall c1 c2 k, (c1, c2, k) ∈ cells ->
            exists row, conn (dmesh d) !! c2 = Some row /\
                        conn (dmesh d') !! k = Some row).
  { intros c1 c2 k Hin. apply list_elem_of_lookup in Hin as [i Hi].
    assert (Hlt : (i < length facets)%nat)
      by (rewrite Hlen; eapply lookup_lt_Some; exact Hi).
    destruct (lookup_lt_is_Some_2 _ _ Hlt) as [[[f l1] l2] Hf].
    destruct (Hrows i f l1 l2 c1 c2 k Hf Hi) as (_ & _ & _ & _ & Hk).
    destruct (Forall2_lookup_l _ _ _ k c2 Hconn Hk) as (row & Hrow & Hc).
    exists row. split; [exact Hc |]. rewrite Hconn1.
    apply lookup_app_l_Some. exact Hrow. }
  unfold check_conn. cbn [mbind result_bind].
  rewrite (mapM_map _
             (fun r => map (fun z => default [] (conn (dmesh d')
                                                  !! Z.to_nat z)) r.2)).
  2:{ intros [c children] Hin.
      apply elem_of_lookup_imap in Hin as (i & c' & Heq & Hi).
      injection Heq as -> ->. pose proof (lookup_lt_Some _ _ _ Hi) as Hi'.
      cbn [snd]. rewrite (sub_cells_row_small n0 _ i Hi' Hbound).
      apply mapM_map. intros z Hz.
      apply list_elem_of_In, in_map_iff in Hz as (k & <- & Hk).
      apply in_seq in Hk. apply getitemZ_of_nat.
      rewrite Hconn1, length_app. lia. }
  cbn [mbind result_bind].
  rewrite (take_default [] (conn (dmesh d)) (map fst _)).
  2:{ intros c Hin. rewrite map_fst_imap in Hin.
      apply elem_of_nonzero, lookup_lt_Some in Hin. lia. }
  cbn [mbind result_bind].
  rewrite (take_default [] (conn (dmesh d)) (map _ cells)).
  2:{ intros c Hin. apply list_elem_of_In, in_map_iff in Hin
        as ([[c1 c2] k] & <- & Hin).
      apply list_elem_of_In, Hcell in Hin as (row & Hrow & _).
      eapply lookup_lt_Some. exact Hrow. }
  cbn [mbind result_bind].
  rewrite (take_default [] (conn (dmesh d'))).
  2:{ intros c Hin. apply list_elem_of_In, in_map_iff in Hin
        as ([[c1 c2] k] & <- & Hin).
      apply list_elem_of_In, Hcell in Hin as (row & _ & Hrow).
      eapply lookup_lt_Some. exact Hrow. }
  cbn [mbind result_bind].
  unfold all_eq. rewrite bool_decide_eq_true_2; [reflexivity |].
  rewrite !map_map. apply map_ext_in. intros [[c1 c2] k] Hin.
  apply list_elem_of_In, Hcell in Hin as (row & Hrow0 & Hrow1).
  simpl. rewrite Hrow0, Hrow1. reflexivity.
Qed.

Lemma check_conn_passes_witness :
  check_conn quads4 quads4_refined quads4_cells (Some quads4_sub_cells)
  = Ok tt.
Proof.
  apply (check_conn_passes (sample_ext 4) quads4 quads4_refined quads4_flag
           quads4_facets quads4_cells (Some quads4_coarse)
           (Some quads4_refine) (Some quads4_sub_cells) eq_refl eq_refl
           eq_refl).
  - cbv. lia.
  - intros R1 [= <-]. cbv. lia.
  - simpl. lia.
Defined.

(** ** Renumbering of the prior records *)

Lemma count_flagged_take (refine_flag : list bool) (n : nat) :
  (n <= length refine_flag)%nat ->
  length (List.filter (flagged refine_flag) (seq 0 n))
  = length (List.filter id (take n refine_flag)).
Proof.
  induction n as [|n IH]; intros Hn; [reflexivity |].
  destruct (lookup_lt_is_Some_2 refine_flag n) as [b Hb]; [lia |].
  rewrite seq_S, (take_S_r _ _ _ Hb), !List.filter_app, !length_app, IH by lia.
  simpl. unfold flagged. rewrite Hb. simpl. destruct b; reflexivity.
Qed.

(** The position of a cell that is kept among the kept cells: its index less
    the number of flagged cells before it. *)
Lemma kept_cell_position (refine_flag : list bool) :
  forall k x, refine_flag !! x = Some false ->
  exists y,
    (y + length (List.filter id (take (S x) refine_flag)) = x)%nat /\
    nonzero_from k (map negb refine_flag) !! y = Some (k + x)%nat.
Proof.
  induction refine_flag as [|b fl IH]; intros k x Hx; [discriminate Hx |].
  destruct x as [|x]; simpl in Hx.
  - injection Hx as ->. exists O. split; [reflexivity |]. simpl.
    f_equal. lia.
  - destruct (IH (S k) x Hx) as (y & Hy & Hlook).
    destruct b; simpl in *.
    + exists y. split; [lia |]. rewrite Hlook. f_equal. lia.
    + exists (S y). split; [lia |]. simpl. rewrite Hlook. f_equal. lia.
Qed.

(** X18.  The shift of chained passes is the renumbering of the cells that
    are kept.  When the prior records are merged with new ones, an entry of
    a cell column (0, 2 or 4) that names a cell [x] which is not refined in
    this pass becomes the position of [x] among the cells that are not
    refined, that is (the new mesh lists the kept cells first, in order) the
    index the same cell has in the new mesh. *)
Theorem refine_accumulate_renumbers (n_el1 : nat) (refine_flag : list bool)
    (gsubs gsubs1 : list (list Z)) (r : option (list (list Z))) :
  refine_accumulate n_el1 refine_flag (Some gsubs) gsubs1 = Ok r ->
  gsubs1 <> [] ->
  exists gsubs',
    r = Some (gsubs' ++ gsubs1) /\
    forall i row j x,
      gsubs !! i = Some row -> row !! j = Some (Z.of_nat x) ->
      cell_column j = true -> refine_flag !! x = Some false ->
      exists row' y,
        gsubs' !! i = Some row' /\ row' !! j = Some (Z.of_nat y) /\
        nonzero (map negb refine_flag) !! y = Some x.
Proof.
  intros H Hne. unfold refine_accumulate in H.
  destruct gsubs1 as [|s1 gsubs1]; [congruence |].
  cbn [length Nat.ltb Nat.leb] in H.
  apply bind_ok in H as (mods & Hmods & H).
  apply bind_ok in H as (gsubs' & Hshift & H).
  apply bind_ok in H as (c & Hc & H). injection H as <-.
  apply r_ok in Hc as ->. apply mapM_ok in Hshift.
  exists gsubs'. split; [reflexivity |].
  intros i row j x Hrow Hx Hcol Hkept.
  destruct (Forall2_lookup_l _ _ _ i row Hshift Hrow) as (row' & Hrow' & Hs).
  destruct (shift_row_ok n_el1 refine_flag mods row row' Hmods Hs)
    as [_ Hentries].
  specialize (Hentries j _ Hx). rewrite Hcol in Hentries.
  destruct (kept_cell_position refine_flag O x Hkept) as (y & Hy & Hlook).
  exists row', y. split; [exact Hrow' |]. split; [| exact Hlook].
  rewrite Hentries. f_equal. unfold shifted, index_pos, count_refined_le.
  pose proof (lookup_lt_Some _ _ _ Hkept) as Hlt.
  rewrite (proj2 (Z.leb_le 0 (Z.of_nat x))) by lia.
  rewrite Nat2Z.id, count_flagged_take by lia. lia.
Qed.

Lemma refine_accumulate_renumbers_witness :
  exists gsubs',
    Some [[0; 0; 3; 0; 4; 3]; [2; 1; 5; 0; 6; 3]; [0; 2; 8; 0; 9; 3]]
      = Some (gsubs' ++ [[0; 2; 8; 0; 9; 3]]) /\
    forall i row j x,
      [[0; 0; 4; 0; 5; 3]; [3; 1; 6; 0; 7; 3]] !! i = Some row ->
      row !! j = Some (Z.of_nat x) ->
      cell_column j = true ->
      [false; true; false; false; false; false; false; false] !! x
        = Some false ->
      exists row' y,
        gsubs' !! i = Some row' /\ row' !! j = Some (Z.of_nat y) /\
        nonzero (map negb [false; true; false; false; false; false; false;
                           false]) !! y = Some x.
Proof.
  apply (refine_accumulate_renumbers 11
           [false; true; false; false; false; false; false; false]
           [[0; 0; 4; 0; 5; 3]; [3; 1; 6; 0; 7; 3]] [[0; 2; 8; 0; 9; 3]]
           (Some [[0; 0; 3; 0; 4; 3]; [2; 1; 5; 0; 6; 3];
                  [0; 2; 8; 0; 9; 3]]) eq_refl).
  discriminate.
Defined.

(** ** The matrices the substitutions leave alone *)

Lemma setitemZ_ok {A : Type} (a a' : list A) (i : Z) (x : A) :
  setitemZ a i x = Ok a' -> a' = <[index_pos (length a) i := x]> a.
Proof.
  unfold setitemZ, index_pos. destruct (0 <=? i).
  - intros H. apply setitem_ok in H as [_ ->]. reflexivity.
  - destruct (0 <=? Z.of_nat (length a) + i); [| discriminate].
    intros H. apply setitem_ok in H as [_ ->]. reflexivity.
Qed.

Lemma assign_grid_row_shape (ap : nat) (a : list nat) :
  forall (brow : list float64) (mtx mtx' : list (list float64)),
  assign_grid_row mtx ap a brow = Ok mtx' ->
  map length mtx' = map length mtx.
Proof.
  induction a as [|aq a IH]; intros [|v brow] mtx mtx' H; simpl in H;
    try discriminate H.
  - injection H as <-. reflexivity.
  - apply bind_ok in H as (row & Hrow & H).
    apply bind_ok in H as (row' & Hrow' & H).
    apply bind_ok in H as (mtx1 & Hmtx1 & H).
    apply getitem_ok in Hrow. apply setitem_ok in Hrow' as [_ ->].
    apply setitem_ok in Hmtx1 as [_ ->].
    rewrite (IH _ _ _ H), list_fmap_insert, length_insert.
    apply list_insert_id. rewrite list_lookup_fmap, Hrow. reflexivity.
Qed.

Lemma assign_grid_rows_shape (a : list nat) :
  forall (a_outer : list nat) (b mtx mtx' : list (list float64)),
  assign_grid_rows mtx a_outer a b = Ok mtx' ->
  map length mtx' = map length mtx.
Proof.
  induction a_outer as [|ap a_outer IH]; intros [|brow b] mtx mtx' H;
    simpl in H; try discriminate H.
  - injection H as <-. reflexivity.
  - apply bind_ok in H as (mtx1 & Hmtx1 & H).
    rewrite (IH _ _ _ H). eapply assign_grid_row_shape. exact Hmtx1.
Qed.

Lemma substitute_ok (ef : list (list nat)) (b : list (list float64))
    (sub : list Z) (c f : nat) (t t' : list (list (list float64))) :
  substitute ef b sub c f t = Ok t' ->
  exists sc mtx',
    sub !! c = Some sc /\ t' = <[index_pos (length t) sc := mtx']> t /\
    map (map length) t' = map (map length) t.
Proof.
  unfold substitute. intros H.
  apply bind_ok in H as (sc & Hsc & H). apply bind_ok in H as (mtx & Hmtx & H).
  apply bind_ok in H as (sf & _ & H). apply bind_ok in H as (a & _ & H).
  apply bind_ok in H as (mtx' & Hgrid & H).
  apply getitem_ok in Hsc. apply getitemZ_ok in Hmtx.
  apply setitemZ_ok in H. exists sc, mtx'.
  split; [exact Hsc |]. split; [exact H |].
  rewrite H, list_fmap_insert. apply list_insert_id.
  rewrite list_lookup_fmap, Hmtx. simpl. f_equal. symmetry.
  eapply assign_grid_rows_shape. exact Hgrid.
Qed.

Lemma substitute_all_ok (ef : list (list nat)) (b0 b1 : list (list float64))
    (gsubs : list (list Z)) :
  forall (t t' : list (list (list float64))),
  substitute_all ef b0 b1 gsubs t = Ok t' ->
  map (map length) t' = map (map length) t /\
  forall c,
    (forall sub sc, sub ∈ gsubs ->
       sub !! 2%nat = Some sc \/ sub !! 4%nat = Some sc ->
       index_pos (length t) sc <> c) ->
    t' !! c = t !! c.
Proof.
  induction gsubs as [|sub gsubs IH]; intros t t' H; simpl in H.
  - injection H as <-. auto.
  - apply bind_ok in H as (t1 & H1 & H). apply bind_ok in H as (t2 & H2 & H).
    apply substitute_ok in H1 as (sc1 & m1 & Hsc1 & Ht1 & Hshape1).
    apply substitute_ok in H2 as (sc2 & m2 & Hsc2 & Ht2 & Hshape2).
    destruct (IH _ _ H) as [Hshape Hkeep].
    assert (Hlen1 : length t1 = length t)
      by (rewrite Ht1; apply length_insert).
    assert (Hlen2 : length t2 = length t)
      by (rewrite Ht2, length_insert; exact Hlen1).
    split; [congruence |]. intros c Hc.
    rewrite Hkeep.
    + rewrite Ht2, list_lookup_insert_ne.
      * rewrite Ht1, list_lookup_insert_ne; [reflexivity |].
        apply (Hc sub sc1); [apply elem_of_cons; auto | auto].
      * rewrite Hlen1. apply (Hc sub sc2); [apply elem_of_cons; auto | auto].
    + intros sub' sc Hin Hsc. rewrite Hlen2.
      apply (Hc sub' sc); [apply elem_of_cons; auto | exact Hsc].
Qed.

(** X19.  The substitutions touch only the matrices of the cells they name:
    the array [eval_basis_transform] returns has the shape of the tiled
    identity ([n_cell] matrices of [n_ep] rows and columns), and the matrix
    of every cell that no record names in its column 2 or 4 (the two fine
    cells of a record; a negative entry counts from the end) is still the
    identity. *)
Theorem eval_basis_transform_untouched (env : basis_env)
    (gsubs : list (list Z)) (t : list (list (list float64))) :
  eval_basis_transform env (Some gsubs) = Ok t ->
  let n_cell := (econn_shape env).1 in
  let n_ep := (econn_shape env).2 in
  map (map length) t = replicate n_cell (replicate n_ep n_ep) /\
  forall c, (c < n_cell)%nat ->
    (forall sub sc, sub ∈ gsubs ->
       sub !! 2%nat = Some sc \/ sub !! 4%nat = Some sc ->
       index_pos n_cell sc <> c) ->
    t !! c = Some (eye n_ep).
Proof.
  unfold eval_basis_transform. intros H.
  apply bind_ok in H as (ef0 & _ & H). apply bind_ok in H as (ef3 & _ & H).
  apply bind_ok in H as (b0 & _ & H). apply bind_ok in H as (b1 & _ & H).
  destruct (econn_shape env) as [n_cell n_ep]. simpl.
  apply bind_ok in H as (t' & Hsub & H). apply bind_ok in H as (u & _ & H).
  injection H as <-.
  apply substitute_all_ok in Hsub as [Hshape Hkeep].
  rewrite length_replicate in Hkeep. split.
  - rewrite Hshape. clear. induction n_cell as [|n IH]; simpl;
      [reflexivity |]. f_equal; [| exact IH].
    unfold eye. rewrite map_map.
    assert (Hrow : forall l : list nat,
              map (fun i => length (map (fun j => if (i =? j)%nat
                                                  then f_one else f_zero)
                                        (seq 0 n_ep))) l
              = replicate (length l) n_ep).
    { induction l as [|x l IHl]; simpl; [reflexivity |].
      rewrite length_map, length_seq, IHl. reflexivity. }
    rewrite Hrow, length_seq. reflexivity.
  - intros c Hc Hfree. rewrite (Hkeep c Hfree).
    apply lookup_replicate_2. exact Hc.
Qed.

Lemma q1_gsubs_cell_0 (sub : list Z) (sc : Z) :
  sub ∈ q1_gsubs ->
  sub !! 2%nat = Some sc \/ sub !! 4%nat = Some sc ->
  index_pos (econn_shape q1_env).1 sc <> 0%nat.
Proof.
  intros Hin Hsc. unfold q1_gsubs in Hin.
  apply elem_of_cons in Hin as [-> | Hin].
  - destruct Hsc as [[= <-] | [= <-]]; discriminate.
  - apply elem_of_cons in Hin as [-> | Hin].
    + destruct Hsc as [[= <-] | [= <-]]; discriminate.
    + apply not_elem_of_nil in Hin. contradiction.
Qed.

Lemma eval_basis_transform_untouched_witness :
  q1_transform !! 0%nat = Some (eye (econn_shape q1_env).2).
Proof.
  exact (proj2 (eval_basis_transform_untouched q1_env q1_gsubs q1_transform
                  eq_refl) 0%nat ltac:(simpl; lia) q1_gsubs_cell_0).
Defined.

(** X20.  [eval_basis_transform] reads the rows 0 and 3 of the edge (face)
    table of the field before it looks at [gsubs]: on a reference cell with
    fewer than four facets the call raises an [IndexError], with or without
    substitutions. *)
Theorem eval_basis_transform_needs_four_facets (env : basis_env)
    (gsubs : option (list (list Z))) :
  (length (efaces env) < 4)%nat ->
  eval_basis_transform env gsubs = Raise IndexError.
Proof.
  intros Hlen. unfold eval_basis_transform.
  destruct (efaces env) as [|e0 [|e1 [|e2 [|e3 ef]]]]; simpl in Hlen;
    try reflexivity. lia.
Qed.

Lemma eval_basis_transform_needs_four_facets_witness :
  eval_basis_transform
    {| econn_shape := (1%nat, 3%nat);
       efaces := [[0; 1]; [1; 2]; [2; 0]]%nat;
       get_base := [] |} None = Raise IndexError.
Proof.
  apply eval_basis_transform_needs_four_facets. simpl. lia.
Defined.

End RefineHangingMore.
